(** * Niobium runner: the execution engine of [commandRunner.ts]

    A shallow embedding of the parts of [CommandRunner] that decide how
    variables are substituted and extracted, how output files are written,
    how one command, one stage, one sequence and one kill request behave,
    which ports are read from a command line and from its output, how
    container output is sanitized and how ports are looked up; and of the
    escaping of the job panel in [webviewPanel.ts].

    Conventions of the embedding.
    - A JavaScript string is a [string]; one [ascii] stands for one UTF-16
      code unit below 256.
    - A regular expression built by [new RegExp] from an interpolated name is
      embedded as the literal pattern it denotes when the name is made of
      word characters only ([plainName]); theorems that depend on the
      pattern carry that assumption.  For any other name the constructor
      may throw and the pattern may mean something else: the functions of
      the module [General], on which [runCommand] is built, read both from
      a [RegExpEngine] and agree with the literal ones on names made of
      word characters.
    - Collaborators that live outside [commandRunner.ts] (the ignore
      provider, [path], [JSON], the file system, the operating system's
      process table) are fields of explicit environment records. *)

From Stdlib Require Import String Ascii List ZArith Lia Bool Arith PeanoNat.
From Stdlib Require Import DecimalString.

Set Warnings "-register-all".
Import ListNotations.
Open Scope string_scope.

(* ===================================================================== *)
(** ** JavaScript string primitives                                        *)
(* ===================================================================== *)

Definition chr (c : ascii) : string := String c EmptyString.

Definition inRange (lo hi n : nat) : bool := Nat.leb lo n && Nat.leb n hi.

(** [\w] of a non-unicode regular expression: [A-Za-z0-9_]. *)
Definition isWordChar (c : ascii) : bool :=
  let n := nat_of_ascii c in
  inRange 48 57 n || inRange 65 90 n || inRange 97 122 n || Nat.eqb n 95.

(** White space and line terminators removed by [String.prototype.trim],
    among the code units below 256: TAB, LF, VT, FF, CR, SP, NBSP. *)
Definition isTrimChar (c : ascii) : bool :=
  let n := nat_of_ascii c in
  inRange 9 13 n || Nat.eqb n 32 || Nat.eqb n 160.

(** Line terminators, which [.] does not match (LF and CR below 256). *)
Definition isLineTerminator (c : ascii) : bool :=
  let n := nat_of_ascii c in
  Nat.eqb n 10 || Nat.eqb n 13.

(** Canonicalisation of the [i] flag, restricted to what can equal an
    ASCII pattern character: ASCII letters are upper-cased, and no code unit
    above 127 is ever mapped into ASCII. *)
Definition canonicalize (c : ascii) : ascii :=
  let n := nat_of_ascii c in
  if inRange 97 122 n then ascii_of_nat (n - 32) else c.

Definition headChar (s : string) : option ascii :=
  match s with
  | EmptyString => None
  | String c _ => Some c
  end.

Fixpoint lastChar (s : string) : option ascii :=
  match s with
  | EmptyString => None
  | String c EmptyString => Some c
  | String _ s' => lastChar s'
  end.

(** [stripPrefix p s = Some rest] when [s = p ++ rest]. *)
Fixpoint stripPrefix (p s : string) : option string :=
  match p with
  | EmptyString => Some s
  | String a p' =>
      match s with
      | EmptyString => None
      | String b s' => if Ascii.eqb a b then stripPrefix p' s' else None
      end
  end.

(** The same, comparing canonicalised code units (flag [i]). *)
Fixpoint stripPrefixCI (p s : string) : option string :=
  match p with
  | EmptyString => Some s
  | String a p' =>
      match s with
      | EmptyString => None
      | String b s' =>
          if Ascii.eqb (canonicalize a) (canonicalize b)
          then stripPrefixCI p' s' else None
      end
  end.

(** [String.prototype.includes]. *)
Fixpoint includes (s needle : string) : bool :=
  match stripPrefix needle s with
  | Some _ => true
  | None =>
      match s with
      | EmptyString => false
      | String _ s' => includes s' needle
      end
  end.

(** [String.prototype.indexOf] for a single character; [None] is [-1]. *)
Fixpoint indexOf (c : ascii) (s : string) : option nat :=
  match s with
  | EmptyString => None
  | String a s' =>
      if Ascii.eqb a c then Some 0
      else option_map S (indexOf c s')
  end.

Fixpoint dropStr (n : nat) (s : string) : string :=
  match n, s with
  | O, _ => s
  | S _, EmptyString => EmptyString
  | S k, String _ s' => dropStr k s'
  end.

Fixpoint takeStr (n : nat) (s : string) : string :=
  match n, s with
  | O, _ => EmptyString
  | S _, EmptyString => EmptyString
  | S k, String a s' => String a (takeStr k s')
  end.

(** [s.substring(a, b)] for [a <= b]. *)
Definition jsSubstring (a b : nat) (s : string) : string :=
  takeStr (b - a) (dropStr a s).

Fixpoint trimStart (s : string) : string :=
  match s with
  | EmptyString => EmptyString
  | String c s' => if isTrimChar c then trimStart s' else s
  end.

Fixpoint trimEnd (s : string) : string :=
  match s with
  | EmptyString => EmptyString
  | String c s' =>
      match trimEnd s' with
      | EmptyString => if isTrimChar c then EmptyString else chr c
      | t => String c t
      end
  end.

(** [String.prototype.trim]. *)
Definition trim (s : string) : string := trimEnd (trimStart s).

(** A name made of word characters only: interpolated into a regular
    expression source it denotes itself. *)
Fixpoint plainName (s : string) : bool :=
  match s with
  | EmptyString => true
  | String c s' => isWordChar c && plainName s'
  end.

(* ===================================================================== *)
(** ** Regular expressions of [processVariables]                           *)
(* ===================================================================== *)

(** The two patterns built per variable: [\$\{NAME\}] and [\$NAME\b]. *)
Inductive Form := Braced | Bare.

Definition patternText (f : Form) (name : string) : string :=
  match f with
  | Braced => "${" ++ name ++ "}"
  | Bare => "$" ++ name
  end.

Definition isWordOpt (o : option ascii) : bool :=
  match o with
  | Some c => isWordChar c
  | None => false
  end.

(** The assertion [\b] between the code unit before and the one after. *)
Definition wordBoundary (before after : option ascii) : bool :=
  xorb (isWordOpt before) (isWordOpt after).

(** Does the pattern match at the start of [s]?  The answer is the text
    after the match. *)
Definition matchAt (f : Form) (name s : string) : option string :=
  match stripPrefix (patternText f name) s with
  | None => None
  | Some rest =>
      match f with
      | Braced => Some rest
      | Bare =>
          if wordBoundary (lastChar (patternText Bare name)) (headChar rest)
          then Some rest else None
      end
  end.

(** [GetSubstitution] for a pattern without capture groups: [$$], [$&],
    [$`] and [$'] are expanded in the replacement text, any other [$] is
    literal. *)
Fixpoint getSubstitution (matched before after r : string) : string :=
  match r with
  | EmptyString => EmptyString
  | String c r1 =>
      if Ascii.eqb c "$" then
        match r1 with
        | EmptyString => chr c
        | String d r2 =>
            if Ascii.eqb d "$" then String "$" (getSubstitution matched before after r2)
            else if Ascii.eqb d "&" then matched ++ getSubstitution matched before after r2
            else if Ascii.eqb d "`" then before ++ getSubstitution matched before after r2
            else if Ascii.eqb d "'" then after ++ getSubstitution matched before after r2
            else String c (getSubstitution matched before after r1)
        end
      else String c (getSubstitution matched before after r1)
  end.

(** [s.replace(pattern, value)] with the [g] flag, scanning [s] from left to
    right.  [before] is the part of the subject already passed; [skip]
    counts the code units of the current match still to be consumed. *)
Fixpoint replaceFrom (f : Form) (name value : string)
         (skip : nat) (before s : string) : string :=
  match s with
  | EmptyString => EmptyString
  | String c s' =>
      match skip with
      | S k => replaceFrom f name value k (before ++ chr c) s'
      | O =>
          match matchAt f name s with
          | Some rest =>
              getSubstitution (patternText f name) before rest value
              ++ replaceFrom f name value
                   (String.length (patternText f name) - 1) (before ++ chr c) s'
          | None => String c (replaceFrom f name value 0 (before ++ chr c) s')
          end
      end
  end.

Definition replaceAll (f : Form) (name value s : string) : string :=
  replaceFrom f name value 0 EmptyString s.

(* ===================================================================== *)
(** ** VariableManager                                                     *)
(* ===================================================================== *)

(** The entries of the variable object in the order [Object.entries]
    enumerates them. *)
Definition Variables := list (string * string).

(** Modelled from the spec: [VariableManager.setVariable] is declared in
    [configProvider.ts]; the value of an existing name is overwritten in
    place, a new name is added at the end. *)
Fixpoint setVariable (name value : string) (vars : Variables) : Variables :=
  match vars with
  | [] => [(name, value)]
  | (k, v) :: rest =>
      if String.eqb k name then (k, value) :: rest
      else (k, v) :: setVariable name value rest
  end.

(** Modelled from the spec: the mapping returned by [getAllVariables],
    read at one name. *)
Fixpoint getVariable (name : string) (vars : Variables) : option string :=
  match vars with
  | [] => None
  | (k, v) :: rest => if String.eqb k name then Some v else getVariable name rest
  end.

Definition replacePass (f : Form) (vars : Variables) (s : string) : string :=
  fold_left (fun processedCommand kv => replaceAll f (fst kv) (snd kv) processedCommand)
            vars s.

Definition processVariables (variables : Variables) (commandStr : string) : string :=
  let processedCommand := commandStr in
  (* First, replace ${VAR_NAME} pattern *)
  let processedCommand := replacePass Braced variables processedCommand in
  (* Then replace $VAR_NAME pattern *)
  let processedCommand := replacePass Bare variables processedCommand in
  processedCommand.

Definition plainVariables (vars : Variables) : Prop :=
  Forall (fun kv => plainName (fst kv) = true) vars.

(* ===================================================================== *)
(** ** Configuration records (declared in [configProvider.ts])             *)
(* ===================================================================== *)

(** [depends_on?: string | string[]]. *)
Inductive DependsOn :=
| DepUndefined
| DepString (dependency : string)
| DepArray (dependencies : list string).

Module CommandConfig.
Record t := mk {
  name : string;
  command : string;
  image : option string;
  cwd : option string;
  env : list (string * string);
  allow_failure : bool;
  depends_on : DependsOn;
  (** the keys of the [outputs] object, in enumeration order *)
  outputs : option (list string);
  output_file : option string
}.
End CommandConfig.

Module StageConfig.
Record t := mk {
  name : string;
  allow_failure : bool;
  parallel : bool
}.
End StageConfig.

(** The value found in [exitCode] at run time: a number, or the string code
    of a system error such as [ENOENT]. *)
Inductive ExitCode :=
| NumberCode (n : Z)
| StringCode (s : string).

Record ExecutionResult := mkResult {
  success : bool;
  output : string;
  error : option string;
  exitCode : option ExitCode
}.

(** Truthiness of an optional string: [undefined] and the empty string are
    falsy. *)
Definition truthy (o : option string) : bool :=
  match o with
  | None => false
  | Some EmptyString => false
  | Some _ => true
  end.

Definition nonEmpty (s : string) : bool :=
  match s with
  | EmptyString => false
  | _ => true
  end.

(* ===================================================================== *)
(** ** extractOutputVariables                                              *)
(* ===================================================================== *)

Definition setOutputMarker (outputName : string) : string :=
  "::set-output name=" ++ outputName ++ "::".

(** The capture group (any code units but line terminators, greedy): the longest run of code units that are not line
    terminators. *)
Fixpoint captureLine (s : string) : string :=
  match s with
  | EmptyString => EmptyString
  | String c s' => if isLineTerminator c then EmptyString else String c (captureLine s')
  end.

(** [stdout.match(setOutputRegex)]: the first position where the marker
    matches, ignoring case; the answer is [match[1]]. *)
Fixpoint matchSetOutput (outputName stdout : string) : option string :=
  match stripPrefixCI (setOutputMarker outputName) stdout with
  | Some rest => Some (captureLine rest)
  | None =>
      match stdout with
      | EmptyString => None
      | String _ s' => matchSetOutput outputName s'
      end
  end.

(** One iteration of the loop over the declared output names: the call of
    [setVariable] it makes, if any. *)
Definition extractOne (outputName stdout : string) : option (string * string) :=
  match matchSetOutput outputName stdout with
  | Some m1 =>
      if nonEmpty m1 then Some (outputName, trim m1) else None
  | None => None
  end.

(** The calls of [setVariable] made by [extractOutputVariables], in order. *)
Definition setVariableCalls (command : CommandConfig.t) (stdout : string)
  : list (string * string) :=
  match CommandConfig.outputs command with
  | None => []
  | Some names =>
      flat_map (fun outputName =>
                  match extractOne outputName stdout with
                  | Some call => [call]
                  | None => []
                  end) names
  end.

Definition extractOutputVariables (command : CommandConfig.t) (stdout : string)
           (vars : Variables) : Variables :=
  fold_left (fun vs call => setVariable (fst call) (snd call) vs)
            (setVariableCalls command stdout) vars.

(* ===================================================================== *)
(** ** areDependenciesSatisfied                                            *)
(* ===================================================================== *)

Definition arrayIncludes (l : list string) (x : string) : bool :=
  existsb (String.eqb x) l.

Definition areDependenciesSatisfied (command : CommandConfig.t)
           (executedCommands : list string) : bool :=
  match CommandConfig.depends_on command with
  | DepUndefined => true
  | DepString dependency =>
      if nonEmpty dependency then arrayIncludes executedCommands dependency
      else true
  | DepArray dependencies =>
      forallb (arrayIncludes executedCommands) dependencies
  end.

(* ===================================================================== *)
(** ** Paths and the file system                                           *)
(* ===================================================================== *)

Definition dq : string := String (ascii_of_nat 34) EmptyString.

(** Removes the trailing run of the code unit [c]. *)
Fixpoint dropTrailing (c : ascii) (s : string) : string :=
  match s with
  | EmptyString => EmptyString
  | String a s' =>
      match dropTrailing c s' with
      | EmptyString => if Ascii.eqb a c then EmptyString else chr a
      | t => String a t
      end
  end.

(** [outputFilename.replace(/\.+$/, '')]. *)
Definition stripTrailingPeriods (s : string) : string := dropTrailing "." s.

Fixpoint afterLastSlash (s : string) : string :=
  match s with
  | EmptyString => EmptyString
  | String _ s' =>
      match indexOf "/" s with
      | None => s
      | Some _ => afterLastSlash s'
      end
  end.

(** [path.basename] (POSIX): trailing separators are ignored, the last
    component is returned. *)
Definition basename (path : string) : string :=
  afterLastSlash (dropTrailing "/" path).

(** [String.prototype.endsWith]. *)
Fixpoint endsWith (s suffix : string) : bool :=
  if String.eqb s suffix then true
  else match s with
       | EmptyString => false
       | String _ s' => endsWith s' suffix
       end.

Definition startsWith (s p : string) : bool :=
  match stripPrefix p s with
  | Some _ => true
  | None => false
  end.

(** [relativePath.replace(/\\/g, '/')]. *)
Fixpoint replaceBackslashes (s : string) : string :=
  match s with
  | EmptyString => EmptyString
  | String c s' =>
      String (if Ascii.eqb c (ascii_of_nat 92) then "/"%char else c)
             (replaceBackslashes s')
  end.

Inductive FsOp :=
| OpMkdir (path : string)
| OpWrite (path : string).

Record FileSystem := mkFs {
  directories : list string;
  (** the files written, most recent first *)
  files : list (string * string)
}.

Definition readFile (path : string) (fs : FileSystem) : option string :=
  getVariable path (files fs).

Inductive Platform := Win32 | Darwin | Linux.

(* ===================================================================== *)
(** ** The process and its result                                          *)
(* ===================================================================== *)

Record SpawnRequest := mkSpawn {
  spawn_command : string;
  spawn_cwd : string;
  spawn_env : list (string * string)
}.

(** What the child process does, as seen by the handlers of [runCommand]. *)
Inductive ProcessEvent :=
(** the [close] event; [code] is [None] for [null]; [killRequested] tells
    whether the user's kill request arrived first *)
| ProcClose (code : option Z) (stdout stderr : string) (killRequested : bool)
(** the [error] event: the process could not be spawned *)
| ProcError (message : string) (code : option ExitCode).

(** A call that may throw; [e] is the text of [String(error)]. *)
Inductive Except (A : Type) :=
| Ok (a : A)
| Raise (e : string).

Arguments Ok {A}.
Arguments Raise {A}.

(** How an [async] function ends. *)
Inductive RunOutcome :=
| Returned (r : ExecutionResult)
| Thrown (e : string)
(** the promise is never settled *)
| Pending.

Record RunnerState := mkState {
  variables : Variables;
  fileSystem : FileSystem
}.

(** The collaborators of [CommandRunner]; [J] is the type of parsed JSON
    values. *)
Record Env (J : Type) := mkEnv {
  platform : Platform;
  (** [IgnoreProvider.isIgnored] *)
  isIgnored : string -> bool;
  path_join : string -> string -> string;
  path_relative : string -> string -> string;
  path_resolve : string -> string -> string;
  (** [JSON.parse]; [None] when it throws *)
  JSON_parse : string -> option J;
  (** [JSON.stringify(value, null, 2)] *)
  JSON_stringify : J -> string;
  fs_existsSync : FileSystem -> string -> bool;
  (** does this file system call throw? *)
  fs_throws : FsOp -> bool;
  (** is a [JobOutputService] attached? *)
  jobOutputService : bool;
  (** [cp.exec] and the life of the child process *)
  spawn : SpawnRequest -> ProcessEvent;
  (** [runDockerCommand], for commands with an image *)
  runDockerCommand : CommandConfig.t -> string -> RunnerState -> RunOutcome * RunnerState
}.

Arguments platform {J}.
Arguments isIgnored {J}.
Arguments path_join {J}.
Arguments path_relative {J}.
Arguments path_resolve {J}.
Arguments JSON_parse {J}.
Arguments JSON_stringify {J}.
Arguments fs_existsSync {J}.
Arguments fs_throws {J}.
Arguments jobOutputService {J}.
Arguments spawn {J}.
Arguments runDockerCommand {J}.

(** [fs.mkdirSync(path, { recursive: true })]; [None] when it throws. *)
Definition mkdirSync {J} (E : Env J) (path : string) (fs : FileSystem)
  : option FileSystem :=
  if fs_throws E (OpMkdir path) then None
  else Some (mkFs (path :: directories fs) (files fs)).

(** [fs.writeFileSync(path, data)]; [None] when it throws. *)
Definition writeFileSync {J} (E : Env J) (path data : string) (fs : FileSystem)
  : option FileSystem :=
  if fs_throws E (OpWrite path) then None
  else Some (mkFs (directories fs) ((path, data) :: files fs)).

Definition shouldIgnorePath {J} (E : Env J) (filePath workspaceRoot : string) : bool :=
  let relativePath :=
    if startsWith filePath workspaceRoot
    then path_relative E workspaceRoot filePath
    else filePath in
  isIgnored E (replaceBackslashes relativePath).

(* ===================================================================== *)
(** ** saveOutputToFile                                                    *)
(* ===================================================================== *)

(** [indexOf] as the number JavaScript returns. *)
Definition indexOfZ (c : ascii) (s : string) : Z :=
  match indexOf c s with
  | Some i => Z.of_nat i
  | None => (-1)%Z
  end.

(** [output.charAt(i)]: [None] stands for the empty string returned out of
    range. *)
Definition charAt (i : Z) (s : string) : option ascii :=
  if (i <? 0)%Z then None else String.get (Z.to_nat i) s.

Definition isChar (o : option ascii) (c : ascii) : bool :=
  match o with
  | Some a => Ascii.eqb a c
  | None => false
  end.

(** The loop that counts braces or brackets from [startPos]; [s] is the
    text from index [i] on.  The answer is [endPos], [-1] when the loop runs
    to the end of the output. *)
Fixpoint findEndPos (startChar : option ascii) (s : string) (i depth : Z) : Z :=
  match s with
  | EmptyString => (-1)%Z
  | String char s' =>
      if (Ascii.eqb char "{" && isChar startChar "{")
         || (Ascii.eqb char "[" && isChar startChar "[")
      then findEndPos startChar s' (i + 1)%Z (depth + 1)%Z
      else if (Ascii.eqb char "}" && isChar startChar "{")
              || (Ascii.eqb char "]" && isChar startChar "[")
      then
        let depth := (depth - 1)%Z in
        if (depth =? 0)%Z then (i + 1)%Z
        else findEndPos startChar s' (i + 1)%Z depth
      else findEndPos startChar s' (i + 1)%Z depth
  end.

Definition jsonStartPos (output : string) : Z :=
  let jsonStart := Z.max 0 (indexOfZ "{" output) in
  let jsonStartArray := indexOfZ "[" output in
  if negb (jsonStartArray =? -1)%Z
     && ((jsonStartArray <? jsonStart)%Z || (jsonStart =? -1)%Z)
  then jsonStartArray
  else jsonStart.

(** The text handed to [JSON.parse], when the scan finds an end. *)
Definition jsonContent (output : string) : option string :=
  let startPos := jsonStartPos output in
  if negb (startPos =? -1)%Z then
    let startChar := charAt startPos output in
    let endPos :=
      findEndPos startChar (dropStr (Z.to_nat startPos) output) startPos 0%Z in
    if negb (endPos =? -1)%Z
    then Some (jsSubstring (Z.to_nat startPos) (Z.to_nat endPos) output)
    else None
  else None.

(** The formatted text of the JSON branch, when extraction and parsing
    succeed. *)
Definition formattedJson {J} (E : Env J) (output : string) : option string :=
  match jsonContent output with
  | Some content =>
      match JSON_parse E content with
      | Some parsedJson => Some (JSON_stringify E parsedJson)
      | None => None
      end
  | None => None
  end.

Definition resultsDirOf {J} (E : Env J) (workspaceRoot : string) : string :=
  path_join E workspaceRoot ".niobium_results".

Definition outputFilenameOf (vars : Variables) (command : CommandConfig.t)
           (alternativeFilename : option string) : string :=
  if truthy alternativeFilename
  then match alternativeFilename with Some a => a | None => EmptyString end
  else processVariables vars
         (match CommandConfig.output_file command with
          | Some f => f
          | None => EmptyString
          end).

Definition outputFilePathOf {J} (E : Env J) (vars : Variables)
           (command : CommandConfig.t) (workspaceRoot : string)
           (alternativeFilename : option string) : string :=
  let outputFilename := outputFilenameOf vars command alternativeFilename in
  let sanitizedOutputFilename := stripTrailingPeriods outputFilename in
  let baseFilename := basename sanitizedOutputFilename in
  path_join E (resultsDirOf E workspaceRoot) baseFilename.

Definition saveOutputToFile {J} (E : Env J) (vars : Variables)
           (command : CommandConfig.t) (output workspaceRoot : string)
           (alternativeFilename : option string) (fs : FileSystem) : FileSystem :=
  if negb (truthy (CommandConfig.output_file command))
     && negb (truthy alternativeFilename)
  then fs
  else
    let outputFilename := outputFilenameOf vars command alternativeFilename in
    let resultsDir := resultsDirOf E workspaceRoot in
    let created :=
      if negb (fs_existsSync E fs resultsDir)
      then mkdirSync E resultsDir fs
      else Some fs in
    match created with
    | None => fs (* the outer catch *)
    | Some fs1 =>
        let sanitizedOutputFilename := stripTrailingPeriods outputFilename in
        let baseFilename := basename sanitizedOutputFilename in
        let outputFilePath := path_join E resultsDir baseFilename in
        let relativeOutputPath := path_relative E workspaceRoot outputFilePath in
        if shouldIgnorePath E relativeOutputPath workspaceRoot then fs1
        else
          let direct :=
            match writeFileSync E outputFilePath output fs1 with
            | Some fs2 => fs2
            | None => fs1 (* the outer catch *)
            end in
          if endsWith baseFilename ".json" then
            match formattedJson E output with
            | Some text =>
                match writeFileSync E outputFilePath text fs1 with
                | Some fs2 => fs2 (* return *)
                | None => direct (* caught as a parse error *)
                end
            | None => direct
            end
          else direct
    end.

(* ===================================================================== *)
(** ** Names that are not literal patterns                                 *)
(* ===================================================================== *)

(** [processVariables] and [extractOutputVariables] hand to [new RegExp] a
    source built from a name.  When the name is made of word characters the
    source denotes a literal pattern and the constructor accepts it:
    [replaceAll] and [matchSetOutput] above are then the operations, and the
    functions above are the functions of the source.  For any other name
    the source may denote another pattern or be rejected by the constructor;
    what [RegExp] makes of it is library code, read from the engine. *)
Record RegExpEngine := mkRegExpEngine {
  (** does [new RegExp(source, flags)] throw?  The answer is the text of
      [String(error)]. *)
  regExp_rejects : string -> option string;
  (** [subject.replace(new RegExp(source, 'g'), replacement)], for
      [regExp_replace source subject replacement] *)
  regExp_replace : string -> string -> string -> string;
  (** [subject.match(new RegExp(source, 'i'))], for
      [regExp_match source subject]: the group [match[1]] when there is a
      match and the group took part in it *)
  regExp_match : string -> string -> option string
}.

Module General.

(** The source of the pattern built for a variable: the template literals
    [\\$\\{${key}\\}] and [\\$${key}\\b]. *)
Definition patternSource (f : Form) (name : string) : string :=
  match f with
  | Braced => "\$\{" ++ name ++ "\}"
  | Bare => "\$" ++ name ++ "\b"
  end.

(** One iteration of a loop of [processVariables]: [new RegExp(...)], then
    [processedCommand.replace(pattern, value)]. *)
Definition replaceBy (X : RegExpEngine) (f : Form) (name value s : string)
  : Except string :=
  if plainName name then Ok (replaceAll f name value s)
  else
    match regExp_rejects X (patternSource f name) with
    | Some e => Raise e
    | None => Ok (regExp_replace X (patternSource f name) s value)
    end.

Fixpoint replacePass (X : RegExpEngine) (f : Form) (vars : Variables) (s : string)
  : Except string :=
  match vars with
  | [] => Ok s
  | (key, value) :: rest =>
      match replaceBy X f key value s with
      | Ok processedCommand => replacePass X f rest processedCommand
      | Raise e => Raise e
      end
  end.

(** [processVariables] for any names. *)
Definition processVariables (X : RegExpEngine) (variables : Variables)
           (commandStr : string) : Except string :=
  match replacePass X Braced variables commandStr with
  | Ok processedCommand => replacePass X Bare variables processedCommand
  | Raise e => Raise e
  end.

(** The source of [setOutputRegex]. *)
Definition markerSource (outputName : string) : string :=
  "::set-output name=" ++ outputName ++ "::(.*)".

(** [new RegExp(..., 'i')] and [stdout.match(setOutputRegex)]; the answer
    is [match[1]] when there is a match. *)
Definition matchMarker (X : RegExpEngine) (outputName stdout : string)
  : Except (option string) :=
  if plainName outputName then Ok (matchSetOutput outputName stdout)
  else
    match regExp_rejects X (markerSource outputName) with
    | Some e => Raise e
    | None => Ok (regExp_match X (markerSource outputName) stdout)
    end.

(** The loop of [extractOutputVariables] over the declared names: the
    variables when the loop is left, and the error that ended it, if any. *)
Fixpoint extractLoop (X : RegExpEngine) (names : list string) (stdout : string)
         (vars : Variables) : Variables * option string :=
  match names with
  | [] => (vars, None)
  | outputName :: rest =>
      match matchMarker X outputName stdout with
      | Raise e => (vars, Some e)
      | Ok m =>
          let vars1 :=
            match m with
            | Some m1 =>
                if nonEmpty m1 then setVariable outputName (trim m1) vars else vars
            | None => vars
            end in
          extractLoop X rest stdout vars1
      end
  end.

(** [extractOutputVariables] for any names. *)
Definition extractOutputVariables (X : RegExpEngine) (command : CommandConfig.t)
           (stdout : string) (vars : Variables) : Variables * option string :=
  match CommandConfig.outputs command with
  | None => (vars, None)
  | Some names => extractLoop X names stdout vars
  end.

(** [saveOutputToFile] for any names: [processVariables] is called inside
    the [try] block, so a rejected pattern ends in the outer [catch]. *)
Definition saveOutputToFile {J} (X : RegExpEngine) (E : Env J) (vars : Variables)
           (command : CommandConfig.t) (output workspaceRoot : string)
           (alternativeFilename : option string) (fs : FileSystem) : FileSystem :=
  if negb (truthy (CommandConfig.output_file command))
     && negb (truthy alternativeFilename)
  then fs
  else
    let outputFilename :=
      if truthy alternativeFilename
      then Ok (match alternativeFilename with Some a => a | None => EmptyString end)
      else processVariables X vars
             (match CommandConfig.output_file command with
              | Some f => f
              | None => EmptyString
              end) in
    match outputFilename with
    | Raise _ => fs (* the outer catch *)
    | Ok outputFilename =>
        let resultsDir := resultsDirOf E workspaceRoot in
        let created :=
          if negb (fs_existsSync E fs resultsDir)
          then mkdirSync E resultsDir fs
          else Some fs in
        match created with
        | None => fs (* the outer catch *)
        | Some fs1 =>
            let sanitizedOutputFilename := stripTrailingPeriods outputFilename in
            let baseFilename := basename sanitizedOutputFilename in
            let outputFilePath := path_join E resultsDir baseFilename in
            let relativeOutputPath := path_relative E workspaceRoot outputFilePath in
            if shouldIgnorePath E relativeOutputPath workspaceRoot then fs1
            else
              let direct :=
                match writeFileSync E outputFilePath output fs1 with
                | Some fs2 => fs2
                | None => fs1 (* the outer catch *)
                end in
              if endsWith baseFilename ".json" then
                match formattedJson E output with
                | Some text =>
                    match writeFileSync E outputFilePath text fs1 with
                    | Some fs2 => fs2 (* return *)
                    | None => direct (* caught as a parse error *)
                    end
                | None => direct
                end
              else direct
        end
    end.

End General.

(* ===================================================================== *)
(** ** runCommand                                                          *)
(* ===================================================================== *)

(** [String(n)] for an integer. *)
Definition stringOfZ (n : Z) : string :=
  DecimalString.NilZero.string_of_int (Z.to_int n).

Definition stringOfCode (code : option Z) : string :=
  match code with
  | Some n => stringOfZ n
  | None => "null"
  end.

(** The error object that reaches the [catch] block of [runCommand];
    [err_text] is [String(error)]. *)
Record CommandError := mkError {
  err_text : string;
  err_code : option ExitCode;
  err_stdout : option string;
  err_stderr : option string
}.

(** [error.code || 1]. *)
Definition exitCodeOf (code : option ExitCode) : ExitCode :=
  match code with
  | None => NumberCode 1
  | Some (NumberCode 0) => NumberCode 1
  | Some (StringCode EmptyString) => NumberCode 1
  | Some c => c
  end.

Definition orElse (o : option string) (d : string) : string :=
  if truthy o then match o with Some s => s | None => d end else d.

Definition saveOutput {J} (E : Env J) (X : RegExpEngine) (command : CommandConfig.t)
           (stdout workspaceRoot : string) (st : RunnerState) : RunnerState :=
  mkState (variables st)
          (General.saveOutputToFile X E (variables st) command stdout workspaceRoot None
                                    (fileSystem st)).

(** The [catch] block. *)
Definition commandFailed {J} (E : Env J) (X : RegExpEngine) (command : CommandConfig.t)
           (workspaceRoot : string) (e : CommandError) (st : RunnerState)
  : RunOutcome * RunnerState :=
  let exitCode := exitCodeOf (err_code e) in
  let stderr := orElse (err_stderr e) (err_text e) in
  let stdout := orElse (err_stdout e) EmptyString in
  let st1 :=
    if nonEmpty stdout then saveOutput E X command stdout workspaceRoot st else st in
  (Returned (mkResult false stdout (Some stderr) (Some exitCode)), st1).

Definition ignoredCwdMessage (command : CommandConfig.t) : string :=
  "Working directory " ++ dq
  ++ match CommandConfig.cwd command with Some d => d | None => "undefined" end
  ++ dq ++ " is in an ignored path according to .niobiumignore".

(** The working directory: [command.cwd] resolved against the workspace
    root, or the root. *)
Definition cwdOf {J} (E : Env J) (command : CommandConfig.t) (workspaceRoot : string)
  : string :=
  if truthy (CommandConfig.cwd command)
  then path_resolve E workspaceRoot
         (match CommandConfig.cwd command with Some d => d | None => EmptyString end)
  else workspaceRoot.

(** The loop over [Object.entries(command.env)]: each value is substituted
    (the source stores the substituted values back into [command.env]). *)
Fixpoint processEnv (X : RegExpEngine) (vars : Variables) (env : list (string * string))
  : Except (list (string * string)) :=
  match env with
  | [] => Ok []
  | (key, value) :: rest =>
      match General.processVariables X vars value with
      | Raise e => Raise e
      | Ok processedValue =>
          match processEnv X vars rest with
          | Raise e => Raise e
          | Ok processedRest => Ok ((key, processedValue) :: processedRest)
          end
      end
  end.

(** What is handed to [cp.exec]: the substituted command, the working
    directory and the substituted environment entries of the command (the
    ambient environment and the choice of the shell are left to [spawn]).
    The substitutions are made before the [try] block. *)
Definition spawnRequestOf {J} (E : Env J) (X : RegExpEngine) (command : CommandConfig.t)
           (workspaceRoot : string) (st : RunnerState) : Except SpawnRequest :=
  match General.processVariables X (variables st) (CommandConfig.command command) with
  | Raise e => Raise e
  | Ok processedCommand =>
      match processEnv X (variables st) (CommandConfig.env command) with
      | Raise e => Raise e
      | Ok processedEnv =>
          Ok (mkSpawn processedCommand (cwdOf E command workspaceRoot) processedEnv)
      end
  end.

(** [runCommand].  The output channel, the notifications and the job panel
    are written to and are taken not to throw; they are not modelled. *)
Definition runCommand {J} (E : Env J) (X : RegExpEngine) (command : CommandConfig.t)
           (workspaceRoot : string) (st : RunnerState) : RunOutcome * RunnerState :=
  if truthy (CommandConfig.image command)
  then runDockerCommand E command workspaceRoot st
  else
    match spawnRequestOf E X command workspaceRoot st with
    | Raise e =>
        (* thrown before the [try] block: the promise is rejected *)
        (Thrown e, st)
    | Ok request =>
        let cwd := cwdOf E command workspaceRoot in
        if shouldIgnorePath E cwd workspaceRoot then
          (Returned (mkResult false EmptyString (Some (ignoredCwdMessage command))
                              (Some (NumberCode 1))), st)
        else
          match spawn E request with
          | ProcClose code stdout stderr killRequested =>
              (* the kill handler is registered only with a job output service *)
              let canceled := killRequested && jobOutputService E in
              if canceled then (Pending, st)
              else
                match code with
                | Some 0%Z =>
                    match General.extractOutputVariables X command stdout (variables st) with
                    | (vars1, Some e) =>
                        (* thrown inside the [try] block: the error has no
                           code, no stdout and no stderr *)
                        commandFailed E X command workspaceRoot
                          (mkError e None None None)
                          (mkState vars1 (fileSystem st))
                    | (vars1, None) =>
                        let st1 := mkState vars1 (fileSystem st) in
                        let st2 := saveOutput E X command stdout workspaceRoot st1 in
                        (Returned (mkResult true stdout None (Some (NumberCode 0))), st2)
                    end
                | _ =>
                    commandFailed E X command workspaceRoot
                      (mkError ("Error: Command failed with exit code " ++ stringOfCode code)
                               (option_map NumberCode code) (Some stdout) (Some stderr))
                      st
                end
          | ProcError message code =>
              commandFailed E X command workspaceRoot
                (mkError ("Error: " ++ message) code None None) st
          end
    end.

(* ===================================================================== *)
(** ** runStage                                                            *)
(* ===================================================================== *)

Definition lf : string := String (ascii_of_nat 10) EmptyString.

(** What a stage run does, in order: the dependency checks, the calls of
    [runCommand], the pushes on [executedCommands] and the pauses. *)
Inductive StageEvent :=
(** [areDependenciesSatisfied(command, executedCommands)] and its answer *)
| EvCheckDeps (command : CommandConfig.t) (executedCommands : list string)
              (satisfied : bool)
(** [this.runCommand(command, workspaceRoot)] is called *)
| EvStart (command : CommandConfig.t)
(** the awaited call settles: it returns a result or throws *)
| EvSettled (command : CommandConfig.t) (outcome : RunOutcome)
(** [executedCommands.push(command.name)] *)
| EvPush (name : string)
(** [await new Promise(resolve => setTimeout(resolve, ms))] *)
| EvPause (ms : Z).

Definition dependencyError (command : CommandConfig.t) : string :=
  "Cannot run command " ++ dq ++ CommandConfig.name command ++ dq
  ++ " because its dependencies have not been executed".

Definition dependencyFailure (combinedOutput : string) (command : CommandConfig.t)
  : ExecutionResult :=
  mkResult false combinedOutput (Some (dependencyError command)) (Some (NumberCode 1)).

(** How the sequential [for] loop is left. *)
Inductive LoopExit :=
(** the end of the list or [break]: [stageSuccess] and [combinedOutput] *)
| LoopDone (stageSuccess : bool) (combinedOutput : string)
(** the [return] inside the loop *)
| LoopReturn (r : ExecutionResult)
(** [runCommand] threw *)
| LoopThrown (e : string)
(** [runCommand] never settled *)
| LoopPending.

Record SeqRun (W : Type) := mkSeqRun {
  seq_exit : LoopExit;
  seq_events : list StageEvent;
  seq_executed : list string;
  seq_world : W
}.

Arguments mkSeqRun {W}.
Arguments seq_exit {W}.
Arguments seq_events {W}.
Arguments seq_executed {W}.
Arguments seq_world {W}.

Definition withEvents {W} (evs : list StageEvent) (r : SeqRun W) : SeqRun W :=
  mkSeqRun (seq_exit r) (evs ++ seq_events r)%list (seq_executed r) (seq_world r).

(** The sequential loop over [commands], entered with the current values of
    [combinedOutput], [executedCommands] and the runner's state. *)
Fixpoint runSequential {W} (run : CommandConfig.t -> W -> RunOutcome * W)
         (commands : list CommandConfig.t)
         (combinedOutput : string) (executedCommands : list string) (w : W)
  : SeqRun W :=
  match commands with
  | [] => mkSeqRun (LoopDone true combinedOutput) [] executedCommands w
  | command :: rest =>
      let name := CommandConfig.name command in
      let satisfied := areDependenciesSatisfied command executedCommands in
      if negb satisfied then
        if negb (CommandConfig.allow_failure command) then
          mkSeqRun (LoopReturn (dependencyFailure combinedOutput command))
                   [EvCheckDeps command executedCommands satisfied] executedCommands w
        else
          (* continue *)
          withEvents [EvCheckDeps command executedCommands satisfied]
                     (runSequential run rest combinedOutput executedCommands w)
      else
        match run command w with
        | (Returned result, w1) =>
            let combinedOutput := combinedOutput ++ output result ++ lf in
            let pushed := (executedCommands ++ [name])%list in
            if negb (success result) && negb (CommandConfig.allow_failure command) then
              (* break *)
              mkSeqRun (LoopDone false combinedOutput)
                       [EvCheckDeps command executedCommands satisfied;
                        EvStart command; EvSettled command (Returned result);
                        EvPush name]
                       pushed w1
            else
              withEvents [EvCheckDeps command executedCommands satisfied;
                          EvStart command; EvSettled command (Returned result);
                          EvPush name; EvPause 500]
                         (runSequential run rest combinedOutput pushed w1)
        | (Thrown e, w1) =>
            mkSeqRun (LoopThrown e)
                     [EvCheckDeps command executedCommands satisfied;
                      EvStart command; EvSettled command (Thrown e)]
                     executedCommands w1
        | (Pending, w1) =>
            mkSeqRun LoopPending
                     [EvCheckDeps command executedCommands satisfied; EvStart command]
                     executedCommands w1
        end
  end.

(** The result of one callback of the parallel [map]. *)
Record NamedResult := mkNamed {
  named_result : ExecutionResult;
  commandName : string
}.

(** The state of a parallel stage: the shared [executedCommands], the
    callbacks awaiting [runCommand], and the settled promises by index. *)
Record ParState := mkPar {
  par_executed : list string;
  par_running : list nat;
  par_settled : list (nat * NamedResult);
  par_events : list StageEvent
}.

Definition settle (i : nat) (r : NamedResult) (evs : list StageEvent) (s : ParState)
  : ParState :=
  mkPar (par_executed s) (par_running s) ((i, r) :: par_settled s)
        (par_events s ++ evs)%list.

(** The synchronous part of the callback for the command at index [i]: it
    runs up to its first [await]. *)
Definition parLaunch (commands : list CommandConfig.t) (i : nat) (s : ParState)
  : ParState :=
  match nth_error commands i with
  | None => s
  | Some command =>
      let name := CommandConfig.name command in
      let satisfied := areDependenciesSatisfied command (par_executed s) in
      let check := EvCheckDeps command (par_executed s) satisfied in
      if negb satisfied then
        if negb (CommandConfig.allow_failure command) then
          settle i (mkNamed (mkResult false EmptyString (Some (dependencyError command))
                                      (Some (NumberCode 1))) name) [check] s
        else
          settle i (mkNamed (mkResult true
                               ("Command skipped due to unsatisfied dependencies: " ++ name)
                               None None) name) [check] s
      else
        mkPar (par_executed s) (par_running s ++ [i])%list (par_settled s)
              (par_events s ++ [check; EvStart command])%list
  end.

Definition removeNat (i : nat) (l : list nat) : list nat :=
  filter (fun j => negb (Nat.eqb i j)) l.

(** The rest of the callback at index [i], resumed when its [runCommand]
    settles with [outcomeOf i]. *)
Definition parComplete (outcomeOf : nat -> RunOutcome)
           (commands : list CommandConfig.t) (i : nat) (s : ParState) : ParState :=
  match nth_error commands i with
  | None => s
  | Some command =>
      let name := CommandConfig.name command in
      if existsb (Nat.eqb i) (par_running s) then
        match outcomeOf i with
        | Returned result =>
            mkPar (par_executed s ++ [name])%list (removeNat i (par_running s))
                  ((i, mkNamed result name) :: par_settled s)
                  (par_events s ++ [EvSettled command (Returned result); EvPush name])%list
        | Thrown e =>
            mkPar (par_executed s) (removeNat i (par_running s))
                  ((i, mkNamed (mkResult false EmptyString (Some e) None) name)
                     :: par_settled s)
                  (par_events s ++ [EvSettled command (Thrown e)])%list
        | Pending => s
        end
      else s
  end.

Definition initialPar : ParState := mkPar [] [] [] [].

(** [commands.map(async ...)] calls every callback in index order; the
    continuations after [await] run later, in the order [completionOrder] in
    which the commands settle. *)
Definition runParallel (outcomeOf : nat -> RunOutcome) (completionOrder : list nat)
           (commands : list CommandConfig.t) : ParState :=
  let launched :=
    fold_left (fun s i => parLaunch commands i s) (seq 0 (length commands)) initialPar in
  fold_left (fun s i => parComplete outcomeOf commands i s) completionOrder launched.

Fixpoint lookupNat {A} (i : nat) (l : list (nat * A)) : option A :=
  match l with
  | [] => None
  | (j, a) :: rest => if Nat.eqb i j then Some a else lookupNat i rest
  end.

(** [await Promise.all(runningCommands)]: the results in index order, once
    every promise is settled. *)
Fixpoint promiseAll (settled : list (nat * NamedResult)) (indices : list nat)
  : option (list NamedResult) :=
  match indices with
  | [] => Some []
  | i :: rest =>
      match lookupNat i settled, promiseAll settled rest with
      | Some r, Some rs => Some (r :: rs)
      | _, _ => None
      end
  end.

(** [commands.find(c => c.name === result.commandName)?.allow_failure]. *)
Definition allowsFailure (commands : list CommandConfig.t) (name : string) : bool :=
  match find (fun c => String.eqb (CommandConfig.name c) name) commands with
  | Some c => CommandConfig.allow_failure c
  | None => false
  end.

(** The loop over the results of a parallel stage. *)
Fixpoint processResults (commands : list CommandConfig.t) (results : list NamedResult)
         (stageSuccess : bool) (combinedOutput : string) : bool * string :=
  match results with
  | [] => (stageSuccess, combinedOutput)
  | result :: rest =>
      let combinedOutput :=
        combinedOutput ++ lf ++ "--- Command: " ++ commandName result ++ " ---" ++ lf
        ++ output (named_result result) ++ lf in
      let stageSuccess :=
        if negb (success (named_result result))
           && negb (allowsFailure commands (commandName result))
        then false else stageSuccess in
      processResults commands rest stageSuccess combinedOutput
  end.

(** The end of [runStage], after the commands. *)
Definition finishStage (stage : StageConfig.t) (stageSuccess : bool)
           (combinedOutput : string) : ExecutionResult :=
  let stageFailed := negb stageSuccess in
  if stageFailed then
    if StageConfig.allow_failure stage
    then mkResult true combinedOutput None None
    else mkResult false combinedOutput (Some "Stage execution failed") None
  else mkResult true combinedOutput None None.

Record StageRun (W : Type) := mkStageRun {
  stage_outcome : RunOutcome;
  stage_events : list StageEvent;
  stage_executed : list string;
  (** the runner's state after a sequential stage; a parallel stage does not
      fix the order of its effects *)
  stage_world : option W
}.

Arguments mkStageRun {W}.
Arguments stage_outcome {W}.
Arguments stage_events {W}.
Arguments stage_executed {W}.
Arguments stage_world {W}.

(** [runStage]: [stage] is the answer of [findStage], [commands] the answer of
    [getStageCommands]. *)
Definition runStage {W} (run : CommandConfig.t -> W -> RunOutcome * W)
           (outcomeOf : nat -> RunOutcome) (completionOrder : list nat)
           (stage : option StageConfig.t) (stageName : string)
           (commands : list CommandConfig.t) (w : W) : StageRun W :=
  match stage with
  | None =>
      mkStageRun
        (Returned (mkResult false EmptyString
                            (Some ("Stage " ++ dq ++ stageName ++ dq ++ " not found")) None))
        [] [] (Some w)
  | Some stage =>
      if Nat.eqb (length commands) 0 then
        mkStageRun
          (Returned (mkResult false EmptyString
                       (Some ("No valid commands found in stage " ++ dq ++ stageName ++ dq))
                       None))
          [] [] (Some w)
      else if StageConfig.parallel stage then
        let s := runParallel outcomeOf completionOrder commands in
        match promiseAll (par_settled s) (seq 0 (length commands)) with
        | Some results =>
            let '(stageSuccess, combinedOutput) :=
              processResults commands results true EmptyString in
            mkStageRun (Returned (finishStage stage stageSuccess combinedOutput))
                       (par_events s) (par_executed s) None
        | None => mkStageRun Pending (par_events s) (par_executed s) None
        end
      else
        let r := runSequential run commands EmptyString [] w in
        let outcome :=
          match seq_exit r with
          | LoopDone stageSuccess combinedOutput =>
              Returned (finishStage stage stageSuccess combinedOutput)
          | LoopReturn result => Returned result
          | LoopThrown e => Thrown e
          | LoopPending => Pending
          end in
        mkStageRun outcome (seq_events r) (seq_executed r) (Some (seq_world r))
  end.

(* ===================================================================== *)
(** ** killProcessAndChildren                                              *)
(* ===================================================================== *)

Inductive Signal := SIGTERM | SIGKILL.

(** The requests the routine sends to the operating system. *)
Inductive KillAction :=
(** [process.kill(pid, signal)] *)
| ActProcessKill (pid : Z) (signal : Signal)
(** [setTimeout(resolve, ms)] *)
| ActSleep (ms : Z)
(** [taskkill /pid PID /T /F] *)
| ActTaskkill (pid : Z)
(** [taskkill /F /FI "IMAGENAME eq node.exe" /FI "WINDOWTITLE eq *NAME*"] *)
| ActTaskkillNode (scriptName : string)
(** [netstat -aon | find ":PORT"], then [taskkill /F /PID]; [strict] is the
    variant with a blank after the port *)
| ActNetstatKill (port : Z) (strict : bool)
(** [lsof -i:PORT -t | xargs kill -9] *)
| ActLsofKill (port : Z)
(** [pkill -f "node.*NAME"] *)
| ActPkillNode (scriptName : string)
(** [lsof -ti:PORT | xargs kill -9] *)
| ActLsofForceKill (port : Z).

(** The operating system seen by the routine; [S] is its state. *)
Record Os (S : Type) := mkOs {
  findChildProcesses : S -> Z -> S * Except (list Z);
  checkPortsInUse : S -> list Z -> S * Except (list (Z * Z));
  (** carries out a request; it may throw, for instance [ESRCH] *)
  perform : S -> KillAction -> S * Except unit;
  sleep : S -> Z -> S
}.

Arguments findChildProcesses {S}.
Arguments checkPortsInUse {S}.
Arguments perform {S}.
Arguments sleep {S}.

(** [Set.prototype.add] on a set kept in insertion order. *)
Definition setAdd (x : Z) (l : list Z) : list Z :=
  if existsb (Z.eqb x) l then l else (l ++ [x])%list.

Definition setAddAll (xs : list Z) (l : list Z) : list Z :=
  fold_left (fun acc x => setAdd x acc) xs l.

(** The state of the routine: the operating system and the requests sent so
    far. *)
Record KillState (S : Type) := mkKill {
  kill_os : S;
  kill_actions : list KillAction
}.

Arguments mkKill {S}.
Arguments kill_os {S}.
Arguments kill_actions {S}.

(** A step of the routine: it changes the state and returns or throws. *)
Definition Eff (S A : Type) : Type := KillState S -> KillState S * Except A.

Definition ret {S A} (a : A) : Eff S A := fun k => (k, Ok a).

Definition bind {S A B} (m : Eff S A) (f : A -> Eff S B) : Eff S B :=
  fun k =>
    match m k with
    | (k1, Ok a) => f a k1
    | (k1, Raise e) => (k1, Raise e)
    end.

Declare Scope eff_scope.
Delimit Scope eff_scope with eff.
Notation "x <- m ;; f" := (bind m (fun x => f))
  (at level 61, m at next level, right associativity) : eff_scope.
Notation "m ;;; f" := (bind m (fun _ => f))
  (at level 61, right associativity) : eff_scope.

(** [try { m } catch (e) { }], answering [d] when [m] throws. *)
Definition tryCatch {S A} (d : A) (m : Eff S A) : Eff S A :=
  fun k =>
    match m k with
    | (k1, Ok a) => (k1, Ok a)
    | (k1, Raise _) => (k1, Ok d)
    end.

(** Sends one request to the operating system. *)
Definition request {S} (os : Os S) (a : KillAction) : Eff S unit :=
  fun k =>
    let '(s1, r) := perform os (kill_os k) a in
    (mkKill s1 (kill_actions k ++ [a])%list, r).

Definition sleepFor {S} (os : Os S) (ms : Z) : Eff S unit :=
  fun k => (mkKill (sleep os (kill_os k) ms) (kill_actions k ++ [ActSleep ms])%list, Ok tt).

Definition findChildren {S} (os : Os S) (pid : Z) : Eff S (list Z) :=
  fun k =>
    let '(s1, r) := findChildProcesses os (kill_os k) pid in
    (mkKill s1 (kill_actions k), r).

Definition portsInUse {S} (os : Os S) (ports : list Z) : Eff S (list (Z * Z)) :=
  fun k =>
    let '(s1, r) := checkPortsInUse os (kill_os k) ports in
    (mkKill s1 (kill_actions k), r).

(** A [for] loop whose body is [body x]. *)
Fixpoint forEach {S A} (body : A -> Eff S unit) (xs : list A) : Eff S unit :=
  match xs with
  | [] => ret tt
  | x :: rest => (body x ;;; forEach body rest)%eff
  end.

(** [try { (await findChildProcesses(pid)).forEach(p => allPids.add(p)) }
    catch (e) { }]; the answer is the set afterwards. *)
Definition addChildren {S} (os : Os S) (pid : Z) (allPids : list Z) : Eff S (list Z) :=
  (more <- tryCatch [] (findChildren os pid) ;;
   ret (setAddAll more allPids))%eff.

(** The loop over [portInfo]. *)
Fixpoint addPortOwners {S} (os : Os S) (portInfo : list (Z * Z)) (allPids : list Z)
  : Eff S (list Z) :=
  match portInfo with
  | [] => ret allPids
  | info :: rest =>
      let pid := snd info in
      if negb (Z.eqb pid 0) && negb (existsb (Z.eqb pid) allPids)
      then (allPids1 <- addChildren os pid (setAdd pid allPids) ;;
            addPortOwners os rest allPids1)%eff
      else addPortOwners os rest allPids
  end.

Definition criticalPortsOf (command : CommandConfig.t) (detectedPorts : list Z) : list Z :=
  let text := CommandConfig.command command in
  let criticalPorts := setAddAll detectedPorts [] in
  let criticalPorts :=
    if includes text "npm run dev" || includes text "vite"
    then setAdd 5173%Z criticalPorts else criticalPorts in
  if includes text "npm run start" || includes text "node server"
  then setAdd 3000%Z (setAdd 5000%Z criticalPorts) else criticalPorts.

Fixpoint takeWord (s : string) : string :=
  match s with
  | EmptyString => EmptyString
  | String c s' => if isWordChar c then String c (takeWord s') else EmptyString
  end.

(** One or more white space characters, then one or more word characters:
    the word. *)
Definition spacesThenWord (s : string) : option string :=
  match s with
  | String c s' =>
      if isTrimChar c then
        let w := takeWord (trimStart s') in
        if nonEmpty w then Some w else None
      else None
  | EmptyString => None
  end.

(** [command.match(/(?:npm run\s+|node\s+)(\w+)/)?.[1]]. *)
Fixpoint scriptNameOf (s : string) : option string :=
  let here :=
    match stripPrefix "npm run" s with
    | Some rest => spacesThenWord rest
    | None =>
        match stripPrefix "node" s with
        | Some rest => spacesThenWord rest
        | None => None
        end
    end in
  match here with
  | Some w => Some w
  | None =>
      match s with
      | EmptyString => None
      | String _ s' => scriptNameOf s'
      end
  end.

Definition nodeCleanup (command : CommandConfig.t) (act : string -> KillAction)
  : list KillAction :=
  let text := CommandConfig.command command in
  if includes text "npm" || includes text "node" then
    match scriptNameOf text with
    | Some scriptName => [act scriptName]
    | None => []
    end
  else [].

(** The set of target pids built before any signal is sent.  The lookup
    of the port owners is one [try] block; nothing inside its loop can
    throw, so the set is the same whether the block is left early or not. *)
Definition targetPids {S} (os : Os S) (pid : Z) (command : CommandConfig.t)
           (detectedPorts childPids : list Z) : Eff S (list Z) :=
  let allPids := setAddAll (pid :: childPids) [] in
  (allPids <- addChildren os pid allPids ;;
   let criticalPorts := criticalPortsOf command detectedPorts in
   if Nat.ltb 0 (length criticalPorts) then
     tryCatch allPids
       (portInfo <- portsInUse os criticalPorts ;;
        addPortOwners os portInfo allPids)
   else ret allPids)%eff.

(** A request inside its own [try] block, or sent through [cp.exec] with a
    callback that ignores the error. *)
Definition attempt {S} (os : Os S) (a : KillAction) : Eff S unit :=
  tryCatch tt (request os a).

(** [killProcessAndChildren]; [childPid] is [childProcess.pid]. *)
Definition killProcessAndChildren {S} (os : Os S) (platform : Platform)
           (childPid : option Z) (command : CommandConfig.t)
           (detectedPorts childPids : list Z) : Eff S unit :=
  match childPid with
  | None => ret tt
  | Some pid =>
      if Z.eqb pid 0 then ret tt
      else
        (allPids <- targetPids os pid command detectedPorts childPids ;;
         let criticalPorts := criticalPortsOf command detectedPorts in
         match platform with
         | Win32 =>
             forEach (fun p => attempt os (ActTaskkill p)) allPids ;;;
             forEach (attempt os) (nodeCleanup command ActTaskkillNode) ;;;
             forEach (fun port => attempt os (ActNetstatKill port false)) detectedPorts ;;;
             forEach (fun port => attempt os (ActNetstatKill port true)) criticalPorts
         | _ =>
             forEach (fun p => attempt os (ActProcessKill p SIGTERM)) allPids ;;;
             sleepFor os 500 ;;;
             forEach (fun p => attempt os (ActProcessKill p SIGKILL)) allPids ;;;
             forEach (fun port => attempt os (ActLsofKill port)) detectedPorts ;;;
             forEach (attempt os) (nodeCleanup command ActPkillNode) ;;;
             forEach (fun port => attempt os (ActLsofForceKill port)) criticalPorts
         end)%eff
  end.

(** The kill handler registered by [runCommand]: it acts only when the child
    process has a pid. *)
Definition killHandler {S} (os : Os S) (platform : Platform)
           (childPid : option Z) (command : CommandConfig.t)
           (detectedPorts childPids : list Z) : Eff S unit :=
  match childPid with
  | Some pid =>
      if Z.eqb pid 0 then ret tt
      else tryCatch tt (killProcessAndChildren os platform childPid command
                                               detectedPorts childPids)
  | None => ret tt
  end.

(* ===================================================================== *)
(** ** A reference instance of the collaborators                           *)
(* ===================================================================== *)

(** [JSON.parse] and [JSON.stringify(value, null, 2)] on a fragment of JSON:
    integers up to 2^53 in absolute value, strings without escapes, arrays,
    objects whose keys are distinct and do not start with a digit, [true],
    [false] and [null].  On a document outside the fragment [parseJson]
    answers [None]; the instance is used to run [saveOutputToFile] on
    documents of the fragment. *)
Inductive Json :=
| JNull
| JBool (b : bool)
| JInt (n : Z)
| JString (s : string)
| JArray (items : list Json)
| JObject (members : list (string * Json)).

Definition isJsonSpace (c : ascii) : bool :=
  let n := nat_of_ascii c in
  Nat.eqb n 32 || Nat.eqb n 9 || Nat.eqb n 10 || Nat.eqb n 13.

Fixpoint skipSpace (s : string) : string :=
  match s with
  | String c s' => if isJsonSpace c then skipSpace s' else s
  | EmptyString => EmptyString
  end.

Definition isDigit (c : ascii) : bool := inRange 48 57 (nat_of_ascii c).

Fixpoint takeDigits (s : string) (acc : Z) : Z * string :=
  match s with
  | String c s' =>
      if isDigit c
      then takeDigits s' (acc * 10 + Z.of_nat (nat_of_ascii c - 48))%Z
      else (acc, s)
  | EmptyString => (acc, s)
  end.

Definition endsNumber (rest : string) : bool :=
  match rest with
  | String c _ => negb (Ascii.eqb c "." || Ascii.eqb c "e" || Ascii.eqb c "E")
  | EmptyString => true
  end.

(** An integer literal: an optional sign, then [0] or a digit sequence that
    does not start with [0]. *)
Definition parseInt (s : string) : option (Z * string) :=
  let '(neg, body) :=
    match s with
    | String "-" s' => (true, s')
    | _ => (false, s)
    end in
  match body with
  | String c rest =>
      if isDigit c then
        let '(n, rest1) :=
          if Ascii.eqb c "0" then (0%Z, rest) else takeDigits body 0%Z in
        if endsNumber rest1 && negb (isDigit (match rest1 with String d _ => d | _ => " "%char end))
           && (n <=? 9007199254740992)%Z
        then Some (if neg then (- n)%Z else n, rest1) else None
      else None
  | EmptyString => None
  end.

(** The characters of a string literal up to the closing quote. *)
Fixpoint parseChars (s : string) : option (string * string) :=
  match s with
  | EmptyString => None
  | String c s' =>
      if Ascii.eqb c (ascii_of_nat 34) then Some (EmptyString, s')
      else if Ascii.eqb c (ascii_of_nat 92) || Nat.ltb (nat_of_ascii c) 32 then None
      else match parseChars s' with
           | Some (t, rest) => Some (String c t, rest)
           | None => None
           end
  end.

Definition keyAllowed (k : string) (seen : list (string * Json)) : bool :=
  negb (isDigit (match k with String d _ => d | _ => " "%char end))
  && negb (existsb (fun m => String.eqb (fst m) k) seen).

Fixpoint parseValue (fuel : nat) (s : string) : option (Json * string) :=
  match fuel with
  | O => None
  | S fuel' =>
      let parseItems :=
        fix parseItems (n : nat) (acc : list Json) (s : string) : option (Json * string) :=
          match n with
          | O => None
          | S n' =>
              match parseValue fuel' s with
              | Some (v, rest) =>
                  match skipSpace rest with
                  | String "," rest1 => parseItems n' (acc ++ [v])%list rest1
                  | String "]" rest1 => Some (JArray (acc ++ [v])%list, rest1)
                  | _ => None
                  end
              | None => None
              end
          end in
      let parseMembers :=
        fix parseMembers (n : nat) (acc : list (string * Json)) (s : string)
          : option (Json * string) :=
          match n with
          | O => None
          | S n' =>
              match skipSpace s with
              | String q rest =>
                  if Ascii.eqb q (ascii_of_nat 34) then
                    match parseChars rest with
                    | Some (k, rest1) =>
                        match skipSpace rest1 with
                        | String ":" rest2 =>
                            match parseValue fuel' rest2 with
                            | Some (v, rest3) =>
                                if keyAllowed k acc then
                                  match skipSpace rest3 with
                                  | String "," rest4 =>
                                      parseMembers n' (acc ++ [(k, v)])%list rest4
                                  | String "}" rest4 =>
                                      Some (JObject (acc ++ [(k, v)])%list, rest4)
                                  | _ => None
                                  end
                                else None
                            | None => None
                            end
                        | _ => None
                        end
                    | None => None
                    end
                  else None
              | EmptyString => None
              end
          end in
      match skipSpace s with
      | EmptyString => None
      | String c rest =>
          if Ascii.eqb c "[" then
            match skipSpace rest with
            | String "]" rest1 => Some (JArray [], rest1)
            | _ => parseItems (String.length s) [] rest
            end
          else if Ascii.eqb c "{" then
            match skipSpace rest with
            | String "}" rest1 => Some (JObject [], rest1)
            | _ => parseMembers (String.length s) [] rest
            end
          else if Ascii.eqb c (ascii_of_nat 34) then
            match parseChars rest with
            | Some (t, rest1) => Some (JString t, rest1)
            | None => None
            end
          else
            match stripPrefix "null" (String c rest),
                  stripPrefix "true" (String c rest),
                  stripPrefix "false" (String c rest) with
            | Some r, _, _ => Some (JNull, r)
            | _, Some r, _ => Some (JBool true, r)
            | _, _, Some r => Some (JBool false, r)
            | _, _, _ =>
                match parseInt (String c rest) with
                | Some (n, r) => Some (JInt n, r)
                | None => None
                end
            end
      end
  end.

Definition parseJson (text : string) : option Json :=
  match parseValue (S (String.length text)) text with
  | Some (v, rest) =>
      match skipSpace rest with
      | EmptyString => Some v
      | _ => None
      end
  | None => None
  end.

Fixpoint joinWith (sep : string) (parts : list string) : string :=
  match parts with
  | [] => EmptyString
  | [x] => x
  | x :: rest => x ++ sep ++ joinWith sep rest
  end.

(** [JSON.stringify(value, null, 2)] at the indentation [indent]. *)
Fixpoint stringifyAt (indent : string) (v : Json) : string :=
  let stepback := indent in
  let indent := indent ++ "  " in
  match v with
  | JNull => "null"
  | JBool true => "true"
  | JBool false => "false"
  | JInt n => stringOfZ n
  | JString s => dq ++ s ++ dq
  | JArray [] => "[]"
  | JArray items =>
      "[" ++ lf ++ indent
      ++ joinWith ("," ++ lf ++ indent) (map (stringifyAt indent) items)
      ++ lf ++ stepback ++ "]"
  | JObject [] => "{}"
  | JObject members =>
      "{" ++ lf ++ indent
      ++ joinWith ("," ++ lf ++ indent)
           (map (fun m => dq ++ fst m ++ dq ++ ": " ++ stringifyAt indent (snd m)) members)
      ++ lf ++ stepback ++ "}"
  end.

Definition stringifyJson (v : Json) : string := stringifyAt EmptyString v.

(** A POSIX instance: paths are joined with a slash, no path is ignored, no
    file system call throws, no directory exists beforehand. *)
Definition referenceEnv (sp : SpawnRequest -> ProcessEvent) (service : bool) : Env Json :=
  mkEnv Json Linux
        (fun _ => false)
        (fun a b => a ++ "/" ++ b)
        (fun from to => match stripPrefix (from ++ "/") to with
                        | Some r => r
                        | None => to
                        end)
        (fun a b => a ++ "/" ++ b)
        parseJson stringifyJson
        (fun fs p => existsb (String.eqb p) (directories fs))
        (fun _ => false)
        service sp
        (fun _ _ st => (Thrown "docker", st)).

(** [RegExp] on a fragment of its sources: escaped characters, literal
    characters, [.], the assertion [\b] and a last group that takes the rest
    of the line.  A source that leaves a group open is rejected, as the
    constructor does; the instance also rejects the sources outside the
    fragment, and is used to run the functions above on names of the
    fragment. *)
Inductive Atom :=
| Lit (c : ascii)
| AnyChar
| Boundary.

Definition isSyntaxChar (c : ascii) : bool :=
  match indexOf c "^$.*+?()[]{}|" with
  | Some _ => true
  | None => Ascii.eqb c (ascii_of_nat 92)
  end.

(** The number of groups still open at the end of [s]. *)
Fixpoint openGroups (s : string) (depth : nat) : nat :=
  match s with
  | EmptyString => depth
  | String c rest =>
      if Ascii.eqb c (ascii_of_nat 92) then
        match rest with
        | String _ rest' => openGroups rest' depth
        | EmptyString => depth
        end
      else if Ascii.eqb c "(" then openGroups rest (S depth)
      else if Ascii.eqb c ")" then openGroups rest (Nat.pred depth)
      else openGroups rest depth
  end.

Definition withAtom (a : Atom) (parsed : option (list Atom * bool))
  : option (list Atom * bool) :=
  match parsed with
  | Some (atoms, capture) => Some (a :: atoms, capture)
  | None => None
  end.

(** The atoms of a source of the fragment, and whether it ends with the
    group that takes the rest of the line. *)
Fixpoint parseAtoms (s : string) : option (list Atom * bool) :=
  match s with
  | EmptyString => Some ([], false)
  | String c rest =>
      if Ascii.eqb c (ascii_of_nat 92) then
        match rest with
        | String d rest' =>
            if Ascii.eqb d "b" then withAtom Boundary (parseAtoms rest')
            else if isWordChar d then None
            else withAtom (Lit d) (parseAtoms rest')
        | EmptyString => None
        end
      else if Ascii.eqb c "." then withAtom AnyChar (parseAtoms rest)
      else if Ascii.eqb c "(" then
        if String.eqb rest ".*)" then Some ([], true) else None
      else if isSyntaxChar c then None
      else withAtom (Lit c) (parseAtoms rest)
  end.

Definition referenceRejects (source : string) : option string :=
  match parseAtoms source with
  | Some _ => None
  | None =>
      Some ("SyntaxError: Invalid regular expression: /" ++ source ++ "/: "
            ++ (if Nat.ltb 0 (openGroups source 0) then "Unterminated group"
                else "Not supported"))
  end.

(** The atoms matched at the start of [s], [previous] being the code unit
    before it: the text after the match. *)
Fixpoint matchAtoms (ignoreCase : bool) (atoms : list Atom) (previous : option ascii)
         (s : string) : option string :=
  match atoms with
  | [] => Some s
  | Boundary :: more =>
      if wordBoundary previous (headChar s)
      then matchAtoms ignoreCase more previous s else None
  | atom :: more =>
      match s with
      | EmptyString => None
      | String d s' =>
          let accepted :=
            match atom with
            | Lit c =>
                if ignoreCase then Ascii.eqb (canonicalize c) (canonicalize d)
                else Ascii.eqb c d
            | AnyChar => negb (isLineTerminator d)
            | Boundary => false
            end in
          if accepted then matchAtoms ignoreCase more (Some d) s' else None
      end
  end.

(** [replace] with the [g] flag; [before] is the part of the subject
    already passed, [skip] counts the code units of the current match still
    to be consumed. *)
Fixpoint replaceMatches (atoms : list Atom) (replacement : string)
         (skip : nat) (before s : string) : string :=
  match s with
  | EmptyString =>
      match matchAtoms false atoms (lastChar before) EmptyString with
      | Some _ => getSubstitution EmptyString before EmptyString replacement
      | None => EmptyString
      end
  | String c s' =>
      match skip with
      | S k => replaceMatches atoms replacement k (before ++ chr c) s'
      | O =>
          match matchAtoms false atoms (lastChar before) s with
          | Some rest =>
              let matched := takeStr (String.length s - String.length rest) s in
              match matched with
              | EmptyString =>
                  getSubstitution matched before rest replacement
                  ++ String c (replaceMatches atoms replacement 0 (before ++ chr c) s')
              | String _ _ =>
                  getSubstitution matched before rest replacement
                  ++ replaceMatches atoms replacement (String.length matched - 1)
                       (before ++ chr c) s'
              end
          | None => String c (replaceMatches atoms replacement 0 (before ++ chr c) s')
          end
      end
  end.

Definition referenceReplace (source subject replacement : string) : string :=
  match parseAtoms source with
  | Some (atoms, false) => replaceMatches atoms replacement 0 EmptyString subject
  | _ => subject
  end.

(** The first match, ignoring case: the rest of the line when the source
    ends with the group. *)
Fixpoint firstMatch (atoms : list Atom) (capture : bool) (previous : option ascii)
         (s : string) : option string :=
  match matchAtoms true atoms previous s with
  | Some rest => if capture then Some (captureLine rest) else None
  | None =>
      match s with
      | EmptyString => None
      | String c s' => firstMatch atoms capture (Some c) s'
      end
  end.

Definition referenceMatch (source subject : string) : option string :=
  match parseAtoms source with
  | Some (atoms, capture) => firstMatch atoms capture None subject
  | None => None
  end.

Definition referenceEngine : RegExpEngine :=
  mkRegExpEngine referenceRejects referenceReplace referenceMatch.

(** An operating system for examples: process 100 has the children 101 and
    102, looking up the children of any other process fails, every port is
    held by process 200, and every SIGKILL finds its process gone. *)
Definition exampleOs : Os unit :=
  mkOs unit
       (fun s pid => if Z.eqb pid 100 then (s, Ok [101; 102]%Z)
                     else (s, Raise "pgrep failed"))
       (fun s ports => (s, Ok (map (fun port => (port, 200%Z)) ports)))
       (fun s a => match a with
                   | ActProcessKill _ SIGKILL => (s, Raise "ESRCH")
                   | _ => (s, Ok tt)
                   end)
       (fun s _ => s).

(** A process for examples: the command [exit 2] prints [boom] and exits
    with code 2, any other command prints its own text and exits with
    code 0. *)
Definition exampleSpawn (request : SpawnRequest) : ProcessEvent :=
  if String.eqb (spawn_command request) "exit 2"
  then ProcClose (Some 2%Z) "boom" "failed" false
  else ProcClose (Some 0%Z) (spawn_command request) EmptyString false.

Definition exampleRun (command : CommandConfig.t) (st : RunnerState)
  : RunOutcome * RunnerState :=
  runCommand (referenceEnv exampleSpawn false) referenceEngine command "/ws" st.

Definition exampleCommand (name command : string) (allow_failure : bool)
           (depends_on : DependsOn) : CommandConfig.t :=
  CommandConfig.mk name command None None [] allow_failure depends_on None None.

Definition emptyState : RunnerState := mkState [] (mkFs [] []).

(* ===================================================================== *)
(** ** runSequence                                                         *)
(* ===================================================================== *)

(** [SequenceConfig] of [configProvider.ts], as far as [runSequence] reads
    it. *)
Module SequenceConfig.
Record t := mk {
  name : string;
  description : option string
}.
End SequenceConfig.

(** What a sequence run does, in order. *)
Inductive SequenceEvent :=
(** [this.runStage(config, stage.name, workspaceRoot)] is called *)
| EvStageStart (stageName : string)
(** the awaited call settles: it returns a result or throws *)
| EvStageSettled (stageName : string) (outcome : RunOutcome)
(** [await new Promise(resolve => setTimeout(resolve, ms))] *)
| EvStagePause (ms : Z).

Record StagesLoop (W : Type) := mkStagesLoop {
  loop_exit : LoopExit;
  loop_events : list SequenceEvent;
  loop_world : W
}.

Arguments mkStagesLoop {W}.
Arguments loop_exit {W}.
Arguments loop_events {W}.
Arguments loop_world {W}.

(** The [for] loop over [stages], entered with the current value of
    [combinedOutput]; [stageRunner name] stands for
    [this.runStage(config, name, workspaceRoot)]. *)
Fixpoint runStages {W} (stageRunner : string -> W -> RunOutcome * W)
         (stages : list StageConfig.t) (combinedOutput : string) (w : W)
  : StagesLoop W :=
  match stages with
  | [] => mkStagesLoop (LoopDone true combinedOutput) [] w
  | stage :: rest =>
      let name := StageConfig.name stage in
      match stageRunner name w with
      | (Returned result, w1) =>
          let combinedOutput := combinedOutput ++ output result ++ lf in
          if negb (success result) then
            (* break *)
            mkStagesLoop (LoopDone false combinedOutput)
                         [EvStageStart name; EvStageSettled name (Returned result)] w1
          else
            let r := runStages stageRunner rest combinedOutput w1 in
            mkStagesLoop (loop_exit r)
                         ([EvStageStart name; EvStageSettled name (Returned result);
                           EvStagePause 1000] ++ loop_events r)%list
                         (loop_world r)
      | (Thrown e, w1) =>
          mkStagesLoop (LoopThrown e)
                       [EvStageStart name; EvStageSettled name (Thrown e)] w1
      | (Pending, w1) => mkStagesLoop LoopPending [EvStageStart name] w1
      end
  end.

Record SequenceRun (W : Type) := mkSequenceRun {
  sequence_outcome : RunOutcome;
  sequence_events : list SequenceEvent;
  sequence_world : W
}.

Arguments mkSequenceRun {W}.
Arguments sequence_outcome {W}.
Arguments sequence_events {W}.
Arguments sequence_world {W}.

(** [runSequence]: [sequence] is the answer of [findSequence], [stages] the
    answer of [getSequenceStages]. *)
Definition runSequence {W} (stageRunner : string -> W -> RunOutcome * W)
           (sequence : option SequenceConfig.t) (sequenceName : string)
           (stages : list StageConfig.t) (w : W) : SequenceRun W :=
  match sequence with
  | None =>
      mkSequenceRun
        (Returned (mkResult false EmptyString
                            (Some ("Sequence " ++ dq ++ sequenceName ++ dq ++ " not found"))
                            None))
        [] w
  | Some _ =>
      if Nat.eqb (length stages) 0 then
        mkSequenceRun
          (Returned (mkResult false EmptyString
                       (Some ("No valid stages found in sequence "
                              ++ dq ++ sequenceName ++ dq))
                       None))
          [] w
      else
        let r := runStages stageRunner stages EmptyString w in
        let outcome :=
          match loop_exit r with
          | LoopDone sequenceSuccess combinedOutput =>
              if sequenceSuccess
              then Returned (mkResult true combinedOutput None None)
              else Returned (mkResult false combinedOutput
                                      (Some "Sequence execution failed") None)
          | LoopReturn result => Returned result
          | LoopThrown e => Thrown e
          | LoopPending => Pending
          end in
        mkSequenceRun outcome (loop_events r) (loop_world r)
  end.

(** [this.runStage(config, name, workspaceRoot)] for a configuration whose
    stages run their commands one after the other: the configuration
    provider answers [findStage] and [getStageCommands]. *)
Definition sequentialStageRunner {W} (run : CommandConfig.t -> W -> RunOutcome * W)
           (findStage : string -> option StageConfig.t)
           (getStageCommands : string -> list CommandConfig.t)
           (stageName : string) (w : W) : RunOutcome * W :=
  let R := runStage run (fun _ => Pending) [] (findStage stageName) stageName
                    (getStageCommands stageName) w in
  (stage_outcome R, match stage_world R with Some w1 => w1 | None => w end).

(** A configuration for examples: the stages [build], [test] and [deploy],
    each with one command; the command of [test] fails (see
    [exampleSpawn]). *)
Definition exampleFindStage (stageName : string) : option StageConfig.t :=
  if existsb (String.eqb stageName) ["build"; "test"; "deploy"]
  then Some (StageConfig.mk stageName false false)
  else None.

Definition exampleStageCommands (stageName : string) : list CommandConfig.t :=
  if String.eqb stageName "build" then [exampleCommand "compile" "make" false DepUndefined]
  else if String.eqb stageName "test" then [exampleCommand "unit" "exit 2" false DepUndefined]
  else if String.eqb stageName "deploy" then [exampleCommand "ship" "ship" false DepUndefined]
  else [].

Definition exampleStageRunner : string -> RunnerState -> RunOutcome * RunnerState :=
  sequentialStageRunner exampleRun exampleFindStage exampleStageCommands.

(* ===================================================================== *)
(** ** detectPossiblePorts and the ports read from the output              *)
(* ===================================================================== *)

(** [parseInt(text, 10)]: leading white space is skipped, a sign is read,
    then the longest run of decimal digits; [None] stands for [NaN].  The
    value is exact below 2^53. *)
Definition parseInt10 (text : string) : option Z :=
  let s := trimStart text in
  let '(negative, body) :=
    match s with
    | String c s' =>
        if Ascii.eqb c "-" then (true, s')
        else if Ascii.eqb c "+" then (false, s')
        else (false, s)
    | EmptyString => (false, s)
    end in
  match body with
  | String d _ =>
      if isDigit d
      then Some (let n := fst (takeDigits body 0%Z) in if negative then (- n)%Z else n)
      else None
  | EmptyString => None
  end.

(** At most [n] leading decimal digits of [s]. *)
Fixpoint takeDigitsUpTo (n : nat) (s : string) : string :=
  match n with
  | O => EmptyString
  | S k =>
      match s with
      | String c s' => if isDigit c then String c (takeDigitsUpTo k s') else EmptyString
      | EmptyString => EmptyString
      end
  end.

(** The group [(\d{2,5})] at the start of [s]: greedy, nothing follows it
    in either pattern. *)
Definition digits2to5 (s : string) : option string :=
  let digits := takeDigitsUpTo 5 s in
  if Nat.leb 2 (String.length digits) then Some digits else None.

(** [/(?:PORT|port)=(\d{2,5})/] at the start of [s]: the text matched. *)
Definition portAssignmentAt (s : string) : option string :=
  let alternative (key : string) :=
    match stripPrefix key s with
    | Some rest => option_map (fun digits => key ++ digits) (digits2to5 rest)
    | None => None
    end in
  match alternative "PORT=" with
  | Some matched => Some matched
  | None => alternative "port="
  end.

(** [command.match(/(?:PORT|port)=(\d{2,5})/g)]: the texts matched, from
    left to right; [skip] counts the code units of the current match still
    to be passed. *)
Fixpoint portAssignments (skip : nat) (s : string) : list string :=
  match s with
  | EmptyString => []
  | String _ s' =>
      match skip with
      | S k => portAssignments k s'
      | O =>
          match portAssignmentAt s with
          | Some matched => matched :: portAssignments (String.length matched - 1) s'
          | None => portAssignments 0 s'
          end
      end
  end.

(** [text.split('=')[1]]: what stands between the first and the second
    equals sign; [None] stands for [undefined]. *)
Definition secondField (text : string) : option string :=
  match indexOf "=" text with
  | None => None
  | Some i =>
      let rest := dropStr (S i) text in
      Some (match indexOf "=" rest with
            | Some j => takeStr j rest
            | None => rest
            end)
  end.

(** [if (port > 0 && port < 65536 && !ports.includes(port)) ports.push(port)];
    every comparison with [NaN] is false. *)
Definition pushPort (ports : list Z) (port : option Z) : list Z :=
  match port with
  | Some port =>
      if (0 <? port)%Z && (port <? 65536)%Z && negb (existsb (Z.eqb port) ports)
      then (ports ++ [port])%list
      else ports
  | None => ports
  end.

Definition detectPossiblePorts (command : string) : list Z :=
  let ports := [] in
  (* Common default ports *)
  let ports :=
    if includes command "npm run dev" || includes command "vite"
    then (ports ++ [5173%Z])%list else ports in
  let ports :=
    if includes command "npm run start" || includes command "node server"
    then (ports ++ [5000%Z; 3000%Z; 8000%Z; 8080%Z])%list else ports in
  (* Look for explicit port definitions *)
  let portMatches := portAssignments 0 command in
  fold_left (fun ports matched =>
               pushPort ports
                        (match secondField matched with
                         | Some text => parseInt10 text
                         | None => None
                         end))
            portMatches ports.

Fixpoint dropWhile (p : ascii -> bool) (s : string) : string :=
  match s with
  | String c s' => if p c then dropWhile p s' else s
  | EmptyString => EmptyString
  end.

(** The keywords of the pattern that scans the output, but the last. *)
Definition portKeywords : list string :=
  ["listening on"; "running on"; "localhost:"; "server running"; "started on";
   "listening at"; "bound to"].

(** [\s] among the code units below 256. *)
Definition isSpaceChar (c : ascii) : bool := isTrimChar c.

(** The alternative [port\s*:] at the start of [s]: the text after it.  The
    colon is no white space, so the greedy run is never given back. *)
Definition afterPortColon (s : string) : option string :=
  match stripPrefixCI "port" s with
  | Some rest =>
      match dropWhile isSpaceChar rest with
      | String c after => if Ascii.eqb c ":" then Some after else None
      | EmptyString => None
      end
  | None => None
  end.

(** [(?:.*?)(\d{2,5})] at the start of [s]: the lazy run stops at the first
    place of the line where two digits stand; the answer is the text up to
    the end of the digits. *)
Fixpoint lazyThenDigits (s : string) : option string :=
  match digits2to5 s with
  | Some digits => Some digits
  | None =>
      match s with
      | String c s' =>
          if isLineTerminator c then None
          else option_map (String c) (lazyThenDigits s')
      | EmptyString => None
      end
  end.

(** The rest of the pattern after a keyword that ends where [after] starts:
    the text matched from the start of [s]. *)
Definition keywordThenPort (s after : string) : option string :=
  match lazyThenDigits after with
  | Some tail => Some (takeStr (String.length s - String.length after) s ++ tail)
  | None => None
  end.

(** The alternatives with a fixed keyword, tried in order at the start of
    [s], ignoring case. *)
Fixpoint tryKeywords (keywords : list string) (s : string) : option string :=
  match keywords with
  | [] => None
  | key :: rest =>
      match match stripPrefixCI key s with
            | Some after => keywordThenPort s after
            | None => None
            end with
      | Some matched => Some matched
      | None => tryKeywords rest s
      end
  end.

(** The whole pattern at the start of [s]: the text matched. *)
Definition outputPortAt (s : string) : option string :=
  match tryKeywords portKeywords s with
  | Some matched => Some matched
  | None =>
      match afterPortColon s with
      | Some after => keywordThenPort s after
      | None => None
      end
  end.

(** [text.match(/.../gi)]: the texts matched, from left to right. *)
Fixpoint outputPortMatches (skip : nat) (s : string) : list string :=
  match s with
  | EmptyString => []
  | String _ s' =>
      match skip with
      | S k => outputPortMatches k s'
      | O =>
          match outputPortAt s with
          | Some matched => matched :: outputPortMatches (String.length matched - 1) s'
          | None => outputPortMatches 0 s'
          end
      end
  end.

(** [match.match(/(\d{2,5})/)?.[1]]: the first place of [s] where two
    digits stand, with up to five of them. *)
Fixpoint firstDigits (s : string) : option string :=
  match digits2to5 s with
  | Some digits => Some digits
  | None =>
      match s with
      | String _ s' => firstDigits s'
      | EmptyString => None
      end
  end.

(** The scan of one chunk of standard output in [runCommand]: the value of
    [detectedPorts] afterwards. *)
Definition scanOutputPorts (detectedPorts : list Z) (text : string) : list Z :=
  fold_left (fun ports matched =>
               match firstDigits matched with
               | Some digits => pushPort ports (parseInt10 digits)
               | None => ports
               end)
            (outputPortMatches 0 text) detectedPorts.

(* ===================================================================== *)
(** ** sanitizeDockerOutput                                                *)
(* ===================================================================== *)

(** The classes of [/\x1B(?:[@-Z\\-_]|\[[0-?]*[ -/]*[@-~])/]. *)
Definition isEscapeFinal (c : ascii) : bool :=
  let n := nat_of_ascii c in inRange 64 90 n || inRange 92 95 n.

Definition isCsiParameter (c : ascii) : bool := inRange 48 63 (nat_of_ascii c).

Definition isCsiIntermediate (c : ascii) : bool := inRange 32 47 (nat_of_ascii c).

Definition isCsiFinal (c : ascii) : bool := inRange 64 126 (nat_of_ascii c).

(** The escape sequence at the start of [s]: the text after it.  The three
    classes of the second alternative are disjoint, so the greedy runs are
    never given back. *)
Definition escapeSequenceAt (s : string) : option string :=
  match s with
  | String c (String d rest) =>
      if Ascii.eqb c (ascii_of_nat 27) then
        if isEscapeFinal d then Some rest
        else if Ascii.eqb d "[" then
          match dropWhile isCsiIntermediate (dropWhile isCsiParameter rest) with
          | String f after => if isCsiFinal f then Some after else None
          | EmptyString => None
          end
        else None
      else None
  | _ => None
  end.

(** [output.replace(/\x1B.../g, '')]. *)
Fixpoint removeEscapeSequences (skip : nat) (s : string) : string :=
  match s with
  | EmptyString => EmptyString
  | String c s' =>
      match skip with
      | S k => removeEscapeSequences k s'
      | O =>
          match escapeSequenceAt s with
          | Some after =>
              removeEscapeSequences (String.length s - String.length after - 1) s'
          | None => String c (removeEscapeSequences 0 s')
          end
      end
  end.

(** The class of the second [replace]: the code units 0 to 9, 11, 12, 14 to
    31, 127 to 159 and 128 to 160. *)
Definition isControlChar (c : ascii) : bool :=
  let n := nat_of_ascii c in
  inRange 0 9 n || Nat.eqb n 11 || Nat.eqb n 12 || inRange 14 31 n
  || inRange 127 159 n || inRange 128 160 n.

Fixpoint removeChars (p : ascii -> bool) (s : string) : string :=
  match s with
  | String c s' => if p c then removeChars p s' else String c (removeChars p s')
  | EmptyString => EmptyString
  end.

(** [text.replace(/\r\n/g, '\n')]. *)
Fixpoint normalizeLineEndings (s : string) : string :=
  match s with
  | String c s' =>
      match s' with
      | String d rest =>
          if Ascii.eqb c (ascii_of_nat 13) && Ascii.eqb d (ascii_of_nat 10)
          then String d (normalizeLineEndings rest)
          else String c (normalizeLineEndings s')
      | EmptyString => String c EmptyString
      end
  | EmptyString => EmptyString
  end.

(** The class of the third [replace]: the replacement character U+FFFD.  No
    code unit below 256 is equal to it, so on the texts of this embedding
    the third [replace] finds nothing to remove. *)
Definition isReplacementChar (c : ascii) : bool :=
  N.eqb (N_of_ascii c) 65533.

(** [sanitizeDockerOutput]: the four [replace] calls, in order. *)
Definition sanitizeDockerOutput (output : string) : string :=
  if negb (nonEmpty output) then EmptyString
  else
    normalizeLineEndings
      (removeChars isReplacementChar
         (removeChars isControlChar
            (removeEscapeSequences 0 output))).

(* ===================================================================== *)
(** ** checkPortsInUse                                                     *)
(* ===================================================================== *)

(** The routine itself; the record [Os] above holds what the kill routine
    sees of it. *)
Module PortLookup.

(** [cp.exec(command, callback)] as the callback sees it: is there an
    error, and the standard output. *)
Definition Exec := string -> bool * string.

(** [text.split('\n')]. *)
Fixpoint splitLines (s : string) : list string :=
  match s with
  | EmptyString => [EmptyString]
  | String c s' =>
      if Ascii.eqb c (ascii_of_nat 10) then EmptyString :: splitLines s'
      else match splitLines s' with
           | line :: rest => String c line :: rest
           | [] => [String c EmptyString]
           end
  end.

(** [line.match(/(\d+)$/)?.[1]]: the digits that end the line, [None] when
    it does not end with a digit. *)
Fixpoint trailingDigits (s : string) : option string :=
  match s with
  | EmptyString => None
  | String c s' =>
      match trailingDigits s' with
      | Some digits =>
          if isDigit c && Nat.eqb (String.length digits) (String.length s')
          then Some (String c digits) else Some digits
      | None =>
          match s' with
          | EmptyString => if isDigit c then Some (String c EmptyString) else None
          | _ => None
          end
      end
  end.

(** [!filterPids.length || filterPids.includes(pid)]. *)
Definition passesFilter (filterPids : list Z) (pid : Z) : bool :=
  Nat.eqb (length filterPids) 0 || existsb (Z.eqb pid) filterPids.

(** The callback of [lsof -i:PORT -P -n -t]: what it pushes on [result]. *)
Definition lsofOwner (exec : Exec) (filterPids : list Z) (port : Z) : option (Z * Z) :=
  let '(error, stdout) := exec ("lsof -i:" ++ stringOfZ port ++ " -P -n -t") in
  if negb error && nonEmpty stdout then
    match parseInt10 (trim stdout) with
    | Some pid => if passesFilter filterPids pid then Some (port, pid) else None
    | None => None
    end
  else None.

(** The loop over the lines of [netstat -ano | findstr :PORT]: the first
    line that ends with the pid of a process that passes the filter. *)
Fixpoint netstatLines (filterPids : list Z) (port : Z) (lines : list string)
  : option (Z * Z) :=
  match lines with
  | [] => None
  | line :: rest =>
      match trailingDigits (trim line) with
      | Some digits =>
          match parseInt10 digits with
          | Some pid =>
              if passesFilter filterPids pid then Some (port, pid) (* break *)
              else netstatLines filterPids port rest
          | None => netstatLines filterPids port rest
          end
      | None => netstatLines filterPids port rest
      end
  end.

Definition netstatOwner (exec : Exec) (filterPids : list Z) (port : Z) : option (Z * Z) :=
  let '(error, stdout) := exec ("netstat -ano | findstr :" ++ stringOfZ port) in
  if negb error && nonEmpty stdout
  then netstatLines filterPids port (splitLines (trim stdout))
  else None.

(** [checkPortsInUse]: one lookup per port, all started at once; the
    entries are pushed as the lookups complete, [completionOrder] lists the
    indices of the ports in that order. *)
Definition checkPortsInUse (platform : Platform) (exec : Exec)
           (ports filterPids : list Z) (completionOrder : list nat) : list (Z * Z) :=
  flat_map (fun i =>
              match nth_error ports i with
              | Some port =>
                  match match platform with
                        | Win32 => netstatOwner exec filterPids port
                        | _ => lsofOwner exec filterPids port
                        end with
                  | Some entry => [entry]
                  | None => []
                  end
              | None => []
              end)
           completionOrder.

End PortLookup.

(* ===================================================================== *)
(** ** listFilesRecursively                                                *)
(* ===================================================================== *)

(** What [fs.readdirSync] and [fs.statSync] show below a directory: files,
    and directories with their own entries. *)
Inductive DirEntry :=
| FileEntry (name : string)
| SubDirectory (name : string) (entries : list DirEntry).

(** Induction over the entries, with the property known of the entries of a
    directory. *)
Section DirEntryInduction.
Variable P : DirEntry -> Prop.
Hypothesis file_case : forall name, P (FileEntry name).
Hypothesis directory_case :
  forall name entries, Forall P entries -> P (SubDirectory name entries).

Fixpoint DirEntry_induction (entry : DirEntry) : P entry :=
  match entry with
  | FileEntry name => file_case name
  | SubDirectory name entries =>
      directory_case name entries
        ((fix all (l : list DirEntry) : Forall P l :=
            match l with
            | [] => Forall_nil P
            | e :: rest => Forall_cons e (DirEntry_induction e) (all rest)
            end) entries)
  end.
End DirEntryInduction.

Definition entryName (entry : DirEntry) : string :=
  match entry with
  | FileEntry name => name
  | SubDirectory name _ => name
  end.

(** The callback of [files.forEach] for one entry of [dir]: the value of
    [fileList] afterwards. *)
Fixpoint listEntry {J} (E : Env J) (currentBaseDir dir : string) (entry : DirEntry)
         (fileList : list string) : list string :=
  let filePath := path_join E dir (entryName entry) in
  let relPath := path_relative E currentBaseDir filePath in
  (* Skip files that match ignore patterns *)
  if shouldIgnorePath E relPath currentBaseDir then fileList
  else
    match entry with
    | SubDirectory _ entries =>
        (* this.listFilesRecursively(filePath, fileList, currentBaseDir) *)
        let baseDir := orElse (Some currentBaseDir) filePath in
        fold_left (fun fileList entry => listEntry E baseDir filePath entry fileList)
                  entries fileList
    | FileEntry _ => (fileList ++ [relPath])%list
    end.

(** [listFilesRecursively(dir, fileList, baseDir)] for a directory with the
    entries [entries]. *)
Definition listFilesRecursively {J} (E : Env J) (dir : string) (entries : list DirEntry)
           (fileList : list string) (baseDir : option string) : list string :=
  let currentBaseDir := orElse baseDir dir in
  fold_left (fun fileList entry => listEntry E currentBaseDir dir entry fileList)
            entries fileList.

(** The reference instance with an ignore predicate. *)
Definition ignoringEnv (ignored : string -> bool) : Env Json :=
  mkEnv Json Linux ignored
        (fun a b => a ++ "/" ++ b)
        (fun from to => match stripPrefix (from ++ "/") to with
                        | Some r => r
                        | None => to
                        end)
        (fun a b => a ++ "/" ++ b)
        parseJson stringifyJson
        (fun fs p => existsb (String.eqb p) (directories fs))
        (fun _ => false)
        false (fun _ => ProcError "none" None)
        (fun _ _ st => (Thrown "docker", st)).

(* ===================================================================== *)
(** ** The job panel ([webviewPanel.ts])                                   *)
(* ===================================================================== *)

(** [text.replace(/c/g, entity)] for a pattern of one character and a
    replacement text without a dollar sign. *)
Fixpoint replaceChar (c : ascii) (entity : string) (s : string) : string :=
  match s with
  | EmptyString => EmptyString
  | String a s' =>
      if Ascii.eqb a c then entity ++ replaceChar c entity s'
      else String a (replaceChar c entity s')
  end.

Definition _escapeHtml (text : string) : string :=
  replaceChar "'" "&#039;"
    (replaceChar (ascii_of_nat 34) "&quot;"
       (replaceChar ">" "&gt;"
          (replaceChar "<" "&lt;"
             (replaceChar "&" "&amp;" text)))).

(* ===================================================================== *)
(** ** Specifications                                                      *)
(* ===================================================================== *)

(** A word character: a digit, a letter of the ASCII alphabet or the
    underscore. *)
Definition isWordCharacter (c : ascii) : Prop :=
  let n := nat_of_ascii c in
  48 <= n <= 57 \/ 65 <= n <= 90 \/ 97 <= n <= 122 \/ n = 95.

(** The code unit at a place of a text is a word character; the start and
    the end of the text are none. *)
Definition isWordAt (o : option ascii) : Prop :=
  exists c, o = Some c /\ isWordCharacter c.

(** A word boundary lies between two neighbouring places of a text when
    exactly one of them holds a word character. *)
Definition atWordBoundary (before after : option ascii) : Prop :=
  (isWordAt before /\ ~ isWordAt after) \/ (~ isWordAt before /\ isWordAt after).

(** An occurrence of [${NAME}], or of [$NAME] followed by a word boundary,
    at the start of [s]; [rest] is the text after it. *)
Definition occursAt (f : Form) (name s rest : string) : Prop :=
  match f with
  | Braced => s = "${" ++ name ++ "}" ++ rest
  | Bare =>
      s = "$" ++ name ++ rest
      /\ atWordBoundary (lastChar ("$" ++ name)) (headChar rest)
  end.

(** [ReplacedEvery f name value s out]: [out] is [s] with every occurrence
    of the pattern replaced by [value]; the occurrences are taken from left
    to right, and the text put in is not looked at again. *)
Inductive ReplacedEvery (f : Form) (name value : string)
  : string -> string -> Prop :=
| RE_end : ReplacedEvery f name value EmptyString EmptyString
| RE_hit : forall s rest out,
    occursAt f name s rest ->
    ReplacedEvery f name value rest out ->
    ReplacedEvery f name value s (value ++ out)
| RE_skip : forall c s out,
    (forall rest, ~ occursAt f name (String c s) rest) ->
    ReplacedEvery f name value s out ->
    ReplacedEvery f name value (String c s) (String c out).

(** One pass over all known variables, in their order: the text left by
    one variable is the text the next one is replaced in. *)
Inductive PassOver (f : Form) : Variables -> string -> string -> Prop :=
| PO_nil : forall s, PassOver f [] s s
| PO_cons : forall name value rest s s1 s2,
    ReplacedEvery f name value s s1 ->
    PassOver f rest s1 s2 ->
    PassOver f ((name, value) :: rest) s s2.

(** No value holds a dollar sign. *)
Definition plainValues (vars : Variables) : Prop :=
  Forall (fun kv => indexOf "$" (snd kv) = None) vars.

(** No occurrence of the pattern anywhere in [s]. *)
Definition noOccurrence (f : Form) (name s : string) : Prop :=
  forall pre suf rest, s = pre ++ suf -> ~ occursAt f name suf rest.

Fixpoint occursIn (f : Form) (name s : string) : bool :=
  match matchAt f name s with
  | Some _ => true
  | None =>
      match s with
      | EmptyString => false
      | String _ s' => occursIn f name s'
      end
  end.

(** Equal up to the case of ASCII letters. *)
Fixpoint sameIgnoringCase (a b : string) : bool :=
  match a, b with
  | EmptyString, EmptyString => true
  | String x a', String y b' =>
      Ascii.eqb (canonicalize x) (canonicalize y) && sameIgnoringCase a' b'
  | _, _ => false
  end.

(** [s] starts with the marker [::set-output name=NAME::] written in any
    letter case; [value] is what follows it on the line. *)
Definition markerAt (name s value : string) : Prop :=
  exists text rest,
    s = text ++ rest
    /\ sameIgnoringCase (setOutputMarker name) text = true
    /\ value = captureLine rest.

(** [value] belongs to the first marker for [name] in [s]. *)
Inductive FirstMarker (name : string) : string -> string -> Prop :=
| FM_here : forall s value,
    markerAt name s value -> FirstMarker name s value
| FM_later : forall c s value,
    (forall v, ~ markerAt name (String c s) v) ->
    FirstMarker name s value ->
    FirstMarker name (String c s) value.

(** The result described for a process that exits: success for code 0;
    otherwise a failure carrying the stderr text (the error message when
    stderr is empty) and the exit code (1 when the process was ended by a
    signal). *)
Definition resultOfExit (code : option Z) (stdout stderr : string) : ExecutionResult :=
  match code with
  | Some 0%Z => mkResult true stdout None (Some (NumberCode 0))
  | _ =>
      mkResult false stdout
        (Some (if nonEmpty stderr then stderr
               else "Error: Command failed with exit code " ++ stringOfCode code))
        (Some (NumberCode (match code with Some n => n | None => 1%Z end)))
  end.

(** The result when the regular expression built from a declared output
    name is rejected after the process has exited with code 0: the error is
    caught, and it carries neither code nor output. *)
Definition resultOfRejectedOutput (e : string) : ExecutionResult :=
  mkResult false EmptyString (Some e) (Some (NumberCode 1)).

(** Every regular expression built from the names of [vars] is accepted by
    the constructor: the name is made of word characters, or the engine
    accepts both sources. *)
Definition patternsAccepted (X : RegExpEngine) (vars : Variables) : Prop :=
  forall name value f,
    In (name, value) vars ->
    plainName name = true \/ regExp_rejects X (General.patternSource f name) = None.

(** The result described for a process that could not be spawned. *)
Definition resultOfSpawnError (message : string) (code : option ExitCode)
  : ExecutionResult :=
  mkResult false EmptyString (Some ("Error: " ++ message)) (Some (exitCodeOf code)).

(** The names pushed on [executedCommands] along a trace. *)
Fixpoint pushedNames (evs : list StageEvent) : list string :=
  match evs with
  | [] => []
  | EvPush name :: rest => name :: pushedNames rest
  | _ :: rest => pushedNames rest
  end.

(** The names of the commands whose [runCommand] returned along a trace. *)
Fixpoint returnedNames (evs : list StageEvent) : list string :=
  match evs with
  | [] => []
  | EvSettled command (Returned _) :: rest =>
      CommandConfig.name command :: returnedNames rest
  | _ :: rest => returnedNames rest
  end.

(** The commands whose dependencies were checked along a trace. *)
Fixpoint checkedCommands (evs : list StageEvent) : list CommandConfig.t :=
  match evs with
  | [] => []
  | EvCheckDeps command _ _ :: rest => command :: checkedCommands rest
  | _ :: rest => checkedCommands rest
  end.

(** [command] names [name] among its dependencies. *)
Definition dependsOn (command : CommandConfig.t) (name : string) : bool :=
  match CommandConfig.depends_on command with
  | DepUndefined => false
  | DepString dependency => nonEmpty dependency && String.eqb name dependency
  | DepArray dependencies => existsb (String.eqb name) dependencies
  end.

(** A trace read from left to right, [executed] being the names pushed so
    far and [previous] the event just before: every check is made against
    the names pushed so far and records the answer of
    [areDependenciesSatisfied]; a command is started right after its own
    satisfied check; the return of a command is followed at once by the
    push of its name, and a name is pushed only right after the command of
    that name returned; every pause lasts 500 ms. *)
Fixpoint TraceOk (executed : list string) (previous : option StageEvent)
         (evs : list StageEvent) : Prop :=
  match evs with
  | [] => True
  | e :: rest =>
      match e with
      | EvCheckDeps command snapshot satisfied =>
          snapshot = executed
          /\ satisfied = areDependenciesSatisfied command snapshot
          /\ TraceOk executed (Some e) rest
      | EvStart command =>
          (exists snapshot, previous = Some (EvCheckDeps command snapshot true))
          /\ TraceOk executed (Some e) rest
      | EvSettled command outcome =>
          (forall result,
              outcome = Returned result ->
              exists rest', rest = EvPush (CommandConfig.name command) :: rest')
          /\ TraceOk executed (Some e) rest
      | EvPush name =>
          (exists command result,
              previous = Some (EvSettled command (Returned result))
              /\ CommandConfig.name command = name)
          /\ TraceOk (executed ++ [name])%list (Some e) rest
      | EvPause ms => ms = 500%Z /\ TraceOk executed (Some e) rest
      end
  end.

(** The run of a sequential stage has stopped before the end of its
    commands: its last event is the failed check of a command without
    [allow_failure], the push that follows the failure of a command without
    [allow_failure], a [runCommand] that threw, or the start of a
    [runCommand] that never settles. *)
Definition StageStopped (evs : list StageEvent) : Prop :=
  (exists pre command snapshot,
      evs = (pre ++ [EvCheckDeps command snapshot false])%list
      /\ CommandConfig.allow_failure command = false)
  \/ (exists pre command result,
         evs = (pre ++ [EvSettled command (Returned result);
                        EvPush (CommandConfig.name command)])%list
         /\ success result = false
         /\ CommandConfig.allow_failure command = false)
  \/ (exists pre command e, evs = (pre ++ [EvSettled command (Thrown e)])%list)
  \/ (exists pre command, evs = (pre ++ [EvStart command])%list).

(** A set that keeps what [base] holds and has no repetition. *)
Definition extends (base pids : list Z) : Prop := NoDup pids /\ incl base pids.

(** Is the request a signal sent by [process.kill]? *)
Definition isSignal (a : KillAction) : bool :=
  match a with
  | ActProcessKill _ _ => true
  | _ => false
  end.

(** The event just before the end of [evs], [previous] when [evs] is
    empty. *)
Fixpoint lastEvent (previous : option StageEvent) (evs : list StageEvent)
  : option StageEvent :=
  match evs with
  | [] => previous
  | e :: rest => lastEvent (Some e) rest
  end.

(** What holds of a parallel stage at every moment: its trace is well
    formed, and [executedCommands] holds the names pushed, which are the
    names of the commands that returned. *)
Definition ParInv (s : ParState) : Prop :=
  TraceOk [] None (par_events s)
  /\ par_executed s = pushedNames (par_events s)
  /\ pushedNames (par_events s) = returnedNames (par_events s).

(** The stages started along a sequence run. *)
Fixpoint startedStages (evs : list SequenceEvent) : list string :=
  match evs with
  | [] => []
  | EvStageStart name :: rest => name :: startedStages rest
  | _ :: rest => startedStages rest
  end.

(** The results returned by the stages along a sequence run. *)
Fixpoint stageResults (evs : list SequenceEvent) : list ExecutionResult :=
  match evs with
  | [] => []
  | EvStageSettled _ (Returned result) :: rest => result :: stageResults rest
  | _ :: rest => stageResults rest
  end.

(** The results returned by the commands along a stage run. *)
Fixpoint commandResults (evs : list StageEvent) : list ExecutionResult :=
  match evs with
  | [] => []
  | EvSettled _ (Returned result) :: rest => result :: commandResults rest
  | _ :: rest => commandResults rest
  end.

(** The outputs of the results, each followed by a line feed. *)
Fixpoint joinOutputs (results : list ExecutionResult) : string :=
  match results with
  | [] => EmptyString
  | result :: rest => output result ++ lf ++ joinOutputs rest
  end.

(** The output of a parallel stage: one section per result. *)
Fixpoint joinSections (results : list NamedResult) : string :=
  match results with
  | [] => EmptyString
  | result :: rest =>
      lf ++ "--- Command: " ++ commandName result ++ " ---" ++ lf
      ++ output (named_result result) ++ lf ++ joinSections rest
  end.

(** The callback at index [i] of a parallel stage: is it awaiting its
    [runCommand], and the result its promise is settled with. *)
Definition callbackState (s : ParState) (i : nat) : bool * option NamedResult :=
  (existsb (Nat.eqb i) (par_running s), lookupNat i (par_settled s)).

(** The result of a command whose dependencies are not satisfied, in a
    parallel stage. *)
Definition unsatisfiedResult (command : CommandConfig.t) : NamedResult :=
  let name := CommandConfig.name command in
  if CommandConfig.allow_failure command
  then mkNamed (mkResult true ("Command skipped due to unsatisfied dependencies: " ++ name)
                         None None) name
  else mkNamed (mkResult false EmptyString (Some (dependencyError command))
                         (Some (NumberCode 1))) name.

(** The result of a command that was started, once its [runCommand]
    settles. *)
Definition startedResult (command : CommandConfig.t) (outcome : RunOutcome)
  : option NamedResult :=
  let name := CommandConfig.name command in
  match outcome with
  | Returned result => Some (mkNamed result name)
  | Thrown e => Some (mkNamed (mkResult false EmptyString (Some e) None) name)
  | Pending => None
  end.

(** What the promise at index [i] of a parallel stage is settled with, as a
    function of the command, of whether its [runCommand] completes and of
    how: a command is started exactly when its dependencies are satisfied by
    the empty list. *)
Definition settledResult (outcomeOf : nat -> RunOutcome) (completionOrder : list nat)
           (i : nat) (command : CommandConfig.t) : option NamedResult :=
  if areDependenciesSatisfied command [] then
    if existsb (Nat.eqb i) completionOrder
    then startedResult command (outcomeOf i)
    else None
  else Some (unsatisfiedResult command).

(** The results of the commands from index [i] on, in declaration order,
    when every promise is settled. *)
Fixpoint settledResults (outcomeOf : nat -> RunOutcome) (completionOrder : list nat)
         (i : nat) (commands : list CommandConfig.t) : option (list NamedResult) :=
  match commands with
  | [] => Some []
  | command :: rest =>
      match settledResult outcomeOf completionOrder i command,
            settledResults outcomeOf completionOrder (S i) rest with
      | Some r, Some rs => Some (r :: rs)
      | _, _ => None
      end
  end.

(** What holds of every event of a parallel stage: a check is made against
    the empty list, and a command is started only if the empty list
    satisfies its dependencies. *)
Definition checkedAgainstNothing (e : StageEvent) : Prop :=
  match e with
  | EvCheckDeps command snapshot satisfied =>
      snapshot = [] /\ satisfied = areDependenciesSatisfied command []
  | EvStart command => areDependenciesSatisfied command [] = true
  | _ => True
  end.

(** The nesting depth of [s]: every [opening] counts up, every [closing]
    counts down. *)
Fixpoint depthOf (opening closing : ascii) (s : string) : Z :=
  match s with
  | EmptyString => 0%Z
  | String c s' =>
      ((if Ascii.eqb c opening then 1
        else if Ascii.eqb c closing then -1 else 0)
       + depthOf opening closing s')%Z
  end.

(** Every code unit of [s] satisfies [p]. *)
Fixpoint allChars (p : ascii -> bool) (s : string) : bool :=
  match s with
  | EmptyString => true
  | String c s' => p c && allChars p s'
  end.

(** A code unit that may be left in sanitized output: the line feed, the
    carriage return, the printable ASCII characters, and the code units
    above the no-break space. *)
Definition isKeptChar (c : ascii) : bool :=
  let n := nat_of_ascii c in
  Nat.eqb n 10 || Nat.eqb n 13 || inRange 32 126 n || Nat.leb 161 n.

(** The same without the carriage return. *)
Definition isCleanChar (c : ascii) : bool :=
  isKeptChar c && negb (Nat.eqb (nat_of_ascii c) 13).

(** The requests of the routine once the set of target pids is built, in
    the order they are sent. *)
Definition killRequests (platform : Platform) (command : CommandConfig.t)
           (detectedPorts allPids : list Z) : list KillAction :=
  match platform with
  | Win32 =>
      map ActTaskkill allPids
      ++ nodeCleanup command ActTaskkillNode
      ++ map (fun port => ActNetstatKill port false) detectedPorts
      ++ map (fun port => ActNetstatKill port true)
             (criticalPortsOf command detectedPorts)
  | _ =>
      map (fun p => ActProcessKill p SIGTERM) allPids
      ++ [ActSleep 500]
      ++ map (fun p => ActProcessKill p SIGKILL) allPids
      ++ map ActLsofKill detectedPorts
      ++ nodeCleanup command ActPkillNode
      ++ map ActLsofForceKill (criticalPortsOf command detectedPorts)
  end%list.

(** The entity that stands for a character in escaped text, the character
    itself when it needs none. *)
Definition escapedChar (c : ascii) : string :=
  if Ascii.eqb c "&" then "&amp;"
  else if Ascii.eqb c "<" then "&lt;"
  else if Ascii.eqb c ">" then "&gt;"
  else if Ascii.eqb c (ascii_of_nat 34) then "&quot;"
  else if Ascii.eqb c "'" then "&#039;"
  else chr c.

(** The text escaped in one pass, character by character. *)
Fixpoint escapedOnce (s : string) : string :=
  match s with
  | EmptyString => EmptyString
  | String c s' => escapedChar c ++ escapedOnce s'
  end.

(** A character that opens or closes markup or an attribute value. *)
Definition isMarkupChar (c : ascii) : bool :=
  Ascii.eqb c "<" || Ascii.eqb c ">" || Ascii.eqb c (ascii_of_nat 34) || Ascii.eqb c "'".

(** Every ampersand of [s] starts one of the five entities. *)
Fixpoint ampersandsAreEntities (s : string) : bool :=
  match s with
  | EmptyString => true
  | String c s' =>
      (negb (Ascii.eqb c "&")
       || startsWith s "&amp;" || startsWith s "&lt;" || startsWith s "&gt;"
       || startsWith s "&quot;" || startsWith s "&#039;")
      && ampersandsAreEntities s'
  end.

(* ===================================================================== *)
(** * Proofs                                                               *)
(* ===================================================================== *)

(* ===================================================================== *)
(** ** Strings                                                             *)
(* ===================================================================== *)

Lemma str_app_assoc (a b c : string) : (a ++ b) ++ c = a ++ b ++ c.
Proof. induction a as [|x a IH]; simpl; [reflexivity | now rewrite IH]. Qed.

Lemma str_app_nil_r (a : string) : a ++ EmptyString = a.
Proof. induction a as [|x a IH]; simpl; [reflexivity | now rewrite IH]. Qed.

Lemma str_app_inv_head (p a b : string) : p ++ a = p ++ b -> a = b.
Proof.
  induction p as [|x p IH]; simpl; intros H; [exact H|].
  injection H as H. now apply IH.
Qed.

Lemma str_length_app (a b : string) :
  String.length (a ++ b) = String.length a + String.length b.
Proof. induction a as [|x a IH]; simpl; [reflexivity | now rewrite IH]. Qed.

Lemma stripPrefix_Some (p s r : string) :
  stripPrefix p s = Some r <-> s = p ++ r.
Proof.
  revert s; induction p as [|a p IH]; intros s; simpl.
  - split; intros H; [now injection H as -> | now subst].
  - destruct s as [|b s]; [split; discriminate|].
    destruct (Ascii.eqb a b) eqn:E.
    + apply Ascii.eqb_eq in E; subst b. rewrite IH.
      split; intros H; [now subst | now injection H].
    + apply Ascii.eqb_neq in E. split; [discriminate|].
      intros H; injection H as H1 _. now elim E.
Qed.

Lemma stripPrefix_app (p r : string) : stripPrefix p (p ++ r) = Some r.
Proof. now apply stripPrefix_Some. Qed.

(* ===================================================================== *)
(** ** processVariables                                                    *)
(* ===================================================================== *)

Lemma patternText_head (f : Form) (name : string) :
  exists tail, patternText f name = String "$" tail.
Proof. destruct f; simpl; eauto. Qed.

Lemma matchAt_prefix (f : Form) (name s rest : string) :
  matchAt f name s = Some rest -> s = patternText f name ++ rest.
Proof.
  unfold matchAt. destruct (stripPrefix (patternText f name) s) as [r|] eqn:E;
    [|discriminate].
  apply stripPrefix_Some in E. destruct f.
  - intros H; injection H as <-. exact E.
  - destruct (wordBoundary _ _); [|discriminate].
    intros H; injection H as <-. exact E.
Qed.

Lemma isWordChar_spec (c : ascii) : isWordChar c = true <-> isWordCharacter c.
Proof.
  unfold isWordChar, isWordCharacter, inRange. cbv zeta.
  rewrite !orb_true_iff, !andb_true_iff, !Nat.leb_le, Nat.eqb_eq. tauto.
Qed.

Lemma isWordAt_spec (o : option ascii) : isWordOpt o = true <-> isWordAt o.
Proof.
  unfold isWordAt. destruct o as [c|]; simpl.
  - rewrite isWordChar_spec.
    split; [intros H; now exists c | intros [c' [E H]]; now injection E as ->].
  - split; [discriminate | intros [c' [E _]]; discriminate E].
Qed.

(** The assertion [\b] holds exactly at the word boundaries. *)
Lemma wordBoundary_spec (before after : option ascii) :
  wordBoundary before after = true <-> atWordBoundary before after.
Proof.
  unfold wordBoundary, atWordBoundary. rewrite <- !isWordAt_spec.
  destruct (isWordOpt before), (isWordOpt after); simpl; split;
    intros H; try discriminate H; try reflexivity;
    try (left; split; [reflexivity | discriminate]);
    try (right; split; [discriminate | reflexivity]);
    destruct H as [[H1 H2]|[H1 H2]]; try discriminate; now elim H1 + now elim H2.
Qed.

Lemma matchAt_spec (f : Form) (name s rest : string) :
  matchAt f name s = Some rest
  <-> match f with
      | Braced => s = "${" ++ name ++ "}" ++ rest
      | Bare =>
          s = "$" ++ name ++ rest
          /\ wordBoundary (lastChar ("$" ++ name)) (headChar rest) = true
      end.
Proof.
  unfold matchAt. destruct f.
  - destruct (stripPrefix _ s) as [r|] eqn:E.
    + apply stripPrefix_Some in E. simpl in E. rewrite str_app_assoc in E.
      split.
      * intros H; injection H as <-. exact E.
      * intros H. rewrite H in E. simpl in E. injection E as E.
        apply str_app_inv_head in E. simpl in E. now injection E as ->.
    + split; [discriminate|]. intros H.
      assert (X : stripPrefix (patternText Braced name) s = Some rest).
      { apply stripPrefix_Some. simpl. now rewrite str_app_assoc. }
      simpl in X. simpl in E. congruence.
  - destruct (stripPrefix _ s) as [r|] eqn:E.
    + apply stripPrefix_Some in E. simpl in E.
      split.
      * destruct (wordBoundary _ (headChar r)) eqn:B; [|discriminate].
        intros H; injection H as <-. split; [exact E | exact B].
      * intros [H B]. rewrite H in E. simpl in E. injection E as E.
        apply str_app_inv_head in E. subst r.
        simpl in B. simpl. now rewrite B.
    + split; [discriminate|]. intros [H B].
      assert (X : stripPrefix (patternText Bare name) s = Some rest).
      { apply stripPrefix_Some. exact H. }
      simpl in X. simpl in E. congruence.
Qed.

Lemma matchAt_occursAt (f : Form) (name s rest : string) :
  matchAt f name s = Some rest <-> occursAt f name s rest.
Proof.
  rewrite matchAt_spec. unfold occursAt. destruct f; [reflexivity|].
  split; intros [E W]; (split; [exact E|]); now apply wordBoundary_spec.
Qed.

Lemma replaceFrom_unfold (f : Form) (name value before : string) (c : ascii) (s : string) :
  replaceFrom f name value 0 before (String c s)
  = match matchAt f name (String c s) with
    | Some rest =>
        getSubstitution (patternText f name) before rest value
        ++ replaceFrom f name value (String.length (patternText f name) - 1)
             (before ++ chr c) s
    | None => String c (replaceFrom f name value 0 (before ++ chr c) s)
    end.
Proof. reflexivity. Qed.

Lemma replaceFrom_skip (f : Form) (name value : string) (a b : string) :
  forall before,
    replaceFrom f name value (String.length a) before (a ++ b)
    = replaceFrom f name value 0 (before ++ a) b.
Proof.
  induction a as [|c a IH]; intros before.
  - simpl. now rewrite str_app_nil_r.
  - simpl. rewrite IH. rewrite str_app_assoc. reflexivity.
Qed.

Lemma replaceFrom_hit (f : Form) (name value before s rest : string) :
  matchAt f name s = Some rest ->
  replaceFrom f name value 0 before s
  = getSubstitution (patternText f name) before rest value
    ++ replaceFrom f name value 0 (before ++ patternText f name) rest.
Proof.
  intros H. pose proof (matchAt_prefix _ _ _ _ H) as E.
  destruct (patternText_head f name) as [tail T].
  rewrite T in E. simpl in E. subst s.
  rewrite replaceFrom_unfold, H. f_equal.
  rewrite T.
  replace (String.length (String "$" tail) - 1) with (String.length tail)
    by (simpl; lia).
  rewrite replaceFrom_skip. rewrite str_app_assoc. reflexivity.
Qed.

Lemma replaceFrom_miss (f : Form) (name value before : string) (c : ascii) (s : string) :
  matchAt f name (String c s) = None ->
  replaceFrom f name value 0 before (String c s)
  = String c (replaceFrom f name value 0 (before ++ chr c) s).
Proof. intros H. now rewrite replaceFrom_unfold, H. Qed.

(** A value without a dollar sign is inserted as it is. *)
Lemma getSubstitution_plain (matched before after r : string) :
  indexOf "$" r = None -> getSubstitution matched before after r = r.
Proof.
  induction r as [|c r IH]; [reflexivity|].
  cbn [indexOf]. destruct (Ascii.eqb c "$") eqn:E; [discriminate|].
  intros H. cbn [getSubstitution]. rewrite E. f_equal. apply IH.
  destruct (indexOf "$" r); [discriminate | reflexivity].
Qed.

(** The scan of [replace] replaces every occurrence, from left to right, by
    the value, when the value holds no dollar sign. *)
Lemma replaceFrom_refines (f : Form) (name value : string) :
  indexOf "$" value = None ->
  forall s before,
    ReplacedEvery f name value s (replaceFrom f name value 0 before s).
Proof.
  intros V s. remember (String.length s) as n eqn:L.
  assert (B : String.length s <= n) by lia. clear L.
  revert s B. induction n as [|n IH]; intros s B before.
  - destruct s; [constructor | simpl in B; lia].
  - destruct s as [|c s]; [constructor|].
    destruct (matchAt f name (String c s)) as [rest|] eqn:M.
    + rewrite (replaceFrom_hit _ _ _ _ _ _ M), (getSubstitution_plain _ _ _ _ V).
      apply RE_hit with (rest := rest); [now apply matchAt_occursAt|].
      apply IH. pose proof (matchAt_prefix _ _ _ _ M) as E.
      destruct (patternText_head f name) as [tail T]. rewrite T in E.
      apply (f_equal String.length) in E. simpl in E, B.
      rewrite str_length_app in E. lia.
    + rewrite (replaceFrom_miss _ _ _ _ _ _ M).
      apply RE_skip.
      * intros rest O. apply matchAt_occursAt in O. congruence.
      * apply IH. simpl in B. lia.
Qed.

Lemma ReplacedEvery_deterministic (f : Form) (name value s out : string) :
  indexOf "$" value = None ->
  ReplacedEvery f name value s out ->
  forall before, out = replaceFrom f name value 0 before s.
Proof.
  intros V. induction 1 as [| s rest out O _ IH | c s out N _ IH]; intros before.
  - reflexivity.
  - apply matchAt_occursAt in O. rewrite (replaceFrom_hit _ _ _ _ _ _ O).
    rewrite (getSubstitution_plain _ _ _ _ V). now rewrite <- IH.
  - rewrite replaceFrom_miss; [now rewrite <- IH|].
    destruct (matchAt f name (String c s)) as [rest|] eqn:M; [|reflexivity].
    apply matchAt_occursAt in M. now elim (N rest).
Qed.

Lemma replacePass_refines (f : Form) (vars : Variables) :
  plainValues vars ->
  forall s, PassOver f vars s (replacePass f vars s).
Proof.
  induction 1 as [|[k v] vars V _ IH]; intros s.
  - constructor.
  - apply PO_cons with (s1 := replaceAll f k v s).
    + apply replaceFrom_refines. exact V.
    + apply IH.
Qed.

Lemma PassOver_deterministic (f : Form) (vars : Variables) (s out : string) :
  plainValues vars ->
  PassOver f vars s out -> out = replacePass f vars s.
Proof.
  intros V P. induction P as [s | k v rest s s1 s2 R _ IH].
  - reflexivity.
  - inversion V as [|? ? Vk Vrest]; subst. simpl in Vk.
    rewrite (ReplacedEvery_deterministic _ _ _ _ _ Vk R EmptyString) in IH.
    exact (IH Vrest).
Qed.

(** The two forms never compete for one place of a text: where the braced
    form of some variable occurs, no bare form of a plain name occurs. *)
Lemma braced_excludes_bare (name1 name2 s rest1 rest2 : string) :
  plainName name2 = true ->
  occursAt Braced name1 s rest1 ->
  occursAt Bare name2 s rest2 ->
  False.
Proof.
  intros P B [E W]. apply wordBoundary_spec in W.
  simpl in B. rewrite B in E. simpl in E.
  injection E as E. destruct name2 as [|c name2].
  - simpl in E. subst rest2. simpl in W. discriminate W.
  - simpl in E. injection E as <- _. simpl in P. discriminate P.
Qed.




(** The order of the passes is observable: a bare form inserted by the
    braced pass is substituted, a braced form inserted by the bare pass is
    not. *)
Example processVariables_braced_first :
  processVariables [("A", "$B"); ("B", "x")] "${A}" = "x"
  /\ processVariables [("A", "${B}"); ("B", "x")] "$A" = "${B}"
  /\ processVariables [("PROJECT_NAME", "niobium"); ("VERSION", "1.0.0")]
       "Building $PROJECT_NAME version ${VERSION} as $PROJECT_NAMEX"
     = "Building niobium version 1.0.0 as $PROJECT_NAMEX".
Proof. repeat split; vm_compute; reflexivity. Qed.

Lemma occursIn_false (f : Form) (name s : string) :
  occursIn f name s = false -> noOccurrence f name s.
Proof.
  induction s as [|c s IH]; intros H pre suf rest E O.
  - destruct pre; [|discriminate]. simpl in E. subst suf.
    apply matchAt_occursAt in O. simpl in H. rewrite O in H. discriminate.
  - cbn [occursIn] in H.
    destruct (matchAt f name (String c s)) as [r|] eqn:M; [discriminate|].
    destruct pre as [|a pre].
    + simpl in E. subst suf. apply matchAt_occursAt in O. congruence.
    + simpl in E. injection E as _ E. exact (IH H pre suf rest E O).
Qed.

Lemma replaceFrom_noOccurrence (f : Form) (name value s : string) :
  noOccurrence f name s ->
  forall before, replaceFrom f name value 0 before s = s.
Proof.
  induction s as [|c s IH]; intros N before; [reflexivity|].
  rewrite replaceFrom_miss.
  - f_equal. apply IH. intros pre suf rest E O.
    apply (N (String c pre) suf rest); [simpl; now rewrite E | exact O].
  - destruct (matchAt f name (String c s)) as [r|] eqn:M; [|reflexivity].
    apply matchAt_occursAt in M. now elim (N EmptyString (String c s) r).
Qed.

Lemma replacePass_noOccurrence (f : Form) (vars : Variables) (s : string) :
  (forall name value, In (name, value) vars -> noOccurrence f name s) ->
  replacePass f vars s = s.
Proof.
  induction vars as [|[k v] vars IH]; intros N; [reflexivity|].
  unfold replacePass. simpl. unfold replaceAll.
  rewrite replaceFrom_noOccurrence by (apply (N k v); now left).
  apply IH. intros name value I. apply (N name value). now right.
Qed.

(** C5, as the code has it.  For variables whose names are made of word
    characters: when the substituted text contains no remaining braced
    occurrence and no bare occurrence followed by a word boundary of any
    known variable, substituting it again changes nothing. *)
Theorem processVariables_idempotent
        (variables : Variables) (commandStr : string)
        (Hplain : plainVariables variables)
        (Hnone : forall name value,
            In (name, value) variables ->
            noOccurrence Braced name (processVariables variables commandStr)
            /\ noOccurrence Bare name (processVariables variables commandStr)) :
  processVariables variables (processVariables variables commandStr)
  = processVariables variables commandStr.
Proof.
  set (t := processVariables variables commandStr) in *.
  unfold processVariables at 1.
  rewrite (replacePass_noOccurrence Braced)
    by (intros name value I; apply (Hnone name value I)).
  apply replacePass_noOccurrence.
  intros name value I; apply (Hnone name value I).
Qed.

Lemma processVariables_idempotent_witness :
  processVariables [("A", "x"); ("B", "y z")]
    (processVariables [("A", "x"); ("B", "y z")] "${A} $B ${C} $AB")
  = processVariables [("A", "x"); ("B", "y z")] "${A} $B ${C} $AB".
Proof.
  apply (processVariables_idempotent [("A", "x"); ("B", "y z")] "${A} $B ${C} $AB").
  - repeat constructor.
  - intros name value [E | [E | []]]; injection E as <- <-;
      split; apply occursIn_false; vm_compute; reflexivity.
Defined.

(** C5 as stated fails for a name that is not made of word characters:
    the pattern built from the name [A.B] is not the literal text, its dot
    stands for any character.  The text [${A.B}] becomes [${AXB}x], which
    holds neither [${A.B}] nor [$A.B]; substituted again it becomes
    [${AXB}xx]. *)
Lemma processVariables_wildcard_name :
  General.processVariables referenceEngine [("A.B", "${AXB}x")] "${A.B}"
  = Ok "${AXB}x"
  /\ includes "${AXB}x" "${A.B}" = false
  /\ includes "${AXB}x" "$A.B" = false
  /\ General.processVariables referenceEngine [("A.B", "${AXB}x")] "${AXB}x"
     = Ok "${AXB}xx".
Proof. repeat split; vm_compute; reflexivity. Qed.

(** Without the assumption the second substitution can change the text: a
    value that mentions another variable is substituted again. *)
Example processVariables_not_idempotent :
  processVariables [("B", "x"); ("A", "${B}")] "${A}" = "${B}"
  /\ processVariables [("B", "x"); ("A", "${B}")] "${B}" = "x".
Proof. split; vm_compute; reflexivity. Qed.

(* ===================================================================== *)
(** ** extractOutputVariables                                              *)
(* ===================================================================== *)

Lemma stripPrefixCI_spec (p s rest : string) :
  stripPrefixCI p s = Some rest
  <-> exists text, s = text ++ rest /\ sameIgnoringCase p text = true.
Proof.
  revert s; induction p as [|a p IH]; intros s; simpl.
  - split.
    + intros H; injection H as ->. now exists EmptyString.
    + intros [text [E C]]. destruct text; [|discriminate]. now subst.
  - destruct s as [|b s].
    + split; [discriminate|]. intros [text [E C]].
      destruct text; [discriminate | simpl in E; discriminate].
    + destruct (Ascii.eqb (canonicalize a) (canonicalize b)) eqn:Q.
      * rewrite IH. split.
        -- intros [text [E C]]. exists (String b text). simpl. rewrite Q, C.
           now subst.
        -- intros [text [E C]]. destruct text as [|y text]; [discriminate|].
           simpl in E. injection E as -> E. apply andb_prop in C.
           exists text. now split.
      * split; [discriminate|]. intros [text [E C]].
        destruct text as [|y text]; [discriminate|].
        simpl in E. injection E as -> E. rewrite Q in C. discriminate.
Qed.

Lemma markerAt_stripPrefixCI (name s value : string) :
  markerAt name s value
  <-> exists rest, stripPrefixCI (setOutputMarker name) s = Some rest
                   /\ value = captureLine rest.
Proof.
  unfold markerAt. split.
  - intros [text [rest [E [C V]]]]. exists rest. split; [|exact V].
    apply stripPrefixCI_spec. now exists text.
  - intros [rest [P V]]. apply stripPrefixCI_spec in P as [text [E C]].
    now exists text, rest.
Qed.

(** [match] finds the first marker, ignoring case, and captures the rest of
    its line. *)
Lemma matchSetOutput_first (name s value : string) :
  matchSetOutput name s = Some value <-> FirstMarker name s value.
Proof.
  split.
  - revert value. induction s as [|c s IH]; intros value H.
    + simpl in H. discriminate.
    + cbn [matchSetOutput] in H.
      destruct (stripPrefixCI _ (String c s)) as [rest|] eqn:P.
      * injection H as <-. apply FM_here. apply markerAt_stripPrefixCI. eauto.
      * apply FM_later; [|now apply IH].
        intros v M. apply markerAt_stripPrefixCI in M as [rest [P' _]]. congruence.
  - induction 1 as [s value M | c s value N _ IH].
    + apply markerAt_stripPrefixCI in M as [rest [P ->]].
      destruct s; cbn [matchSetOutput]; now rewrite P.
    + cbn [matchSetOutput].
      destruct (stripPrefixCI _ (String c s)) as [rest|] eqn:P; [|exact IH].
      elim (N (captureLine rest)). apply markerAt_stripPrefixCI. eauto.
Qed.

(** The captured value stops before the first line terminator. *)
Lemma captureLine_spec (s : string) :
  exists tail,
    s = captureLine s ++ tail
    /\ (forall pre c post, captureLine s = pre ++ String c post ->
                           isLineTerminator c = false)
    /\ (tail = EmptyString
        \/ exists c tail', tail = String c tail' /\ isLineTerminator c = true).
Proof.
  induction s as [|a s [tail [E [N T]]]].
  - exists EmptyString. repeat split; auto.
    intros pre c post H. destruct pre; discriminate.
  - simpl. destruct (isLineTerminator a) eqn:L.
    + exists (String a s). repeat split; eauto.
      intros pre c post H. destruct pre; discriminate.
    + exists tail. repeat split; auto.
      * simpl. now rewrite <- E.
      * intros pre c post H. destruct pre as [|x pre]; simpl in H.
        -- injection H as <- _. exact L.
        -- injection H as _ H. exact (N pre c post H).
Qed.

Lemma extractOne_Some (name stdout : string) (call : string * string) :
  extractOne name stdout = Some call
  <-> exists m1, matchSetOutput name stdout = Some m1
                 /\ m1 <> EmptyString /\ call = (name, trim m1).
Proof.
  unfold extractOne. destruct (matchSetOutput name stdout) as [m1|].
  - destruct m1 as [|c m1]; simpl.
    + split; [discriminate|]. intros [m [E [N _]]]. injection E as <-. now elim N.
    + split.
      * intros H; injection H as <-. eexists. split; [reflexivity|].
        split; [discriminate | reflexivity].
      * intros [m [E [_ ->]]]. now injection E as <-.
  - split; [discriminate|]. intros [m [E _]]. discriminate.
Qed.

Lemma in_setVariableCalls (command : CommandConfig.t) (stdout : string)
      (names : list string) (call : string * string) :
  CommandConfig.outputs command = Some names ->
  (In call (setVariableCalls command stdout)
   <-> exists name, In name names /\ extractOne name stdout = Some call).
Proof.
  intros O. unfold setVariableCalls. rewrite O. rewrite in_flat_map.
  split; intros [name [I H]]; exists name; split; auto.
  - destruct (extractOne name stdout) as [c|]; simpl in H;
      [destruct H as [<-|[]]; reflexivity | contradiction].
  - rewrite H. now left.
Qed.

Lemma extractOne_name (name stdout : string) (call : string * string) :
  extractOne name stdout = Some call -> fst call = name.
Proof. intros H. apply extractOne_Some in H as [m [_ [_ ->]]]. reflexivity. Qed.

Lemma setVariableCalls_NoDup (command : CommandConfig.t) (stdout : string)
      (names : list string) :
  CommandConfig.outputs command = Some names ->
  NoDup names ->
  NoDup (map fst (setVariableCalls command stdout)).
Proof.
  intros O. unfold setVariableCalls. rewrite O. clear O.
  induction 1 as [|n names NI ND IH]; simpl; [constructor|].
  rewrite map_app. destruct (extractOne n stdout) as [c|] eqn:E; simpl; [|exact IH].
  rewrite (extractOne_name _ _ _ E). constructor; [|exact IH].
  intros I. apply in_map_iff in I as [c' [F I]].
  apply in_flat_map in I as [n' [I' H]].
  destruct (extractOne n' stdout) as [c''|] eqn:E'; simpl in H; [|contradiction].
  destruct H as [<-|[]]. rewrite (extractOne_name _ _ _ E') in F. now subst n'.
Qed.

Lemma getVariable_setVariable_same (name value : string) (vars : Variables) :
  getVariable name (setVariable name value vars) = Some value.
Proof.
  induction vars as [|[k v] vars IH]; simpl.
  - now rewrite String.eqb_refl.
  - destruct (String.eqb k name) eqn:E; simpl; rewrite E; [reflexivity | exact IH].
Qed.

Lemma getVariable_setVariable_other (name other value : string) (vars : Variables) :
  other <> name ->
  getVariable other (setVariable name value vars) = getVariable other vars.
Proof.
  intros N. induction vars as [|[k v] vars IH]; simpl.
  - destruct (String.eqb name other) eqn:E; [|reflexivity].
    apply String.eqb_eq in E. now elim N.
  - destruct (String.eqb k name) eqn:E; simpl.
    + apply String.eqb_eq in E. subst k.
      destruct (String.eqb name other) eqn:E'; [|reflexivity].
      apply String.eqb_eq in E'. now elim N.
    + now rewrite IH.
Qed.

Lemma setVariable_keys (name value k : string) (vars : Variables) :
  In k (map fst (setVariable name value vars)) <-> k = name \/ In k (map fst vars).
Proof.
  induction vars as [|[k' v] vars IH]; simpl.
  - intuition.
  - destruct (String.eqb k' name) eqn:E; simpl.
    + apply String.eqb_eq in E. subst k'. intuition.
    + rewrite IH. intuition.
Qed.

Lemma setVariable_NoDup (name value : string) (vars : Variables) :
  NoDup (map fst vars) -> NoDup (map fst (setVariable name value vars)).
Proof.
  induction vars as [|[k v] vars IH]; simpl; intros ND.
  - constructor; [intros [] | constructor].
  - inversion ND as [|? ? NI ND']; subst.
    destruct (String.eqb k name) eqn:E; simpl.
    + now constructor.
    + constructor; [|now apply IH].
      rewrite setVariable_keys. intros [->|I]; [|contradiction].
      now rewrite String.eqb_refl in E.
Qed.

Lemma fold_setVariable_NoDup (calls : list (string * string)) :
  forall vars, NoDup (map fst vars) ->
    NoDup (map fst (fold_left (fun vs call => setVariable (fst call) (snd call) vs)
                              calls vars)).
Proof.
  induction calls as [|c calls IH]; intros vars ND; simpl; [exact ND|].
  apply IH. now apply setVariable_NoDup.
Qed.

Lemma fold_setVariable_other (calls : list (string * string)) (name : string) :
  ~ In name (map fst calls) ->
  forall vars,
    getVariable name (fold_left (fun vs call => setVariable (fst call) (snd call) vs)
                                calls vars)
    = getVariable name vars.
Proof.
  induction calls as [|c calls IH]; intros NI vars; simpl; [reflexivity|].
  simpl in NI. rewrite IH by tauto.
  apply getVariable_setVariable_other. intros E. apply NI. now left.
Qed.

Lemma fold_setVariable_called (calls : list (string * string)) (name value : string) :
  NoDup (map fst calls) ->
  In (name, value) calls ->
  forall vars,
    getVariable name (fold_left (fun vs call => setVariable (fst call) (snd call) vs)
                                calls vars)
    = Some value.
Proof.
  induction calls as [|c calls IH]; intros ND I vars; [contradiction|].
  simpl in ND. inversion ND as [|? ? NI ND']; subst. simpl.
  destruct I as [->|I].
  - simpl. rewrite fold_setVariable_other by exact NI.
    apply getVariable_setVariable_same.
  - now apply IH.
Qed.

(** C3, as the code has it.  For a command with declared output names
    (plain, distinct): [setVariable] is called only for declared names, at
    most once per name, and exactly for the names whose first marker in
    stdout, found ignoring case, carries a non-empty value; the call passes
    that value trimmed, and afterwards the store holds it under the name,
    once; every other name keeps what it held, and so does a name whose
    first marker carries an empty value. *)
Theorem extractOutputVariables_calls
        (command : CommandConfig.t) (stdout : string) (vars : Variables)
        (names : list string)
        (Houtputs : CommandConfig.outputs command = Some names)
        (Hplain : Forall (fun n => plainName n = true) names)
        (Hdistinct : NoDup names)
        (Hkeys : NoDup (map fst vars)) :
  (forall name value,
      In (name, value) (setVariableCalls command stdout) ->
      In name names
      /\ exists m1, FirstMarker name stdout m1 /\ m1 <> EmptyString /\ value = trim m1)
  /\ (forall name m1,
         In name names -> FirstMarker name stdout m1 -> m1 <> EmptyString ->
         In (name, trim m1) (setVariableCalls command stdout)
         /\ getVariable name (extractOutputVariables command stdout vars)
            = Some (trim m1))
  /\ NoDup (map fst (setVariableCalls command stdout))
  /\ NoDup (map fst (extractOutputVariables command stdout vars))
  /\ (forall name,
         ~ In name (map fst (setVariableCalls command stdout)) ->
         getVariable name (extractOutputVariables command stdout vars)
         = getVariable name vars)
  /\ (forall name,
         FirstMarker name stdout EmptyString ->
         getVariable name (extractOutputVariables command stdout vars)
         = getVariable name vars).
Proof.
  pose proof (setVariableCalls_NoDup command stdout names Houtputs Hdistinct) as ND.
  assert (Other : forall name,
             ~ In name (map fst (setVariableCalls command stdout)) ->
             getVariable name (extractOutputVariables command stdout vars)
             = getVariable name vars).
  { intros name NI. unfold extractOutputVariables. now apply fold_setVariable_other. }
  split; [|split; [|split; [|split; [|split]]]].
  - intros name value H.
    apply (in_setVariableCalls _ _ _ _ Houtputs) in H as [n [I E]].
    pose proof (extractOne_name _ _ _ E) as F. simpl in F. subst n.
    split; [exact I|].
    apply extractOne_Some in E as [m1 [M [N C]]]. injection C as ->.
    exists m1. split; [now apply matchSetOutput_first|]. now split.
  - intros name m1 I M N.
    assert (C : In (name, trim m1) (setVariableCalls command stdout)).
    { apply (in_setVariableCalls _ _ _ _ Houtputs). exists name. split; [exact I|].
      apply extractOne_Some. exists m1. split; [now apply matchSetOutput_first|].
      now split. }
    split; [exact C|].
    unfold extractOutputVariables. now apply fold_setVariable_called.
  - exact ND.
  - unfold extractOutputVariables. now apply fold_setVariable_NoDup.
  - exact Other.
  - intros name M. apply Other. intros I.
    apply in_map_iff in I as [[n v] [F I]]. simpl in F. subst n.
    apply (in_setVariableCalls _ _ _ _ Houtputs) in I as [n [_ E]].
    pose proof (extractOne_name _ _ _ E) as F. simpl in F. subst n.
    apply extractOne_Some in E as [m1 [M1 [N _]]].
    apply matchSetOutput_first in M. congruence.
Qed.

Lemma extractOutputVariables_calls_witness :
  In ("BUILD_ID", "2024 x")
     (setVariableCalls
        (CommandConfig.mk "generate-build-id" "date" None None [] false DepUndefined
                          (Some ["BUILD_ID"; "OTHER"]) None)
        ("start" ++ lf ++ "::Set-Output NAME=build_id::  2024 x  " ++ lf ++ "end"))
  /\ getVariable "BUILD_ID"
       (extractOutputVariables
          (CommandConfig.mk "generate-build-id" "date" None None [] false DepUndefined
                            (Some ["BUILD_ID"; "OTHER"]) None)
          ("start" ++ lf ++ "::Set-Output NAME=build_id::  2024 x  " ++ lf ++ "end")
          [("BUILD_ID", "old")])
     = Some "2024 x".
Proof.
  destruct (extractOutputVariables_calls
              (CommandConfig.mk "generate-build-id" "date" None None [] false DepUndefined
                                (Some ["BUILD_ID"; "OTHER"]) None)
              ("start" ++ lf ++ "::Set-Output NAME=build_id::  2024 x  " ++ lf ++ "end")
              [("BUILD_ID", "old")] ["BUILD_ID"; "OTHER"]) as [_ [H _]].
  - reflexivity.
  - repeat constructor.
  - repeat constructor; simpl; intuition discriminate.
  - repeat constructor; simpl; intuition.
  - apply (H "BUILD_ID" "  2024 x  ").
    + now left.
    + apply matchSetOutput_first. vm_compute. reflexivity.
    + discriminate.
Defined.

(** C3 as stated fails on a marker with an empty value: the regular
    expression matches, [setVariable] is not called, and the variable keeps
    its old value. *)
Lemma extractOutputVariables_empty_value :
  matchSetOutput "BUILD_ID" ("::set-output name=BUILD_ID::" ++ lf ++ "done")
  = Some EmptyString
  /\ setVariableCalls
       (CommandConfig.mk "generate-build-id" "date" None None [] false DepUndefined
                         (Some ["BUILD_ID"]) None)
       ("::set-output name=BUILD_ID::" ++ lf ++ "done")
     = []
  /\ getVariable "BUILD_ID"
       (extractOutputVariables
          (CommandConfig.mk "generate-build-id" "date" None None [] false DepUndefined
                            (Some ["BUILD_ID"]) None)
          ("::set-output name=BUILD_ID::" ++ lf ++ "done")
          [("BUILD_ID", "old")])
     = Some "old".
Proof. repeat split; vm_compute; reflexivity. Qed.

(** A value made of white space only is not empty: the variable is set to
    the empty string. *)
Example extractOutputVariables_blank_value :
  setVariableCalls
    (CommandConfig.mk "t" "c" None None [] false DepUndefined (Some ["X"]) None)
    ("::set-output name=X::   " ++ lf)
  = [("X", EmptyString)].
Proof. vm_compute. reflexivity. Qed.

(* ===================================================================== *)
(** ** saveOutputToFile                                                    *)
(* ===================================================================== *)

Lemma afterLastSlash_no_slash (s : string) : indexOf "/" (afterLastSlash s) = None.
Proof.
  induction s as [|a s IH]; [reflexivity|].
  cbn [afterLastSlash]. destruct (indexOf "/" (String a s)) eqn:E; [exact IH | exact E].
Qed.

(** The base name has no directory component. *)
Lemma basename_no_separator (path : string) : indexOf "/" (basename path) = None.
Proof. apply afterLastSlash_no_slash. Qed.

(** What [stripTrailingPeriods] removes is a run of periods, and all of
    it. *)
Lemma dropTrailing_spec (c : ascii) (s : string) :
  exists n,
    s = dropTrailing c s ++ string_of_list_ascii (repeat c n)
    /\ (lastChar (dropTrailing c s) = Some c -> False).
Proof.
  induction s as [|a s [n [E L]]].
  - exists 0. split; [reflexivity | discriminate].
  - cbn [dropTrailing]. destruct (dropTrailing c s) as [|b t] eqn:D.
    + destruct (Ascii.eqb a c) eqn:Q.
      * apply Ascii.eqb_eq in Q. subst a. exists (S n). split; [|discriminate].
        simpl. simpl in E. now rewrite <- E.
      * exists n. split.
        -- simpl. simpl in E. now rewrite <- E.
        -- simpl. intros H. injection H as ->. now rewrite Ascii.eqb_refl in Q.
    + exists n. split.
      * simpl. simpl in E. now rewrite <- E.
      * exact L.
Qed.

Lemma outputFilenameOf_configured (vars : Variables) (command : CommandConfig.t)
      (f : string) :
  CommandConfig.output_file command = Some f ->
  outputFilenameOf vars command None = processVariables vars f.
Proof. intros H. unfold outputFilenameOf. now rewrite H. Qed.



Lemma findEndPos_other (startChar : option ascii) (s : string) :
  isChar startChar "{" = false -> isChar startChar "[" = false ->
  forall i depth, findEndPos startChar s i depth = (-1)%Z.
Proof.
  intros B K. induction s as [|c s IH]; intros i depth; [reflexivity|].
  cbn [findEndPos]. rewrite B, K, !andb_false_r. simpl. apply IH.
Qed.

(** When the output has no opening brace, the scan starts at index 0
    whatever stands there: [jsonStart] is [Math.max(0, -1)], never [-1]. *)
Lemma jsonStartPos_without_brace (output : string) :
  indexOf "{" output = None -> jsonStartPos output = 0%Z.
Proof.
  intros H. unfold jsonStartPos, indexOfZ. rewrite H.
  change (Z.max 0 (-1)) with 0%Z.
  destruct (indexOf "[" output) as [n|]; [|reflexivity].
  replace (Z.of_nat n <? 0)%Z with false by (symmetry; apply Z.ltb_ge; lia).
  destruct (negb (Z.of_nat n =? -1)%Z); reflexivity.
Qed.

(** An array that follows other text, in an output without braces, is never
    extracted. *)
Lemma jsonContent_array_after_text (output : string) (n : nat) :
  indexOf "{" output = None ->
  indexOf "[" output = Some (S n) ->
  jsonContent output = None.
Proof.
  intros B K. unfold jsonContent. rewrite (jsonStartPos_without_brace _ B).
  cbn [Z.eqb negb]. rewrite findEndPos_other; [reflexivity| |].
  - destruct output as [|c s]; [reflexivity|]. simpl in B |- *.
    destruct (Ascii.eqb c "{"); [discriminate | reflexivity].
  - destruct output as [|c s]; [reflexivity|]. simpl in K |- *.
    destruct (Ascii.eqb c "["); [discriminate | reflexivity].
Qed.

(** The JSON branch, when nothing is ignored and no file system call
    throws: the file holds the formatted text when the extracted span
    parses, the raw output otherwise. *)
Lemma saveOutputToFile_json
      (J : Type) (E : Env J) (vars : Variables) (command : CommandConfig.t)
      (output workspaceRoot : string) (fs : FileSystem) (f : string) :
  CommandConfig.output_file command = Some f ->
  f <> EmptyString ->
  (forall p, isIgnored E p = false) ->
  (forall op, fs_throws E op = false) ->
  endsWith (basename (stripTrailingPeriods (processVariables vars f))) ".json" = true ->
  readFile (outputFilePathOf E vars command workspaceRoot None)
           (saveOutputToFile E vars command output workspaceRoot None fs)
  = Some (match formattedJson E output with
          | Some text => text
          | None => output
          end).
Proof.
  intros Hf Hne Hig Hth Hjson.
  unfold saveOutputToFile, outputFilePathOf, shouldIgnorePath, mkdirSync, writeFileSync.
  rewrite (outputFilenameOf_configured _ _ _ Hf), Hf.
  assert (T : truthy (Some f) = true) by (destruct f; [now elim Hne | reflexivity]).
  rewrite T, Hjson, !Hig, !Hth. simpl.
  destruct (fs_existsSync E fs (resultsDirOf E workspaceRoot)); simpl;
    destruct (formattedJson E output); unfold readFile; simpl;
    now rewrite String.eqb_refl.
Qed.

(** C6, the general statement at an input where it fails: the captured text
    [Result: [1,2]] contains the balanced span [[1,2]], which is valid JSON,
    yet the file holds the raw text and not the formatted array. *)
Theorem saveOutputToFile_array_after_text :
  jsonContent "Result: [1,2]" = None
  /\ option_map stringifyJson (parseJson "[1,2]")
     = Some ("[" ++ lf ++ "  1," ++ lf ++ "  2" ++ lf ++ "]")
  /\ files (saveOutputToFile (referenceEnv (fun _ => ProcError "none" None) false) []
              (CommandConfig.mk "report" "report" None None [] false DepUndefined None
                                (Some "report.json"))
              "Result: [1,2]" "/ws" None (mkFs [] []))
     = [("/ws/.niobium_results/report.json", "Result: [1,2]")].
Proof. repeat split; vm_compute; reflexivity. Qed.

(** The example of the specification: the object is extracted from the log
    text around it and written formatted. *)
Example saveOutputToFile_object_in_log :
  files (saveOutputToFile (referenceEnv (fun _ => ProcError "none" None) false) []
           (CommandConfig.mk "report" "report" None None [] false DepUndefined None
                             (Some "report.json"))
           ("Log: ok {" ++ dq ++ "a" ++ dq ++ ":1," ++ dq ++ "b" ++ dq ++ ":[2,3]} trailing")
           "/ws" None (mkFs [] []))
  = [("/ws/.niobium_results/report.json",
      "{" ++ lf
      ++ "  " ++ dq ++ "a" ++ dq ++ ": 1," ++ lf
      ++ "  " ++ dq ++ "b" ++ dq ++ ": [" ++ lf
      ++ "    2," ++ lf
      ++ "    3" ++ lf
      ++ "  ]" ++ lf
      ++ "}")].
Proof. vm_compute. reflexivity. Qed.

(** An array at the very start of the output, or before the first brace, is
    extracted. *)
Example jsonContent_array_first :
  jsonContent "[1,2] done" = Some "[1,2]"
  /\ jsonContent "x [1,{}] y" = Some "[1,{}]".
Proof. split; vm_compute; reflexivity. Qed.

(* ===================================================================== *)
(** ** runCommand                                                          *)
(* ===================================================================== *)

Lemma exitCodeOf_number (n : Z) :
  n <> 0%Z -> exitCodeOf (Some (NumberCode n)) = NumberCode n.
Proof. intros H. destruct n; [now elim H | reflexivity | reflexivity]. Qed.

Lemma orElse_Some (s d : string) :
  orElse (Some s) d = if nonEmpty s then s else d.
Proof. destruct s; reflexivity. Qed.

Lemma commandFailed_exit (J : Type) (E : Env J) (X : RegExpEngine)
      (command : CommandConfig.t) (workspaceRoot : string) (st : RunnerState)
      (code : option Z) (stdout stderr : string) :
  code <> Some 0%Z ->
  fst (commandFailed E X command workspaceRoot
         (mkError ("Error: Command failed with exit code " ++ stringOfCode code)
                  (option_map NumberCode code) (Some stdout) (Some stderr)) st)
  = Returned (resultOfExit code stdout stderr).
Proof.
  intros N. unfold commandFailed. cbn [fst err_code err_stderr err_stdout err_text].
  rewrite !orElse_Some.
  replace (if nonEmpty stdout then stdout else EmptyString) with stdout
    by (destruct stdout; reflexivity).
  destruct code as [[|n|n]|]; [now elim N | reflexivity | reflexivity | reflexivity].
Qed.

(** On names made of word characters the functions for any names are the
    functions above, and nothing is thrown. *)
Lemma replaceBy_plain (X : RegExpEngine) (f : Form) (name value s : string) :
  plainName name = true ->
  General.replaceBy X f name value s = Ok (replaceAll f name value s).
Proof. intros P. unfold General.replaceBy. now rewrite P. Qed.

Lemma replacePass_plain (X : RegExpEngine) (f : Form) (vars : Variables) :
  plainVariables vars ->
  forall s, General.replacePass X f vars s = Ok (replacePass f vars s).
Proof.
  induction 1 as [|[k v] vars Pk _ IH]; intros s; [reflexivity|].
  cbn [General.replacePass]. rewrite (replaceBy_plain X f k v s Pk). apply IH.
Qed.

Lemma processVariables_plain (X : RegExpEngine) (vars : Variables) (s : string) :
  plainVariables vars ->
  General.processVariables X vars s = Ok (processVariables vars s).
Proof.
  intros P. unfold General.processVariables, processVariables.
  rewrite (replacePass_plain X Braced vars P). apply (replacePass_plain X Bare vars P).
Qed.

Lemma extractLoop_plain (X : RegExpEngine) (stdout : string) (names : list string) :
  Forall (fun n => plainName n = true) names ->
  forall vars,
    General.extractLoop X names stdout vars
    = (fold_left (fun vs call => setVariable (fst call) (snd call) vs)
                 (flat_map (fun outputName =>
                              match extractOne outputName stdout with
                              | Some call => [call]
                              | None => []
                              end) names)
                 vars,
       None).
Proof.
  induction 1 as [|n names Pn _ IH]; intros vars; [reflexivity|].
  cbn [General.extractLoop flat_map]. unfold General.matchMarker. rewrite Pn.
  rewrite fold_left_app, IH. unfold extractOne.
  destruct (matchSetOutput n stdout) as [m1|]; [|reflexivity].
  destruct (nonEmpty m1); reflexivity.
Qed.

Lemma extractOutputVariables_plain (X : RegExpEngine) (command : CommandConfig.t)
      (stdout : string) (vars : Variables) :
  (forall names, CommandConfig.outputs command = Some names ->
                 Forall (fun n => plainName n = true) names) ->
  General.extractOutputVariables X command stdout vars
  = (extractOutputVariables command stdout vars, None).
Proof.
  intros P. unfold General.extractOutputVariables, extractOutputVariables, setVariableCalls.
  destruct (CommandConfig.outputs command) as [names|]; [|reflexivity].
  apply extractLoop_plain. now apply P.
Qed.

Lemma saveOutputToFile_plain (J : Type) (X : RegExpEngine) (E : Env J)
      (vars : Variables) (command : CommandConfig.t) (output workspaceRoot : string)
      (alternativeFilename : option string) (fs : FileSystem) :
  plainVariables vars ->
  General.saveOutputToFile X E vars command output workspaceRoot alternativeFilename fs
  = saveOutputToFile E vars command output workspaceRoot alternativeFilename fs.
Proof.
  intros P. unfold General.saveOutputToFile, saveOutputToFile, outputFilenameOf.
  rewrite (processVariables_plain X vars _ P).
  destruct (truthy alternativeFilename); reflexivity.
Qed.

Lemma plainVariables_accepted (X : RegExpEngine) (vars : Variables) :
  plainVariables vars -> patternsAccepted X vars.
Proof.
  intros P name value f I. left.
  unfold plainVariables in P. rewrite Forall_forall in P. exact (P _ I).
Qed.

Lemma replacePass_accepted (X : RegExpEngine) (f : Form) (vars : Variables) :
  (forall name value, In (name, value) vars ->
                      plainName name = true
                      \/ regExp_rejects X (General.patternSource f name) = None) ->
  forall s, exists out, General.replacePass X f vars s = Ok out.
Proof.
  induction vars as [|[k v] vars IH]; intros A s; [now exists s|].
  cbn [General.replacePass]. unfold General.replaceBy.
  assert (A' : forall name value, In (name, value) vars ->
                 plainName name = true
                 \/ regExp_rejects X (General.patternSource f name) = None).
  { intros name value I. apply (A name value). now right. }
  destruct (plainName k) eqn:P; [apply (IH A')|].
  destruct (A k v (or_introl eq_refl)) as [Q|Q]; [congruence|].
  rewrite Q. apply (IH A').
Qed.

Lemma processVariables_accepted (X : RegExpEngine) (vars : Variables) (s : string) :
  patternsAccepted X vars ->
  exists out, General.processVariables X vars s = Ok out.
Proof.
  intros A. unfold General.processVariables.
  destruct (replacePass_accepted X Braced vars (fun n v I => A n v Braced I) s)
    as [s1 ->].
  apply (replacePass_accepted X Bare vars (fun n v I => A n v Bare I)).
Qed.

Lemma processEnv_accepted (X : RegExpEngine) (vars : Variables)
      (env : list (string * string)) :
  patternsAccepted X vars ->
  exists out, processEnv X vars env = Ok out.
Proof.
  intros A. induction env as [|[k v] env [rest IH]]; [now exists []|].
  cbn [processEnv]. destruct (processVariables_accepted X vars v A) as [v' ->].
  rewrite IH. eauto.
Qed.

Lemma spawnRequestOf_accepted (J : Type) (E : Env J) (X : RegExpEngine)
      (command : CommandConfig.t) (workspaceRoot : string) (st : RunnerState) :
  patternsAccepted X (variables st) ->
  exists request, spawnRequestOf E X command workspaceRoot st = Ok request.
Proof.
  intros A. unfold spawnRequestOf.
  destruct (processVariables_accepted X (variables st) (CommandConfig.command command) A)
    as [c ->].
  destruct (processEnv_accepted X (variables st) (CommandConfig.env command) A)
    as [env ->].
  eauto.
Qed.




(* ===================================================================== *)
(** ** killProcessAndChildren                                              *)
(* ===================================================================== *)

Lemma existsb_Zeqb (x : Z) (l : list Z) : existsb (Z.eqb x) l = true <-> In x l.
Proof.
  rewrite existsb_exists. split.
  - intros [y [I E]]. apply Z.eqb_eq in E. now subst.
  - intros I. exists x. split; [exact I | apply Z.eqb_refl].
Qed.

Lemma setAdd_NoDup (x : Z) (l : list Z) : NoDup l -> NoDup (setAdd x l).
Proof.
  intros ND. unfold setAdd. destruct (existsb (Z.eqb x) l) eqn:E; [exact ND|].
  apply NoDup_app; [exact ND | repeat constructor; intros [] |].
  intros y I [<-|[]]. apply existsb_Zeqb in I. congruence.
Qed.

Lemma setAdd_incl (x : Z) (l : list Z) : incl l (setAdd x l).
Proof.
  unfold setAdd. destruct (existsb (Z.eqb x) l); [apply incl_refl|].
  apply incl_appl, incl_refl.
Qed.

Lemma setAdd_In (x : Z) (l : list Z) : In x (setAdd x l).
Proof.
  unfold setAdd. destruct (existsb (Z.eqb x) l) eqn:E.
  - now apply existsb_Zeqb.
  - apply in_or_app. right. now left.
Qed.

Lemma setAddAll_NoDup (xs l : list Z) : NoDup l -> NoDup (setAddAll xs l).
Proof.
  revert l. induction xs as [|x xs IH]; intros l ND; [exact ND|].
  apply IH. now apply setAdd_NoDup.
Qed.

Lemma setAddAll_incl (xs l : list Z) : incl l (setAddAll xs l).
Proof.
  revert l. induction xs as [|x xs IH]; intros l; [apply incl_refl|].
  eapply incl_tran; [apply setAdd_incl | apply IH].
Qed.

Lemma setAddAll_added (xs l : list Z) : incl xs (setAddAll xs l).
Proof.
  revert l. induction xs as [|x xs IH]; intros l y I; [contradiction|].
  destruct I as [<-|I].
  - apply (setAddAll_incl xs (setAdd x l)). apply setAdd_In.
  - now apply IH.
Qed.

Lemma extends_setAdd (base pids : list Z) (x : Z) :
  extends base pids -> extends base (setAdd x pids).
Proof.
  intros [ND I]. split; [now apply setAdd_NoDup|].
  eapply incl_tran; [exact I | apply setAdd_incl].
Qed.

Lemma extends_setAddAll (base pids xs : list Z) :
  extends base pids -> extends base (setAddAll xs pids).
Proof.
  intros [ND I]. split; [now apply setAddAll_NoDup|].
  eapply incl_tran; [exact I | apply setAddAll_incl].
Qed.

(** Looking for children never throws past its [try] and sends nothing. *)
Lemma addChildren_ok {S} (os : Os S) (pid : Z) (base allPids : list Z) (k : KillState S) :
  extends base allPids ->
  exists k' pids,
    addChildren os pid allPids k = (k', Ok pids)
    /\ kill_actions k' = kill_actions k
    /\ extends base pids.
Proof.
  intros X. unfold addChildren, bind, tryCatch, findChildren, ret.
  destruct (findChildProcesses os (kill_os k) pid) as [s1 [more|e]]; simpl.
  - eexists _, _. split; [reflexivity|]. split; [reflexivity|].
    apply (extends_setAddAll _ _ _ X).
  - eexists _, _. split; [reflexivity|]. split; [reflexivity | exact X].
Qed.

Lemma addPortOwners_ok {S} (os : Os S) (portInfo : list (Z * Z)) (base : list Z) :
  forall (allPids : list Z) (k : KillState S),
    extends base allPids ->
    exists k' pids,
      addPortOwners os portInfo allPids k = (k', Ok pids)
      /\ kill_actions k' = kill_actions k
      /\ extends base pids.
Proof.
  induction portInfo as [|info rest IH]; intros allPids k X.
  - exists k, allPids. split; [reflexivity|]. split; [reflexivity | exact X].
  - cbn [addPortOwners].
    destruct (negb (snd info =? 0)%Z && negb (existsb (Z.eqb (snd info)) allPids)).
    + destruct (addChildren_ok os (snd info) base (setAdd (snd info) allPids) k)
        as [k1 [pids1 [E1 [A1 X1]]]]; [now apply extends_setAdd|].
      destruct (IH pids1 k1 X1) as [k2 [pids2 [E2 [A2 X2]]]].
      exists k2, pids2. unfold bind. rewrite E1, E2.
      split; [reflexivity|]. split; [congruence | exact X2].
    + apply IH, X.
Qed.

Lemma targetPids_ok {S} (os : Os S) (pid : Z) (command : CommandConfig.t)
      (detectedPorts childPids : list Z) (k : KillState S) :
  exists k' pids,
    targetPids os pid command detectedPorts childPids k = (k', Ok pids)
    /\ kill_actions k' = kill_actions k
    /\ extends (pid :: childPids) pids.
Proof.
  unfold targetPids.
  assert (X0 : extends (pid :: childPids) (setAddAll (pid :: childPids) [])).
  { split; [apply setAddAll_NoDup; constructor | apply setAddAll_added]. }
  destruct (addChildren_ok os pid _ _ k X0) as [k1 [pids1 [E1 [A1 X1]]]].
  unfold bind at 1. rewrite E1.
  destruct (Nat.ltb 0 (length (criticalPortsOf command detectedPorts))).
  - unfold tryCatch, bind, portsInUse.
    destruct (checkPortsInUse os (kill_os k1) (criticalPortsOf command detectedPorts))
      as [s2 [portInfo|e]]; simpl.
    + destruct (addPortOwners_ok os portInfo _ pids1 (mkKill s2 (kill_actions k1)) X1)
        as [k3 [pids3 [E3 [A3 X3]]]].
      rewrite E3. exists k3, pids3. split; [reflexivity|].
      split; [rewrite A3; exact A1 | exact X3].
    + eexists _, _. split; [reflexivity|]. split; [exact A1 | exact X1].
  - exists k1, pids1. split; [reflexivity|]. split; [exact A1 | exact X1].
Qed.

(** A loop of attempts sends every request of the list, in order, and ends
    normally whatever the requests throw. *)
Lemma forEach_attempt {S A} (os : Os S) (act : A -> KillAction) (xs : list A) :
  forall k : KillState S,
    exists k',
      forEach (fun x => attempt os (act x)) xs k = (k', Ok tt)
      /\ kill_actions k' = (kill_actions k ++ map act xs)%list.
Proof.
  induction xs as [|x xs IH]; intros k.
  - exists k. split; [reflexivity | now rewrite app_nil_r].
  - cbn [forEach]. unfold bind, attempt at 1, tryCatch, request.
    destruct (perform os (kill_os k) (act x)) as [s1 r].
    destruct (IH (mkKill s1 (kill_actions k ++ [act x])%list)) as [k' [E A']].
    exists k'. split.
    + destruct r; exact E.
    + rewrite A'. simpl. now rewrite <- app_assoc.
Qed.



(** The requests of that run: the port owner 200, never seen as a child, is
    signalled too, and the SIGKILL requests are all sent although each one
    throws. *)
Example killProcessAndChildren_requests :
  kill_actions
    (fst (killProcessAndChildren exampleOs Linux (Some 100%Z)
            (CommandConfig.mk "serve" "npm run dev" None None [] false DepUndefined
                              None None)
            [8080%Z] [101%Z] (mkKill tt [])))
  = [ActProcessKill 100 SIGTERM; ActProcessKill 101 SIGTERM;
     ActProcessKill 102 SIGTERM; ActProcessKill 200 SIGTERM;
     ActSleep 500;
     ActProcessKill 100 SIGKILL; ActProcessKill 101 SIGKILL;
     ActProcessKill 102 SIGKILL; ActProcessKill 200 SIGKILL;
     ActLsofKill 8080; ActPkillNode "dev";
     ActLsofForceKill 8080; ActLsofForceKill 5173].
Proof. vm_compute. reflexivity. Qed.

(* ===================================================================== *)
(** ** Traces of a stage run                                               *)
(* ===================================================================== *)

Lemma split_cons {A} (x e : A) (l pre post : list A) :
  (pre ++ e :: post)%list = x :: l ->
  (pre = [] /\ e = x /\ post = l)
  \/ (exists pre', pre = x :: pre' /\ (pre' ++ e :: post)%list = l).
Proof.
  destruct pre as [|y pre]; simpl; intros H; injection H as H1 H2.
  - left. now subst.
  - right. exists pre. now subst.
Qed.

Lemma TraceOk_check (pre : list StageEvent) :
  forall executed previous command snapshot satisfied post,
    TraceOk executed previous (pre ++ EvCheckDeps command snapshot satisfied :: post) ->
    snapshot = (executed ++ pushedNames pre)%list
    /\ satisfied = areDependenciesSatisfied command snapshot.
Proof.
  induction pre as [|e pre IH]; intros executed previous command snapshot satisfied post H.
  - simpl in H. destruct H as [-> [-> _]]. simpl. now rewrite app_nil_r.
  - destruct e; simpl in H.
    + destruct H as [_ [_ H]]. exact (IH _ _ _ _ _ _ H).
    + destruct H as [_ H]. exact (IH _ _ _ _ _ _ H).
    + destruct H as [_ H]. exact (IH _ _ _ _ _ _ H).
    + destruct H as [_ H]. apply IH in H. simpl. now rewrite <- app_assoc in H.
    + destruct H as [_ H]. exact (IH _ _ _ _ _ _ H).
Qed.

Lemma TraceOk_tail (e : StageEvent) (rest : list StageEvent)
      (executed : list string) (previous : option StageEvent) :
  TraceOk executed previous (e :: rest) ->
  exists executed', TraceOk executed' (Some e) rest.
Proof.
  destruct e; simpl; intros H.
  - destruct H as [_ [_ H]]. eauto.
  - destruct H as [_ H]. eauto.
  - destruct H as [_ H]. eauto.
  - destruct H as [_ H]. eauto.
  - destruct H as [_ H]. eauto.
Qed.

Lemma TraceOk_start (pre : list StageEvent) :
  forall executed previous command post,
    TraceOk executed previous (pre ++ EvStart command :: post) ->
    (pre = [] /\ exists snapshot, previous = Some (EvCheckDeps command snapshot true))
    \/ (exists pre' snapshot,
           pre = (pre' ++ [EvCheckDeps command snapshot true])%list).
Proof.
  induction pre as [|e pre IH]; intros executed previous command post H.
  - left. simpl in H. destruct H as [X _]. now split.
  - right. simpl in H. apply TraceOk_tail in H as [executed' H].
    destruct (IH _ _ _ _ H) as [[-> [snapshot X]] | [pre' [snapshot ->]]].
    + injection X as ->. now exists [], snapshot.
    + now exists (e :: pre'), snapshot.
Qed.

Lemma TraceOk_push (pre : list StageEvent) :
  forall executed previous name post,
    TraceOk executed previous (pre ++ EvPush name :: post) ->
    (pre = []
     /\ exists command result,
         previous = Some (EvSettled command (Returned result))
         /\ CommandConfig.name command = name)
    \/ (exists pre' command result,
           pre = (pre' ++ [EvSettled command (Returned result)])%list
           /\ CommandConfig.name command = name).
Proof.
  induction pre as [|e pre IH]; intros executed previous name post H.
  - left. simpl in H. destruct H as [X _]. now split.
  - right. simpl in H. apply TraceOk_tail in H as [executed' H].
    destruct (IH _ _ _ _ H) as [[-> [c [r [X N]]]] | [pre' [c [r [-> N]]]]].
    + injection X as ->. now exists [], c, r.
    + now exists (e :: pre'), c, r.
Qed.

Lemma TraceOk_pause (evs : list StageEvent) (ms : Z) :
  forall executed previous,
    TraceOk executed previous evs -> In (EvPause ms) evs -> ms = 500%Z.
Proof.
  induction evs as [|e evs IH]; intros executed previous H I; [contradiction|].
  destruct I as [->|I].
  - simpl in H. now destruct H.
  - apply TraceOk_tail in H as [executed' H]. exact (IH _ _ H I).
Qed.

Lemma pushedNames_app (a b : list StageEvent) :
  pushedNames (a ++ b) = (pushedNames a ++ pushedNames b)%list.
Proof.
  induction a as [|e a IH]; [reflexivity|].
  destruct e; simpl; now rewrite IH.
Qed.

Lemma returnedNames_app (a b : list StageEvent) :
  returnedNames (a ++ b) = (returnedNames a ++ returnedNames b)%list.
Proof.
  induction a as [|e a IH]; [reflexivity|].
  destruct e as [| |c o| |]; simpl; try exact IH.
  destruct o; simpl; now rewrite IH.
Qed.

Lemma TraceOk_app (a b : list StageEvent) :
  forall executed previous,
    TraceOk executed previous a ->
    TraceOk (executed ++ pushedNames a)%list (lastEvent previous a) b ->
    TraceOk executed previous (a ++ b).
Proof.
  induction a as [|e a IH]; intros executed previous A B.
  - simpl in B. now rewrite app_nil_r in B.
  - destruct e; simpl in A, B |- *.
    + destruct A as [X [Y A]]. repeat split; auto.
    + destruct A as [X A]. split; auto.
    + destruct A as [X A]. split; auto.
      intros result Q. destruct (X result Q) as [rest' ->]. simpl. eauto.
    + destruct A as [X A]. split; auto. apply IH; auto.
      now rewrite <- app_assoc.
    + destruct A as [X A]. split; auto.
Qed.

Lemma TraceOk_settled (pre : list StageEvent) :
  forall executed previous command result post,
    TraceOk executed previous (pre ++ EvSettled command (Returned result) :: post) ->
    exists post', post = EvPush (CommandConfig.name command) :: post'.
Proof.
  induction pre as [|e pre IH]; intros executed previous command result post H.
  - simpl in H. destruct H as [X _]. exact (X result eq_refl).
  - simpl in H. apply TraceOk_tail in H as [executed' H]. exact (IH _ _ _ _ _ H).
Qed.

(** Up to a dependency check, the names pushed are the names of the commands
    that returned. *)
Lemma TraceOk_balanced (n : nat) :
  forall evs executed previous,
    length evs <= n ->
    TraceOk executed previous evs ->
    (forall command result, previous <> Some (EvSettled command (Returned result))) ->
    forall pre command snapshot satisfied post,
      evs = (pre ++ EvCheckDeps command snapshot satisfied :: post)%list ->
      pushedNames pre = returnedNames pre.
Proof.
  induction n as [|n IH]; intros evs executed previous L T P pre c snap ok post E.
  - subst evs. destruct pre; simpl in L; lia.
  - destruct pre as [|e pre]; [reflexivity|]. subst evs.
    destruct e as [c0 s0 b0 | c0 | c0 o0 | n0 | ms].
    + simpl in T. destruct T as [_ [_ T]]. simpl.
      eapply (IH _ _ _ (le_S_n _ _ L) T); [discriminate | reflexivity].
    + simpl in T. destruct T as [_ T]. simpl.
      eapply (IH _ _ _ (le_S_n _ _ L) T); [discriminate | reflexivity].
    + simpl in T. destruct T as [X T].
      destruct o0 as [r0|e0|].
      * destruct (X r0 eq_refl) as [rest' Q].
        destruct pre as [|e1 pre]; [discriminate Q|].
        simpl in Q. injection Q as -> Q. simpl in T. destruct T as [_ T].
        simpl. f_equal.
        assert (L' : length (pre ++ EvCheckDeps c snap ok :: post) <= n)
          by (simpl in L; lia).
        eapply (IH _ _ _ L' T); [discriminate | reflexivity].
      * simpl. eapply (IH _ _ _ (le_S_n _ _ L) T); [|reflexivity].
        intros c' r'; discriminate.
      * simpl. eapply (IH _ _ _ (le_S_n _ _ L) T); [|reflexivity].
        intros c' r'; discriminate.
    + simpl in T. destruct T as [[c1 [r1 [X _]]] _]. now elim (P c1 r1).
    + simpl in T. destruct T as [_ T]. simpl.
      eapply (IH _ _ _ (le_S_n _ _ L) T); [discriminate | reflexivity].
Qed.

Lemma last_eq {A} (a b : list A) (x y : A) :
  (a ++ [x])%list = (b ++ [y])%list -> x = y.
Proof. intros H. apply app_inj_tail in H. tauto. Qed.

(** What every well-formed trace tells about the executed set. *)
Lemma TraceOk_executed_set (evs : list StageEvent) :
  TraceOk [] None evs ->
  (forall pre name post,
      evs = (pre ++ EvPush name :: post)%list ->
      exists pre' command result,
        pre = (pre' ++ [EvSettled command (Returned result)])%list
        /\ CommandConfig.name command = name)
  /\ (forall pre command result post,
         evs = (pre ++ EvSettled command (Returned result) :: post)%list ->
         exists post', post = EvPush (CommandConfig.name command) :: post')
  /\ (forall pre command post,
         evs = (pre ++ EvStart command :: post)%list ->
         exists pre' snapshot,
           pre = (pre' ++ [EvCheckDeps command snapshot true])%list)
  /\ (forall pre command snapshot satisfied post,
         evs = (pre ++ EvCheckDeps command snapshot satisfied :: post)%list ->
         snapshot = returnedNames pre
         /\ satisfied = areDependenciesSatisfied command snapshot)
  /\ (forall pre command snapshot e post,
         evs = (pre ++ EvCheckDeps command snapshot false :: e :: post)%list ->
         match e with
         | EvStart _ | EvPush _ => False
         | _ => True
         end).
Proof.
  intros T. split; [|split; [|split; [|split]]].
  - intros pre name post ->.
    destruct (TraceOk_push _ _ _ _ _ T) as [[_ [c [r [X _]]]] | X];
      [discriminate X | exact X].
  - intros pre c r post ->. exact (TraceOk_settled _ _ _ _ _ _ T).
  - intros pre c post ->.
    destruct (TraceOk_start _ _ _ _ _ T) as [[_ [snap X]] | X];
      [discriminate X | exact X].
  - intros pre c snap ok post E.
    pose proof (TraceOk_balanced (length evs) evs [] None (le_n _) T
                  ltac:(discriminate) pre c snap ok post E) as Bal.
    subst evs. destruct (TraceOk_check _ _ _ _ _ _ _ T) as [S1 S2].
    simpl in S1. split; [congruence | exact S2].
  - intros pre c snap e post ->.
    destruct e as [c0 s0 b0 | c0 | c0 o0 | n0 | ms]; try exact I.
    + replace (pre ++ EvCheckDeps c snap false :: EvStart c0 :: post)%list
        with ((pre ++ [EvCheckDeps c snap false]) ++ EvStart c0 :: post)%list in T
        by (now rewrite <- app_assoc).
      destruct (TraceOk_start _ _ _ _ _ T) as [[X _] | [pre' [snap' X]]].
      * destruct pre; discriminate X.
      * apply last_eq in X. discriminate X.
    + replace (pre ++ EvCheckDeps c snap false :: EvPush n0 :: post)%list
        with ((pre ++ [EvCheckDeps c snap false]) ++ EvPush n0 :: post)%list in T
        by (now rewrite <- app_assoc).
      destruct (TraceOk_push _ _ _ _ _ T) as [[X _] | [pre' [c' [r' [X _]]]]].
      * destruct pre; discriminate X.
      * apply last_eq in X. discriminate X.
Qed.

(** A command that names an unexecuted dependency is not satisfied. *)
Lemma dependsOn_unsatisfied (command : CommandConfig.t) (name : string)
      (executedCommands : list string) :
  dependsOn command name = true ->
  ~ In name executedCommands ->
  areDependenciesSatisfied command executedCommands = false.
Proof.
  unfold dependsOn, areDependenciesSatisfied, arrayIncludes.
  intros D NI.
  assert (X : existsb (String.eqb name) executedCommands = false).
  { destruct (existsb _ _) eqn:E; [|reflexivity].
    apply existsb_exists in E as [y [I Q]]. apply String.eqb_eq in Q. now subst. }
  destruct (CommandConfig.depends_on command) as [|d|ds]; [discriminate| |].
  - apply andb_prop in D as [N Q]. rewrite N. apply String.eqb_eq in Q. now subst.
  - apply existsb_exists in D as [d [I Q]]. apply String.eqb_eq in Q. subst d.
    destruct (forallb _ ds) eqn:F; [|reflexivity].
    rewrite forallb_forall in F. specialize (F name I). congruence.
Qed.

(* ===================================================================== *)
(** ** runStage, sequential mode                                           *)
(* ===================================================================== *)

Ltac seq_step run :=
  cbn [runSequential];
  match goal with
  | |- context [areDependenciesSatisfied ?c ?ex] =>
      destruct (areDependenciesSatisfied c ex) eqn:?D; cbn [negb];
      [ destruct (run c _) as [[?result|?e|] ?w1] eqn:?R;
        [ match goal with
          | |- context [negb (success ?r) && negb (CommandConfig.allow_failure c)] =>
              destruct (negb (success r) && negb (CommandConfig.allow_failure c)) eqn:?B
          end
        | | ]
      | destruct (CommandConfig.allow_failure c) eqn:?AF; cbn [negb] ]
  end;
  cbn [withEvents seq_events seq_exit seq_executed app].

Section Sequential.
Context {W : Type} (run : CommandConfig.t -> W -> RunOutcome * W).

Lemma runSequential_TraceOk (commands : list CommandConfig.t) :
  forall combined executed w previous,
    TraceOk executed previous
            (seq_events (runSequential run commands combined executed w)).
Proof.
  induction commands as [|c rest IH]; intros combined executed w previous;
    [exact I|].
  seq_step run; cbn [TraceOk]; repeat split; eauto;
    intros ? Q; discriminate Q.
Qed.

Lemma runSequential_order (commands : list CommandConfig.t) :
  forall combined executed w,
    exists notReached,
      commands
      = (checkedCommands (seq_events (runSequential run commands combined executed w))
         ++ notReached)%list.
Proof.
  induction commands as [|c rest IH]; intros combined executed w;
    [now exists []|].
  seq_step run; cbn [checkedCommands app];
    try (now exists rest);
    match goal with
    | |- context [runSequential run rest ?a ?b ?c] =>
        destruct (IH a b c) as [nr E]; exists nr; now rewrite <- E
    end.
Qed.

Lemma runSequential_executed (commands : list CommandConfig.t) :
  forall combined executed w,
    seq_executed (runSequential run commands combined executed w)
    = (executed
       ++ pushedNames (seq_events (runSequential run commands combined executed w)))%list
    /\ pushedNames (seq_events (runSequential run commands combined executed w))
       = returnedNames (seq_events (runSequential run commands combined executed w)).
Proof.
  induction commands as [|c rest IH]; intros combined executed w.
  - simpl. now rewrite app_nil_r.
  - seq_step run; cbn [pushedNames returnedNames];
      try (split; [now rewrite ?app_nil_r | reflexivity]);
      match goal with
      | |- context [runSequential run rest ?a ?b ?c] =>
          destruct (IH a b c) as [E1 E2]; rewrite E1, E2; split;
          [now rewrite <- ?app_assoc | reflexivity]
      end.
Qed.
Lemma nil_split {A} (e : A) (pre post : list A) : (pre ++ e :: post)%list = [] -> False.
Proof. destruct pre; discriminate. Qed.

(** Looks for the event [e] of [H : pre ++ e :: post = x1 :: ... :: tail]
    among the events written out at the head of the right-hand side. *)
Ltac scan H :=
  repeat (apply split_cons in H;
          let P1 := fresh "P" in
          let P2 := fresh "P" in
          let P3 := fresh "P" in
          let pre' := fresh "pre'" in
          destruct H as [(P1 & P2 & P3) | (pre' & P1 & H)];
          [ try discriminate P2 | subst ]).

(** Uses the equation between the event looked for and the event found. *)
Ltac same_event :=
  match goal with
  | Q : EvStart _ = EvStart _ |- _ => injection Q as Q; subst
  | Q : EvCheckDeps _ _ _ = EvCheckDeps _ _ _ |- _ => injection Q as ? ?; subst
  | Q : EvSettled _ _ = EvSettled _ _ |- _ => injection Q as ? ?; subst
  end.

Lemma runSequential_awaited (commands : list CommandConfig.t) :
  forall combined executed w pre command post,
    seq_events (runSequential run commands combined executed w)
    = (pre ++ EvStart command :: post)%list ->
    post = [] \/ exists outcome post', post = EvSettled command outcome :: post'.
Proof.
  induction commands as [|c rest IH]; intros combined executed w pre command post.
  - simpl. intros H. symmetry in H. now apply nil_split in H.
  - seq_step run; intros H; symmetry in H; scan H;
      try (now apply nil_split in H);
      try (symmetry in H; exact (IH _ _ _ _ _ _ H));
      same_event; eauto.
Qed.

Lemma runSequential_abort (commands : list CommandConfig.t) :
  forall combined executed w pre command snapshot post,
    seq_events (runSequential run commands combined executed w)
    = (pre ++ EvCheckDeps command snapshot false :: post)%list ->
    CommandConfig.allow_failure command = false ->
    post = []
    /\ exists out,
        seq_exit (runSequential run commands combined executed w)
        = LoopReturn (dependencyFailure out command).
Proof.
  induction commands as [|c rest IH];
    intros combined executed w pre command snapshot post.
  - simpl. intros H. symmetry in H. now apply nil_split in H.
  - seq_step run; intros H A; symmetry in H; scan H;
      try (now apply nil_split in H);
      try (symmetry in H; exact (IH _ _ _ _ _ _ _ H A));
      same_event; [congruence | eauto].
Qed.

Lemma runSequential_stop (commands : list CommandConfig.t) :
  forall combined executed w pre command result post,
    seq_events (runSequential run commands combined executed w)
    = (pre ++ EvSettled command (Returned result) :: post)%list ->
    success result = false ->
    CommandConfig.allow_failure command = false ->
    post = [EvPush (CommandConfig.name command)].
Proof.
  induction commands as [|c rest IH];
    intros combined executed w pre command result post.
  - simpl. intros H. symmetry in H. now apply nil_split in H.
  - seq_step run; intros H F A; symmetry in H; scan H;
      try (now apply nil_split in H);
      try (symmetry in H; exact (IH _ _ _ _ _ _ _ H F A));
      same_event.
    + reflexivity.
    + rewrite F, A in B. discriminate B.
Qed.

Lemma runSequential_pause (commands : list CommandConfig.t) :
  forall combined executed w pre command mid command' post,
    seq_events (runSequential run commands combined executed w)
    = (pre ++ EvStart command :: mid ++ EvStart command' :: post)%list ->
    In (EvPause 500) mid.
Proof.
  induction commands as [|c rest IH];
    intros combined executed w pre command mid command' post.
  - simpl. intros H. symmetry in H. now apply nil_split in H.
  - seq_step run; intros H; symmetry in H; scan H;
      try (now apply nil_split in H);
      try (symmetry in H; exact (IH _ _ _ _ _ _ _ _ H));
      match goal with
      | Q : (mid ++ EvStart command' :: post)%list = _ |- _ =>
          scan Q; try (now apply nil_split in Q)
      end;
      simpl; auto.
Qed.

Lemma runSequential_first (c : CommandConfig.t) (rest : list CommandConfig.t) :
  forall combined executed w,
    exists satisfied post,
      seq_events (runSequential run (c :: rest) combined executed w)
      = EvCheckDeps c executed satisfied :: post.
Proof.
  intros combined executed w. seq_step run; eauto.
Qed.

Lemma runSequential_started (commands : list CommandConfig.t) :
  forall combined executed w pre command snapshot post,
    seq_events (runSequential run commands combined executed w)
    = (pre ++ EvCheckDeps command snapshot true :: post)%list ->
    exists post', post = EvStart command :: post'.
Proof.
  induction commands as [|c rest IH];
    intros combined executed w pre command snapshot post.
  - simpl. intros H. symmetry in H. now apply nil_split in H.
  - seq_step run; intros H; symmetry in H; scan H;
      try (now apply nil_split in H);
      try (symmetry in H; exact (IH _ _ _ _ _ _ _ H));
      same_event; eauto; congruence.
Qed.

Lemma runSequential_paused (commands : list CommandConfig.t) :
  forall combined executed w pre command result post,
    seq_events (runSequential run commands combined executed w)
    = (pre ++ EvSettled command (Returned result) :: post)%list ->
    success result = true \/ CommandConfig.allow_failure command = true ->
    exists post', post = EvPush (CommandConfig.name command) :: EvPause 500 :: post'.
Proof.
  induction commands as [|c rest IH];
    intros combined executed w pre command result post.
  - simpl. intros H. symmetry in H. now apply nil_split in H.
  - seq_step run; intros H T; symmetry in H; scan H;
      try (now apply nil_split in H);
      try (symmetry in H; exact (IH _ _ _ _ _ _ _ H T));
      same_event.
    + apply andb_prop in B as [B1 B2].
      apply negb_true_iff in B1, B2. destruct T; congruence.
    + eauto.
Qed.

Lemma StageStopped_app (pre evs : list StageEvent) :
  StageStopped evs -> StageStopped (pre ++ evs).
Proof.
  intros [[p [c [snap [-> A]]]] | [[p [c [r [-> [F A]]]]] | [[p [c [e ->]]] | [p [c ->]]]]].
  - left. exists (pre ++ p)%list, c, snap. now rewrite app_assoc.
  - right; left. exists (pre ++ p)%list, c, r. now rewrite app_assoc.
  - right; right; left. exists (pre ++ p)%list, c, e. now rewrite app_assoc.
  - right; right; right. exists (pre ++ p)%list, c. now rewrite app_assoc.
Qed.

(** The loop goes on to the next command unless it has stopped. *)
Lemma runSequential_complete (commands : list CommandConfig.t) :
  forall combined executed w,
    checkedCommands (seq_events (runSequential run commands combined executed w))
    = commands
    \/ StageStopped (seq_events (runSequential run commands combined executed w)).
Proof.
  induction commands as [|c rest IH]; intros combined executed w; [now left|].
  seq_step run.
  - right. right; left. apply andb_prop in B as [B1 B2].
    apply negb_true_iff in B1, B2.
    exists [EvCheckDeps c executed true; EvStart c], c, result. now repeat split.
  - destruct (IH (combined ++ output result ++ lf)
                 (executed ++ [CommandConfig.name c])%list w1) as [E | St].
    + left. cbn [checkedCommands]. now rewrite E.
    + right.
      apply (StageStopped_app
               [EvCheckDeps c executed true; EvStart c;
                EvSettled c (Returned result); EvPush (CommandConfig.name c);
                EvPause 500] _ St).
  - right. right; right; left.
    now exists [EvCheckDeps c executed true; EvStart c], c, e.
  - right. right; right; right. now exists [EvCheckDeps c executed true], c.
  - destruct (IH combined executed w) as [E | St].
    + left. cbn [checkedCommands]. now rewrite E.
    + right. apply (StageStopped_app [EvCheckDeps c executed false] _ St).
  - right. left. now exists [], c, executed.
Qed.

End Sequential.

(* ===================================================================== *)
(** ** runStage, parallel mode                                             *)
(* ===================================================================== *)

Lemma parLaunch_inv (commands : list CommandConfig.t) (i : nat) (s : ParState) :
  ParInv s -> ParInv (parLaunch commands i s).
Proof.
  intros [T [X B]]. unfold parLaunch.
  destruct (nth_error commands i) as [c|]; [|now repeat split].
  destruct (areDependenciesSatisfied c (par_executed s)) eqn:D; cbn [negb].
  - unfold ParInv. cbn [par_events par_executed].
    rewrite pushedNames_app, returnedNames_app. simpl. rewrite !app_nil_r.
    split; [|now split].
    apply TraceOk_app; [exact T|]. simpl. rewrite <- X.
    repeat split; eauto.
  - destruct (CommandConfig.allow_failure c); cbn [negb];
      unfold ParInv, settle; cbn [par_events par_executed];
      rewrite pushedNames_app, returnedNames_app; simpl; rewrite !app_nil_r;
      (split; [|now split]);
      (apply TraceOk_app; [exact T|]); simpl; rewrite <- X; repeat split; eauto.
Qed.

Lemma parComplete_inv (outcomeOf : nat -> RunOutcome)
      (commands : list CommandConfig.t) (i : nat) (s : ParState) :
  ParInv s -> ParInv (parComplete outcomeOf commands i s).
Proof.
  intros [T [X B]]. unfold parComplete.
  destruct (nth_error commands i) as [c|]; [|now repeat split].
  destruct (existsb (Nat.eqb i) (par_running s)); [|now repeat split].
  destruct (outcomeOf i) as [r|e|]; [| |now repeat split];
    unfold ParInv; cbn [par_events par_executed];
    rewrite pushedNames_app, returnedNames_app; simpl; rewrite ?app_nil_r.
  - split; [|split; [now rewrite X | now rewrite B]].
    apply TraceOk_app; [exact T|]. simpl. repeat split; eauto.
  - split; [|now split].
    apply TraceOk_app; [exact T|]. simpl. repeat split; eauto.
    intros r Q. discriminate Q.
Qed.

Lemma fold_left_inv {A B} (P : A -> Prop) (f : A -> B -> A) :
  (forall a b, P a -> P (f a b)) ->
  forall l a, P a -> P (fold_left f l a).
Proof.
  intros Step l. induction l as [|b l IH]; intros a Pa; [exact Pa|].
  simpl. apply IH, Step, Pa.
Qed.

Lemma runParallel_inv (outcomeOf : nat -> RunOutcome) (completionOrder : list nat)
      (commands : list CommandConfig.t) :
  ParInv (runParallel outcomeOf completionOrder commands).
Proof.
  unfold runParallel.
  apply fold_left_inv; [intros; now apply parComplete_inv|].
  apply fold_left_inv; [intros; now apply parLaunch_inv|].
  now repeat split.
Qed.

(** Every dependency check of a parallel stage is made while
    [executedCommands] is still empty: the callbacks are all called before
    any continuation runs. *)
Lemma parLaunch_all_empty (commands : list CommandConfig.t) (indices : list nat) :
  forall s,
    par_executed s = [] ->
    par_executed (fold_left (fun s i => parLaunch commands i s) indices s) = [].
Proof.
  induction indices as [|i indices IH]; intros s E; [exact E|].
  simpl. apply IH. unfold parLaunch.
  destruct (nth_error commands i) as [c|]; [|exact E].
  destruct (negb (areDependenciesSatisfied c (par_executed s))); [|exact E].
  destruct (negb (CommandConfig.allow_failure c)); exact E.
Qed.

(* ===================================================================== *)
(** ** runStage                                                            *)
(* ===================================================================== *)

Lemma runStage_trace {W} (run : CommandConfig.t -> W -> RunOutcome * W)
      (outcomeOf : nat -> RunOutcome) (completionOrder : list nat)
      (stage : option StageConfig.t) (stageName : string)
      (commands : list CommandConfig.t) (w : W) :
  TraceOk [] None
          (stage_events (runStage run outcomeOf completionOrder stage stageName commands w))
  /\ stage_executed (runStage run outcomeOf completionOrder stage stageName commands w)
     = pushedNames
         (stage_events (runStage run outcomeOf completionOrder stage stageName commands w))
  /\ pushedNames
       (stage_events (runStage run outcomeOf completionOrder stage stageName commands w))
     = returnedNames
         (stage_events (runStage run outcomeOf completionOrder stage stageName commands w)).
Proof.
  unfold runStage. destruct stage as [stage|]; [|now repeat split].
  destruct (Nat.eqb (length commands) 0); [now repeat split|].
  destruct (StageConfig.parallel stage).
  - pose proof (runParallel_inv outcomeOf completionOrder commands) as Inv.
    destruct (promiseAll _ _) as [results|]; [|exact Inv].
    destruct (processResults commands results true EmptyString). exact Inv.
  - cbn [stage_events stage_executed]. split; [apply runSequential_TraceOk|].
    apply (runSequential_executed run commands EmptyString [] w).
Qed.

Lemma finishStage_allow_failure (stage : StageConfig.t) (stageSuccess : bool)
      (combinedOutput : string) :
  StageConfig.allow_failure stage = true ->
  finishStage stage stageSuccess combinedOutput
  = mkResult true combinedOutput None None.
Proof. intros A. unfold finishStage. rewrite A. now destruct stageSuccess. Qed.



(** The run of that stage: [build] succeeds, [test] fails and stops the
    stage, [deploy] is never reached. *)
Example runStage_sequential_run :
  stage_events
    (runStage exampleRun (fun _ => Pending) []
       (Some (StageConfig.mk "ci" false false)) "ci"
       [exampleCommand "build" "make" false DepUndefined;
        exampleCommand "test" "exit 2" false (DepString "build");
        exampleCommand "deploy" "ship" false (DepArray ["build"; "test"])]
       emptyState)
  = [EvCheckDeps (exampleCommand "build" "make" false DepUndefined) [] true;
     EvStart (exampleCommand "build" "make" false DepUndefined);
     EvSettled (exampleCommand "build" "make" false DepUndefined)
               (Returned (mkResult true "make" None (Some (NumberCode 0))));
     EvPush "build";
     EvPause 500;
     EvCheckDeps (exampleCommand "test" "exit 2" false (DepString "build")) ["build"] true;
     EvStart (exampleCommand "test" "exit 2" false (DepString "build"));
     EvSettled (exampleCommand "test" "exit 2" false (DepString "build"))
               (Returned (mkResult false "boom" (Some "failed") (Some (NumberCode 2))));
     EvPush "test"]
  /\ stage_outcome
       (runStage exampleRun (fun _ => Pending) []
          (Some (StageConfig.mk "ci" false false)) "ci"
          [exampleCommand "build" "make" false DepUndefined;
           exampleCommand "test" "exit 2" false (DepString "build");
           exampleCommand "deploy" "ship" false (DepArray ["build"; "test"])]
          emptyState)
     = Returned (mkResult false ("make" ++ lf ++ "boom" ++ lf)
                          (Some "Stage execution failed") None).
Proof. split; vm_compute; reflexivity. Qed.


(** A parallel stage: every command is checked before any command returns,
    so a command that depends on a sibling is never started; here [test]
    depends on [build] and tolerates failure, and only [build] is pushed. *)
Example runStage_parallel_run :
  stage_events
    (runStage exampleRun
       (fun i => Returned (mkResult true "ok" None (Some (NumberCode 0)))) [0; 1]
       (Some (StageConfig.mk "ci" false true)) "ci"
       [exampleCommand "build" "make" false DepUndefined;
        exampleCommand "test" "check" true (DepString "build")]
       emptyState)
  = [EvCheckDeps (exampleCommand "build" "make" false DepUndefined) [] true;
     EvStart (exampleCommand "build" "make" false DepUndefined);
     EvCheckDeps (exampleCommand "test" "check" true (DepString "build")) [] false;
     EvSettled (exampleCommand "build" "make" false DepUndefined)
               (Returned (mkResult true "ok" None (Some (NumberCode 0))));
     EvPush "build"]
  /\ stage_executed
       (runStage exampleRun
          (fun i => Returned (mkResult true "ok" None (Some (NumberCode 0)))) [0; 1]
          (Some (StageConfig.mk "ci" false true)) "ci"
          [exampleCommand "build" "make" false DepUndefined;
           exampleCommand "test" "check" true (DepString "build")]
          emptyState)
     = ["build"].
Proof. split; vm_compute; reflexivity. Qed.


(** In parallel mode the unsatisfied dependency is folded into the stage's
    success. *)
Example runStage_parallel_dependency_folded :
  stage_outcome
    (runStage exampleRun (fun _ => Pending) []
       (Some (StageConfig.mk "ci" true true)) "ci"
       [exampleCommand "test" "check" false (DepString "build")]
       emptyState)
  = Returned (mkResult true (lf ++ "--- Command: test ---" ++ lf ++ lf) None None).
Proof. vm_compute. reflexivity. Qed.

(* ===================================================================== *)
(** ** runSequence                                                         *)
(* ===================================================================== *)

Ltac stage_step runner :=
  cbn [runStages];
  match goal with
  | |- context [runner ?n ?w] =>
      destruct (runner n w) as [[?result|?e|] ?w1] eqn:?R;
      [ match goal with
        | |- context [negb (success ?r)] => destruct (success r) eqn:?S; cbn [negb]
        end
      | | ]
  end;
  cbn [loop_events loop_exit loop_world app].

(** Looks for the event [e] of [H : pre ++ e :: post = x1 :: ... :: tail]
    among the events written out at the head of the right-hand side. *)
Ltac scan_events H :=
  repeat (apply split_cons in H;
          let P1 := fresh "P" in
          let P2 := fresh "P" in
          let P3 := fresh "P" in
          let pre' := fresh "pre'" in
          destruct H as [(P1 & P2 & P3) | (pre' & P1 & H)];
          [ try discriminate P2 | subst ]).

Lemma nil_not_split {A} (e : A) (pre post : list A) :
  (pre ++ e :: post)%list = [] -> False.
Proof. destruct pre; discriminate. Qed.

Section Stages.
Context {W : Type} (stageRunner : string -> W -> RunOutcome * W).

Lemma runStages_order (stages : list StageConfig.t) :
  forall combined w,
    exists notReached,
      map StageConfig.name stages
      = (startedStages (loop_events (runStages stageRunner stages combined w))
         ++ notReached)%list.
Proof.
  induction stages as [|stage rest IH]; intros combined w; [now exists []|].
  stage_step stageRunner; cbn [startedStages map app].
  - destruct (IH (combined ++ output result ++ lf) w1) as [nr E].
    exists nr. now rewrite <- E.
  - now exists (map StageConfig.name rest).
  - now exists (map StageConfig.name rest).
  - now exists (map StageConfig.name rest).
Qed.

Lemma runStages_awaited (stages : list StageConfig.t) :
  forall combined w pre name post,
    loop_events (runStages stageRunner stages combined w)
    = (pre ++ EvStageStart name :: post)%list ->
    post = [] \/ exists outcome post', post = EvStageSettled name outcome :: post'.
Proof.
  induction stages as [|stage rest IH]; intros combined w pre name post.
  - simpl. intros H. symmetry in H. now apply nil_not_split in H.
  - stage_step stageRunner; intros H; symmetry in H; scan_events H;
      try (now apply nil_not_split in H);
      try (symmetry in H; exact (IH _ _ _ _ _ H));
      match goal with
      | Q : EvStageStart _ = EvStageStart _ |- _ => injection Q as Q; subst
      end; eauto.
Qed.

Lemma runStages_stop (stages : list StageConfig.t) :
  forall combined w pre name result post,
    loop_events (runStages stageRunner stages combined w)
    = (pre ++ EvStageSettled name (Returned result) :: post)%list ->
    success result = false ->
    post = []
    /\ exists out, loop_exit (runStages stageRunner stages combined w) = LoopDone false out.
Proof.
  induction stages as [|stage rest IH]; intros combined w pre name result post.
  - simpl. intros H. symmetry in H. now apply nil_not_split in H.
  - stage_step stageRunner; intros H F; symmetry in H; scan_events H;
      try (now apply nil_not_split in H);
      try (symmetry in H; exact (IH _ _ _ _ _ _ H F));
      match goal with
      | Q : EvStageSettled _ _ = EvStageSettled _ _ |- _ => injection Q as ? ?; subst
      end.
    + congruence.
    + eauto.
Qed.

Lemma runStages_pause (stages : list StageConfig.t) :
  forall combined w pre name result post,
    loop_events (runStages stageRunner stages combined w)
    = (pre ++ EvStageSettled name (Returned result) :: post)%list ->
    success result = true ->
    exists post', post = EvStagePause 1000 :: post'.
Proof.
  induction stages as [|stage rest IH]; intros combined w pre name result post.
  - simpl. intros H. symmetry in H. now apply nil_not_split in H.
  - stage_step stageRunner; intros H F; symmetry in H; scan_events H;
      try (now apply nil_not_split in H);
      try (symmetry in H; exact (IH _ _ _ _ _ _ H F));
      match goal with
      | Q : EvStageSettled _ _ = EvStageSettled _ _ |- _ => injection Q as ? ?; subst
      end.
    + eauto.
    + congruence.
Qed.

Lemma runStages_pauses (stages : list StageConfig.t) :
  forall combined w ms,
    In (EvStagePause ms) (loop_events (runStages stageRunner stages combined w)) ->
    ms = 1000%Z.
Proof.
  induction stages as [|stage rest IH]; intros combined w ms; [intros []|].
  stage_step stageRunner; simpl; intros H;
    repeat match goal with
           | H : _ \/ _ |- _ => destruct H as [H|H]
           end;
    try discriminate H; try contradiction.
  - now injection H as <-.
  - exact (IH _ _ _ H).
Qed.

Lemma runStages_done (stages : list StageConfig.t) :
  forall combined w ok out,
    loop_exit (runStages stageRunner stages combined w) = LoopDone ok out ->
    out = combined
          ++ joinOutputs (stageResults (loop_events (runStages stageRunner stages combined w)))
    /\ (ok = true ->
        startedStages (loop_events (runStages stageRunner stages combined w))
        = map StageConfig.name stages
        /\ length (stageResults (loop_events (runStages stageRunner stages combined w)))
           = length stages
        /\ forallb success
                   (stageResults (loop_events (runStages stageRunner stages combined w)))
           = true)
    /\ (ok = false ->
        exists pre name result,
          loop_events (runStages stageRunner stages combined w)
          = (pre ++ [EvStageSettled name (Returned result)])%list
          /\ success result = false).
Proof.
  induction stages as [|stage rest IH]; intros combined w ok out.
  - simpl. intros H. injection H as <- <-. rewrite str_app_nil_r.
    split; [reflexivity|]. split; [now intros _ | discriminate].
  - stage_step stageRunner; intros H; try discriminate H.
    + destruct (IH _ _ _ _ H) as [O [T F]].
      cbn [stageResults startedStages joinOutputs map length forallb].
      split; [rewrite O, !str_app_assoc; reflexivity|]. split.
      * intros Q. destruct (T Q) as [T1 [T2 T3]]. rewrite T1, T2, T3, S.
        now repeat split.
      * intros Q. destruct (F Q) as [pre [name [r [E X]]]].
        exists (EvStageStart (StageConfig.name stage)
                  :: EvStageSettled (StageConfig.name stage) (Returned result)
                  :: EvStagePause 1000 :: pre), name, r.
        split; [now rewrite E | exact X].
    + injection H as <- <-.
      cbn [stageResults joinOutputs]. rewrite str_app_nil_r.
      split; [reflexivity|]. split; [discriminate|].
      intros _. exists [EvStageStart (StageConfig.name stage)],
                  (StageConfig.name stage), result.
      now split.
Qed.

Lemma runStages_no_return (stages : list StageConfig.t) :
  forall combined w result,
    loop_exit (runStages stageRunner stages combined w) = LoopReturn result -> False.
Proof.
  induction stages as [|stage rest IH]; intros combined w r; [discriminate|].
  stage_step stageRunner; intros H; try discriminate H. exact (IH _ _ _ H).
Qed.

End Stages.


(** A run of a sequence over [runStage] and [runCommand]: [build] succeeds,
    [test] fails, [deploy] is never started. *)
Example runSequence_run :
  sequence_events
    (runSequence exampleStageRunner (Some (SequenceConfig.mk "release" None)) "release"
       [StageConfig.mk "build" false false; StageConfig.mk "test" false false;
        StageConfig.mk "deploy" false false]
       emptyState)
  = [EvStageStart "build";
     EvStageSettled "build" (Returned (mkResult true ("make" ++ lf) None None));
     EvStagePause 1000;
     EvStageStart "test";
     EvStageSettled "test"
       (Returned (mkResult false ("boom" ++ lf) (Some "Stage execution failed") None))]
  /\ sequence_outcome
       (runSequence exampleStageRunner (Some (SequenceConfig.mk "release" None)) "release"
          [StageConfig.mk "build" false false; StageConfig.mk "test" false false;
           StageConfig.mk "deploy" false false]
          emptyState)
     = Returned (mkResult false ("make" ++ lf ++ lf ++ "boom" ++ lf ++ lf)
                          (Some "Sequence execution failed") None).
Proof. split; vm_compute; reflexivity. Qed.



(* ===================================================================== *)
(** ** areDependenciesSatisfied                                            *)
(* ===================================================================== *)

Lemma arrayIncludes_In (l : list string) (x : string) :
  arrayIncludes l x = true <-> In x l.
Proof.
  unfold arrayIncludes. rewrite existsb_exists. split.
  - intros [y [I E]]. apply String.eqb_eq in E. now subst.
  - intros I. exists x. split; [exact I | apply String.eqb_refl].
Qed.

Lemma areDependenciesSatisfied_iff (command : CommandConfig.t)
      (executedCommands : list string) :
  areDependenciesSatisfied command executedCommands = true
  <-> forall name, dependsOn command name = true -> In name executedCommands.
Proof.
  unfold areDependenciesSatisfied, dependsOn.
  destruct (CommandConfig.depends_on command) as [|d|ds].
  - split; [discriminate | reflexivity].
  - destruct (nonEmpty d) eqn:N; simpl.
    + rewrite arrayIncludes_In. split.
      * intros I name E. apply String.eqb_eq in E. now subst.
      * intros H. apply H. apply String.eqb_refl.
    + split; [discriminate | reflexivity].
  - rewrite forallb_forall. split.
    + intros H name E. apply existsb_exists in E as [d [I E]].
      apply String.eqb_eq in E. subst d. now apply arrayIncludes_In, H.
    + intros H d I. apply arrayIncludes_In, H. apply existsb_exists.
      exists d. split; [exact I | apply String.eqb_refl].
Qed.

Lemma areDependenciesSatisfied_incl (command : CommandConfig.t)
      (executed executed' : list string) :
  incl executed executed' ->
  areDependenciesSatisfied command executed = true ->
  areDependenciesSatisfied command executed' = true.
Proof.
  intros I. rewrite !areDependenciesSatisfied_iff. intros H name D.
  apply I, H, D.
Qed.

(** X3. The dependencies of a command are satisfied exactly when every name
    it depends on is among the executed names; an absent dependency and the
    empty string name nothing, and so does the empty list.  Executing more
    commands never unsatisfies a command, and the order and repetition of
    the executed names do not matter. *)
Theorem areDependenciesSatisfied_spec
        (command : CommandConfig.t) (executedCommands : list string) :
  (areDependenciesSatisfied command executedCommands = true
   <-> forall name, dependsOn command name = true -> In name executedCommands)
  /\ (forall executed',
         incl executedCommands executed' ->
         areDependenciesSatisfied command executedCommands = true ->
         areDependenciesSatisfied command executed' = true)
  /\ (forall executed',
         incl executedCommands executed' -> incl executed' executedCommands ->
         areDependenciesSatisfied command executed'
         = areDependenciesSatisfied command executedCommands)
  /\ (areDependenciesSatisfied command [] = true
      <-> forall name, dependsOn command name = false).
Proof.
  split; [apply areDependenciesSatisfied_iff|].
  split; [intros executed'; apply areDependenciesSatisfied_incl|].
  split.
  - intros executed' I1 I2.
    destruct (areDependenciesSatisfied command executedCommands) eqn:A.
    + exact (areDependenciesSatisfied_incl _ _ _ I1 A).
    + destruct (areDependenciesSatisfied command executed') eqn:B; [|reflexivity].
      pose proof (areDependenciesSatisfied_incl _ _ _ I2 B). congruence.
  - rewrite areDependenciesSatisfied_iff. split.
    + intros H name. destruct (dependsOn command name) eqn:D; [|reflexivity].
      destruct (H name D).
    + intros H name D. rewrite H in D. discriminate D.
Qed.

(* ===================================================================== *)
(** ** runStage, sequential mode: the result                               *)
(* ===================================================================== *)

Section SequentialResult.
Context {W : Type} (run : CommandConfig.t -> W -> RunOutcome * W).

Lemma runSequential_output (commands : list CommandConfig.t) :
  forall combined executed w,
    match seq_exit (runSequential run commands combined executed w) with
    | LoopDone _ out =>
        out = combined
              ++ joinOutputs (commandResults
                                (seq_events (runSequential run commands combined executed w)))
    | LoopReturn r =>
        output r
        = combined
          ++ joinOutputs (commandResults
                            (seq_events (runSequential run commands combined executed w)))
    | _ => True
    end.
Proof.
  induction commands as [|c rest IH]; intros combined executed w.
  - simpl. now rewrite str_app_nil_r.
  - seq_step run; cbn [commandResults joinOutputs output]; rewrite ?str_app_nil_r;
      try exact I; try reflexivity.
    + specialize (IH (combined ++ output result ++ lf) (executed ++ [CommandConfig.name c])%list w1).
      destruct (seq_exit _); try exact I; rewrite IH, !str_app_assoc; reflexivity.
    + apply IH.
Qed.

Lemma runSequential_tolerant (commands : list CommandConfig.t) :
  (forall c, In c commands ->
             CommandConfig.allow_failure c = true
             \/ areDependenciesSatisfied c [] = true) ->
  (forall c w, In c commands ->
               exists result w',
                 run c w = (Returned result, w')
                 /\ (success result = true \/ CommandConfig.allow_failure c = true)) ->
  forall combined executed w,
    (exists out, seq_exit (runSequential run commands combined executed w)
                 = LoopDone true out)
    /\ checkedCommands (seq_events (runSequential run commands combined executed w))
       = commands.
Proof.
  induction commands as [|c rest IH]; intros Hdeps Hruns combined executed w.
  - simpl. split; [eauto | reflexivity].
  - assert (IH' : forall combined executed w,
               (exists out, seq_exit (runSequential run rest combined executed w)
                            = LoopDone true out)
               /\ checkedCommands (seq_events (runSequential run rest combined executed w))
                  = rest).
    { apply IH.
      - intros c' I'. apply Hdeps. now right.
      - intros c' w' I'. apply Hruns. now right. }
    cbn [runSequential].
    destruct (areDependenciesSatisfied c executed) eqn:D; cbn [negb].
    + destruct (Hruns c w (or_introl eq_refl)) as [result [w' [R T]]]. rewrite R.
      assert (B : negb (success result) && negb (CommandConfig.allow_failure c) = false).
      { destruct T as [T|T]; rewrite T; simpl; [reflexivity | apply andb_false_r]. }
      rewrite B. cbn [withEvents seq_exit seq_events app checkedCommands].
      destruct (IH' (combined ++ output result ++ lf)
                    (executed ++ [CommandConfig.name c])%list w') as [X Y].
      split; [exact X | now rewrite Y].
    + destruct (Hdeps c (or_introl eq_refl)) as [A|A].
      * rewrite A. cbn [negb withEvents seq_exit seq_events app checkedCommands].
        destruct (IH' combined executed w) as [X Y].
        split; [exact X | now rewrite Y].
      * apply (areDependenciesSatisfied_incl c [] executed) in A; [congruence|].
        intros x [].
Qed.

End SequentialResult.

(** X4. When a sequential stage returns, its output is the outputs of the
    commands that returned, in order, each followed by a line feed; this
    holds for the result at the end of the loop and for the result of a
    dependency failure alike. *)
Theorem runStage_sequential_output
        (W : Type) (run : CommandConfig.t -> W -> RunOutcome * W)
        (outcomeOf : nat -> RunOutcome) (completionOrder : list nat)
        (stage : option StageConfig.t) (stageName : string)
        (commands : list CommandConfig.t) (w : W) (r : ExecutionResult)
        (Hsequential : forall s, stage = Some s -> StageConfig.parallel s = false)
        (Hreturned : stage_outcome
                       (runStage run outcomeOf completionOrder stage stageName commands w)
                     = Returned r) :
  output r
  = joinOutputs
      (commandResults
         (stage_events (runStage run outcomeOf completionOrder stage stageName commands w))).
Proof.
  revert Hreturned. unfold runStage. destruct stage as [s|].
  - destruct (Nat.eqb (length commands) 0).
    + simpl. intros H. now injection H as <-.
    + rewrite (Hsequential s eq_refl). cbn [stage_outcome stage_events].
      pose proof (runSequential_output run commands EmptyString [] w) as O.
      destruct (seq_exit (runSequential run commands EmptyString [] w))
        as [ok out | result | e |]; intros H; try discriminate H;
        cbn [String.append] in O.
      * injection H as <-. rewrite <- O. unfold finishStage.
        destruct (negb ok); [destruct (StageConfig.allow_failure s)|]; reflexivity.
      * injection H as <-. exact O.
  - simpl. intros H. now injection H as <-.
Qed.

Lemma runStage_sequential_output_witness :
  stage_outcome
    (runStage exampleRun (fun _ => Pending) []
       (Some (StageConfig.mk "ci" false false)) "ci"
       [exampleCommand "build" "make" false DepUndefined;
        exampleCommand "test" "exit 2" false (DepString "build");
        exampleCommand "deploy" "ship" false (DepArray ["build"; "test"])]
       emptyState)
  = Returned (mkResult false ("make" ++ lf ++ "boom" ++ lf)
                       (Some "Stage execution failed") None)
  /\ output (mkResult false ("make" ++ lf ++ "boom" ++ lf)
                      (Some "Stage execution failed") None)
     = joinOutputs
         (commandResults
            (stage_events
               (runStage exampleRun (fun _ => Pending) []
                  (Some (StageConfig.mk "ci" false false)) "ci"
                  [exampleCommand "build" "make" false DepUndefined;
                   exampleCommand "test" "exit 2" false (DepString "build");
                   exampleCommand "deploy" "ship" false (DepArray ["build"; "test"])]
                  emptyState))).
Proof.
  split; [vm_compute; reflexivity|].
  apply (runStage_sequential_output RunnerState exampleRun (fun _ => Pending) []
           (Some (StageConfig.mk "ci" false false)) "ci"
           [exampleCommand "build" "make" false DepUndefined;
            exampleCommand "test" "exit 2" false (DepString "build");
            exampleCommand "deploy" "ship" false (DepArray ["build"; "test"])]
           emptyState).
  - intros s E. now injection E as <-.
  - vm_compute. reflexivity.
Defined.

(** X5. In a sequential stage whose commands all return, where every
    command either tolerates failure or depends on nothing and succeeds, no
    failure stops the stage: every command is checked, in order, and the
    stage returns success with neither error text nor exit code, whatever
    the stage's own [allow_failure]. *)
Theorem runStage_sequential_tolerant
        (W : Type) (run : CommandConfig.t -> W -> RunOutcome * W)
        (outcomeOf : nat -> RunOutcome) (completionOrder : list nat)
        (stage : StageConfig.t) (stageName : string)
        (commands : list CommandConfig.t) (w : W)
        (Hsequential : StageConfig.parallel stage = false)
        (Hcommands : commands <> [])
        (Hdeps : forall c, In c commands ->
                           CommandConfig.allow_failure c = true
                           \/ areDependenciesSatisfied c [] = true)
        (Hruns : forall c w, In c commands ->
                             exists result w',
                               run c w = (Returned result, w')
                               /\ (success result = true
                                   \/ CommandConfig.allow_failure c = true)) :
  let R := runStage run outcomeOf completionOrder (Some stage) stageName commands w in
  checkedCommands (stage_events R) = commands
  /\ stage_outcome R
     = Returned (mkResult true (joinOutputs (commandResults (stage_events R))) None None).
Proof.
  intros R. subst R. unfold runStage. rewrite Hsequential.
  destruct commands as [|c rest]; [now elim Hcommands|].
  cbn [length Nat.eqb stage_events stage_outcome].
  destruct (runSequential_tolerant run (c :: rest) Hdeps Hruns EmptyString [] w)
    as [[out X] Y].
  split; [exact Y|].
  pose proof (runSequential_output run (c :: rest) EmptyString [] w) as O.
  rewrite X in O |- *. cbn [String.append] in O. now rewrite <- O.
Qed.

Lemma runStage_sequential_tolerant_witness :
  checkedCommands
    (stage_events
       (runStage
          (fun c (u : unit) =>
             (Returned (mkResult (negb (String.eqb (CommandConfig.command c) "exit 2"))
                                 (CommandConfig.command c) None None), u))
          (fun _ => Pending) []
          (Some (StageConfig.mk "ci" false false)) "ci"
          [exampleCommand "lint" "exit 2" true DepUndefined;
           exampleCommand "docs" "doc" true (DepString "missing");
           exampleCommand "build" "make" false DepUndefined]
          tt))
  = [exampleCommand "lint" "exit 2" true DepUndefined;
     exampleCommand "docs" "doc" true (DepString "missing");
     exampleCommand "build" "make" false DepUndefined]
  /\ stage_outcome
       (runStage
          (fun c (u : unit) =>
             (Returned (mkResult (negb (String.eqb (CommandConfig.command c) "exit 2"))
                                 (CommandConfig.command c) None None), u))
          (fun _ => Pending) []
          (Some (StageConfig.mk "ci" false false)) "ci"
          [exampleCommand "lint" "exit 2" true DepUndefined;
           exampleCommand "docs" "doc" true (DepString "missing");
           exampleCommand "build" "make" false DepUndefined]
          tt)
     = Returned
         (mkResult true
            (joinOutputs
               (commandResults
                  (stage_events
                     (runStage
                        (fun c (u : unit) =>
             (Returned (mkResult (negb (String.eqb (CommandConfig.command c) "exit 2"))
                                 (CommandConfig.command c) None None), u))
                        (fun _ => Pending) []
                        (Some (StageConfig.mk "ci" false false)) "ci"
                        [exampleCommand "lint" "exit 2" true DepUndefined;
                         exampleCommand "docs" "doc" true (DepString "missing");
                         exampleCommand "build" "make" false DepUndefined]
                        tt))))
            None None).
Proof.
  apply (runStage_sequential_tolerant unit
           (fun c (u : unit) =>
             (Returned (mkResult (negb (String.eqb (CommandConfig.command c) "exit 2"))
                                 (CommandConfig.command c) None None), u))
           (fun _ => Pending) []
           (StageConfig.mk "ci" false false) "ci"
           [exampleCommand "lint" "exit 2" true DepUndefined;
            exampleCommand "docs" "doc" true (DepString "missing");
            exampleCommand "build" "make" false DepUndefined]
           tt).
  - reflexivity.
  - discriminate.
  - intros c [<-|[<-|[<-|[]]]]; [left | left | right]; reflexivity.
  - intros c u [<-|[<-|[<-|[]]]].
    + eexists _, _. split; [reflexivity | right; reflexivity].
    + eexists _, _. split; [reflexivity | right; reflexivity].
    + eexists _, _. split; [reflexivity | left; reflexivity].
Defined.

(* ===================================================================== *)
(** ** runStage, parallel mode: the result                                 *)
(* ===================================================================== *)

Lemma parLaunch_executed (commands : list CommandConfig.t) (i : nat) (s : ParState) :
  par_executed (parLaunch commands i s) = par_executed s.
Proof.
  unfold parLaunch. destruct (nth_error commands i) as [c|]; [|reflexivity].
  destruct (negb (areDependenciesSatisfied c (par_executed s))); [|reflexivity].
  destruct (negb (CommandConfig.allow_failure c)); reflexivity.
Qed.

Lemma parLaunch_other (commands : list CommandConfig.t) (i j : nat) (s : ParState) :
  i <> j -> callbackState (parLaunch commands j s) i = callbackState s i.
Proof.
  intros N. apply Nat.eqb_neq in N. unfold parLaunch, callbackState.
  destruct (nth_error commands j) as [c|]; [|reflexivity].
  destruct (negb (areDependenciesSatisfied c (par_executed s))).
  - destruct (negb (CommandConfig.allow_failure c)); simpl; now rewrite N.
  - simpl. rewrite existsb_app. simpl. now rewrite N, !orb_false_r.
Qed.

Lemma parLaunch_same (commands : list CommandConfig.t) (i : nat) (s : ParState)
      (c : CommandConfig.t) :
  nth_error commands i = Some c ->
  par_executed s = [] ->
  callbackState (parLaunch commands i s) i
  = if areDependenciesSatisfied c []
    then (true, lookupNat i (par_settled s))
    else (existsb (Nat.eqb i) (par_running s), Some (unsatisfiedResult c)).
Proof.
  intros C E. unfold parLaunch, callbackState, unsatisfiedResult. rewrite C, E.
  destruct (areDependenciesSatisfied c []); cbn [negb].
  - simpl. rewrite existsb_app. simpl. now rewrite Nat.eqb_refl, orb_true_r.
  - destruct (CommandConfig.allow_failure c); simpl; now rewrite Nat.eqb_refl.
Qed.

Lemma launches_executed (commands : list CommandConfig.t) (l : list nat) :
  forall s,
    par_executed (fold_left (fun s i => parLaunch commands i s) l s) = par_executed s.
Proof.
  induction l as [|j l IH]; intros s; [reflexivity|].
  simpl. rewrite IH. apply parLaunch_executed.
Qed.

Lemma launches_other (commands : list CommandConfig.t) (i : nat) (l : list nat) :
  ~ In i l ->
  forall s,
    callbackState (fold_left (fun s i => parLaunch commands i s) l s) i
    = callbackState s i.
Proof.
  induction l as [|j l IH]; intros NI s; [reflexivity|].
  simpl. rewrite IH by (intros I; apply NI; now right).
  apply parLaunch_other. intros E. apply NI. now left.
Qed.

Lemma launches_same (commands : list CommandConfig.t) (i : nat) (c : CommandConfig.t)
      (l : list nat) :
  nth_error commands i = Some c ->
  NoDup l -> In i l ->
  forall s,
    par_executed s = [] ->
    callbackState s i = (false, None) ->
    callbackState (fold_left (fun s i => parLaunch commands i s) l s) i
    = if areDependenciesSatisfied c []
      then (true, None)
      else (false, Some (unsatisfiedResult c)).
Proof.
  intros C ND. induction ND as [|j l NI ND IH]; intros I s E X; [contradiction|].
  simpl. destruct (Nat.eq_dec j i) as [->|N].
  - rewrite launches_other by exact NI.
    rewrite (parLaunch_same _ _ _ _ C E).
    unfold callbackState in X. injection X as X1 X2. now rewrite X1, X2.
  - destruct I as [I|I]; [now elim N|].
    apply IH; [exact I | now rewrite parLaunch_executed |].
    rewrite parLaunch_other by (intros Q; now apply N). exact X.
Qed.

Lemma existsb_removeNat_other (i j : nat) (l : list nat) :
  i <> j -> existsb (Nat.eqb i) (removeNat j l) = existsb (Nat.eqb i) l.
Proof.
  intros N. induction l as [|k l IH]; [reflexivity|].
  unfold removeNat in *. simpl. destruct (Nat.eqb j k) eqn:E; simpl.
  - apply Nat.eqb_eq in E. subst k.
    replace (Nat.eqb i j) with false by (symmetry; now apply Nat.eqb_neq).
    exact IH.
  - now rewrite IH.
Qed.

Lemma existsb_removeNat_same (i : nat) (l : list nat) :
  existsb (Nat.eqb i) (removeNat i l) = false.
Proof.
  induction l as [|k l IH]; [reflexivity|].
  unfold removeNat in *. simpl. destruct (Nat.eqb i k) eqn:E; simpl; [exact IH|].
  now rewrite E, IH.
Qed.

Lemma parComplete_other (outcomeOf : nat -> RunOutcome)
      (commands : list CommandConfig.t) (i j : nat) (s : ParState) :
  i <> j -> callbackState (parComplete outcomeOf commands j s) i = callbackState s i.
Proof.
  intros N. unfold parComplete, callbackState.
  destruct (nth_error commands j) as [c|]; [|reflexivity].
  destruct (existsb (Nat.eqb j) (par_running s)); [|reflexivity].
  destruct (outcomeOf j); [| |reflexivity]; simpl;
    rewrite (existsb_removeNat_other _ _ _ N);
    replace (Nat.eqb i j) with false by (symmetry; now apply Nat.eqb_neq);
    reflexivity.
Qed.

Lemma parComplete_same (outcomeOf : nat -> RunOutcome)
      (commands : list CommandConfig.t) (i : nat) (s : ParState) (c : CommandConfig.t) :
  nth_error commands i = Some c ->
  callbackState (parComplete outcomeOf commands i s) i
  = match callbackState s i with
    | (true, x) =>
        match startedResult c (outcomeOf i) with
        | Some r => (false, Some r)
        | None => (true, x)
        end
    | (false, x) => (false, x)
    end.
Proof.
  intros C. unfold parComplete, callbackState, startedResult. rewrite C.
  destruct (existsb (Nat.eqb i) (par_running s)) eqn:E; [|now rewrite E].
  destruct (outcomeOf i); simpl; rewrite ?existsb_removeNat_same, ?Nat.eqb_refl, ?E;
    reflexivity.
Qed.

Lemma completes_settled (outcomeOf : nat -> RunOutcome)
      (commands : list CommandConfig.t) (i : nat) (order : list nat) :
  forall s x,
    callbackState s i = (false, x) ->
    callbackState (fold_left (fun s i => parComplete outcomeOf commands i s) order s) i
    = (false, x).
Proof.
  induction order as [|j order IH]; intros s x X; [exact X|].
  simpl. apply IH. destruct (Nat.eq_dec i j) as [<-|N].
  - destruct (nth_error commands i) as [c|] eqn:C.
    + rewrite (parComplete_same _ _ _ _ _ C), X. reflexivity.
    + unfold parComplete. now rewrite C.
  - now rewrite parComplete_other.
Qed.

Lemma completes_running (outcomeOf : nat -> RunOutcome)
      (commands : list CommandConfig.t) (i : nat) (c : CommandConfig.t)
      (order : list nat) :
  nth_error commands i = Some c ->
  forall s x,
    callbackState s i = (true, x) ->
    callbackState (fold_left (fun s i => parComplete outcomeOf commands i s) order s) i
    = if existsb (Nat.eqb i) order
      then match startedResult c (outcomeOf i) with
           | Some r => (false, Some r)
           | None => (true, x)
           end
      else (true, x).
Proof.
  intros C. induction order as [|j order IH]; intros s x X; [exact X|].
  simpl. destruct (Nat.eq_dec i j) as [<-|N].
  - rewrite Nat.eqb_refl. simpl.
    pose proof (parComplete_same outcomeOf _ _ s _ C) as P. rewrite X in P.
    destruct (startedResult c (outcomeOf i)) as [r|].
    + now apply completes_settled.
    + rewrite (IH _ _ P). now destruct (existsb (Nat.eqb i) order).
  - replace (Nat.eqb i j) with false by (symmetry; now apply Nat.eqb_neq).
    simpl. apply IH. now rewrite parComplete_other.
Qed.

(** The promise at each index is settled with [settledResult], whatever the
    order of the completions. *)
Lemma runParallel_settled (outcomeOf : nat -> RunOutcome) (completionOrder : list nat)
      (commands : list CommandConfig.t) (i : nat) (c : CommandConfig.t) :
  nth_error commands i = Some c ->
  lookupNat i (par_settled (runParallel outcomeOf completionOrder commands))
  = settledResult outcomeOf completionOrder i c.
Proof.
  intros C. unfold runParallel, settledResult.
  assert (I : In i (seq 0 (length commands))).
  { apply in_seq. split; [lia|]. simpl. apply nth_error_Some. congruence. }
  pose proof (launches_same commands i c (seq 0 (length commands)) C
                            (seq_NoDup _ _) I initialPar eq_refl eq_refl) as L.
  set (launched := fold_left (fun s i => parLaunch commands i s)
                             (seq 0 (length commands)) initialPar) in *.
  destruct (areDependenciesSatisfied c []).
  - pose proof (completes_running outcomeOf commands i c completionOrder C _ _ L) as X.
    change (lookupNat i (par_settled ?s)) with (snd (callbackState s i)).
    rewrite X. destruct (existsb (Nat.eqb i) completionOrder); [|reflexivity].
    now destruct (startedResult c (outcomeOf i)).
  - pose proof (completes_settled outcomeOf commands i completionOrder _ _ L) as X.
    change (lookupNat i (par_settled ?s)) with (snd (callbackState s i)).
    now rewrite X.
Qed.

Lemma promiseAll_settled (outcomeOf : nat -> RunOutcome) (completionOrder : list nat)
      (settled : list (nat * NamedResult)) (all : list CommandConfig.t) :
  (forall i c, nth_error all i = Some c ->
               lookupNat i settled = settledResult outcomeOf completionOrder i c) ->
  forall commands before,
    all = (before ++ commands)%list ->
    promiseAll settled (seq (length before) (length commands))
    = settledResults outcomeOf completionOrder (length before) commands.
Proof.
  intros H. induction commands as [|c rest IH]; intros before E; [reflexivity|].
  cbn [length seq promiseAll settledResults].
  rewrite (H (length before) c).
  - specialize (IH (before ++ [c])%list).
    rewrite length_app in IH. simpl in IH. rewrite Nat.add_1_r in IH.
    rewrite IH by (now rewrite <- app_assoc). reflexivity.
  - rewrite E, nth_error_app2 by lia. now rewrite Nat.sub_diag.
Qed.

(** The outcome of a parallel stage with at least one command. *)
Lemma runStage_parallel_outcome {W} (run : CommandConfig.t -> W -> RunOutcome * W)
      (outcomeOf : nat -> RunOutcome) (completionOrder : list nat)
      (stage : StageConfig.t) (stageName : string)
      (commands : list CommandConfig.t) (w : W) :
  StageConfig.parallel stage = true ->
  commands <> [] ->
  stage_outcome (runStage run outcomeOf completionOrder (Some stage) stageName commands w)
  = match settledResults outcomeOf completionOrder 0 commands with
    | Some results =>
        Returned (finishStage stage
                    (fst (processResults commands results true EmptyString))
                    (snd (processResults commands results true EmptyString)))
    | None => Pending
    end.
Proof.
  intros P N. unfold runStage. rewrite P.
  destruct commands as [|c rest]; [now elim N|].
  change (Nat.eqb (length (c :: rest)) 0) with false. cbv iota.
  pose proof (promiseAll_settled outcomeOf completionOrder _ (c :: rest)
                (fun i c' => runParallel_settled outcomeOf completionOrder (c :: rest) i c')
                (c :: rest) [] eq_refl) as Q.
  change (length (@nil CommandConfig.t)) with 0 in Q. rewrite Q.
  destruct (settledResults outcomeOf completionOrder 0 (c :: rest)) as [results|];
    [|reflexivity].
  now destruct (processResults (c :: rest) results true EmptyString).
Qed.

(** X6. A parallel stage with at least one command returns exactly when
    every command it started settles, and its result is then computed from
    the results taken in declaration order: a command is started exactly
    when the empty list satisfies its dependencies; a command that is not
    started counts as skipped (success) when it tolerates failure and as a
    dependency failure otherwise; a started command that throws counts as a
    failure carrying the error text.  While a started command has not
    settled the stage does not return. *)
Theorem runStage_parallel_result
        (W : Type) (run : CommandConfig.t -> W -> RunOutcome * W)
        (outcomeOf : nat -> RunOutcome) (completionOrder : list nat)
        (stage : StageConfig.t) (stageName : string)
        (commands : list CommandConfig.t) (w : W)
        (Hparallel : StageConfig.parallel stage = true)
        (Hcommands : commands <> []) :
  stage_outcome (runStage run outcomeOf completionOrder (Some stage) stageName commands w)
  = match settledResults outcomeOf completionOrder 0 commands with
    | Some results =>
        Returned (finishStage stage
                    (fst (processResults commands results true EmptyString))
                    (snd (processResults commands results true EmptyString)))
    | None => Pending
    end.
Proof.
  unfold runStage. rewrite Hparallel.
  destruct commands as [|c rest]; [now elim Hcommands|].
  change (Nat.eqb (length (c :: rest)) 0) with false. cbv iota.
  pose proof (promiseAll_settled outcomeOf completionOrder _ (c :: rest)
                (fun i c' => runParallel_settled outcomeOf completionOrder (c :: rest) i c')
                (c :: rest) [] eq_refl) as Q.
  change (length (@nil CommandConfig.t)) with 0 in Q. rewrite Q.
  destruct (settledResults outcomeOf completionOrder 0 (c :: rest)) as [results|];
    [|reflexivity].
  now destruct (processResults (c :: rest) results true EmptyString).
Qed.

Lemma runStage_parallel_result_witness :
  stage_outcome
    (runStage exampleRun
       (fun i => if Nat.eqb i 0 then Thrown "spawn failed"
                 else Returned (mkResult true "ok" None (Some (NumberCode 0))))
       [1; 0]
       (Some (StageConfig.mk "ci" false true)) "ci"
       [exampleCommand "build" "make" true DepUndefined;
        exampleCommand "lint" "check" false DepUndefined;
        exampleCommand "test" "check" true (DepString "build")]
       emptyState)
  = Returned
      (mkResult true
         (lf ++ "--- Command: build ---" ++ lf ++ lf
          ++ lf ++ "--- Command: lint ---" ++ lf ++ "ok" ++ lf
          ++ lf ++ "--- Command: test ---" ++ lf
          ++ "Command skipped due to unsatisfied dependencies: test" ++ lf)
         None None).
Proof.
  rewrite (runStage_parallel_result RunnerState exampleRun
             (fun i => if Nat.eqb i 0 then Thrown "spawn failed"
                       else Returned (mkResult true "ok" None (Some (NumberCode 0))))
             [1; 0] (StageConfig.mk "ci" false true) "ci"
             [exampleCommand "build" "make" true DepUndefined;
              exampleCommand "lint" "check" false DepUndefined;
              exampleCommand "test" "check" true (DepString "build")]
             emptyState).
  - vm_compute. reflexivity.
  - reflexivity.
  - discriminate.
Defined.

Lemma settledResult_same_completions (outcomeOf : nat -> RunOutcome)
      (order1 order2 : list nat) :
  (forall i, In i order1 <-> In i order2) ->
  forall i c, settledResult outcomeOf order1 i c = settledResult outcomeOf order2 i c.
Proof.
  intros H i c. unfold settledResult.
  replace (existsb (Nat.eqb i) order2) with (existsb (Nat.eqb i) order1); [reflexivity|].
  destruct (existsb (Nat.eqb i) order1) eqn:A; symmetry.
  - apply existsb_exists in A as [j [I E]]. apply Nat.eqb_eq in E. subst j.
    apply existsb_exists. exists i. split; [now apply H | apply Nat.eqb_refl].
  - destruct (existsb (Nat.eqb i) order2) eqn:B; [|reflexivity].
    apply existsb_exists in B as [j [I E]]. apply Nat.eqb_eq in E. subst j.
    assert (X : existsb (Nat.eqb i) order1 = true).
    { apply existsb_exists. exists i. split; [now apply H | apply Nat.eqb_refl]. }
    congruence.
Qed.

Lemma settledResults_same_completions (outcomeOf : nat -> RunOutcome)
      (order1 order2 : list nat) :
  (forall i, In i order1 <-> In i order2) ->
  forall commands i,
    settledResults outcomeOf order1 i commands
    = settledResults outcomeOf order2 i commands.
Proof.
  intros H. induction commands as [|c rest IH]; intros i; [reflexivity|].
  simpl. now rewrite IH, (settledResult_same_completions outcomeOf order1 order2 H).
Qed.

(** X7. The result of a parallel stage does not depend on the order in
    which its commands complete: two runs in which the same commands
    complete, with the same outcomes, return the same result, and either
    both return or neither does. *)
Theorem runStage_parallel_order_independent
        (W : Type) (run : CommandConfig.t -> W -> RunOutcome * W)
        (outcomeOf : nat -> RunOutcome) (order1 order2 : list nat)
        (stage : StageConfig.t) (stageName : string)
        (commands : list CommandConfig.t) (w : W)
        (Hparallel : StageConfig.parallel stage = true)
        (Hsame : forall i, In i order1 <-> In i order2) :
  stage_outcome (runStage run outcomeOf order1 (Some stage) stageName commands w)
  = stage_outcome (runStage run outcomeOf order2 (Some stage) stageName commands w).
Proof.
  destruct commands as [|c rest]; [reflexivity|].
  rewrite !runStage_parallel_outcome by (try exact Hparallel; discriminate).
  now rewrite (settledResults_same_completions outcomeOf order1 order2 Hsame).
Qed.

Lemma runStage_parallel_order_independent_witness :
  stage_outcome
    (runStage exampleRun
       (fun i => Returned (mkResult (Nat.eqb i 1) "out" None (Some (NumberCode 0))))
       [0; 1; 2]
       (Some (StageConfig.mk "ci" false true)) "ci"
       [exampleCommand "a" "one" false DepUndefined;
        exampleCommand "b" "two" false DepUndefined;
        exampleCommand "c" "three" true DepUndefined]
       emptyState)
  = stage_outcome
      (runStage exampleRun
         (fun i => Returned (mkResult (Nat.eqb i 1) "out" None (Some (NumberCode 0))))
         [2; 0; 1; 0]
         (Some (StageConfig.mk "ci" false true)) "ci"
         [exampleCommand "a" "one" false DepUndefined;
          exampleCommand "b" "two" false DepUndefined;
          exampleCommand "c" "three" true DepUndefined]
         emptyState).
Proof.
  apply (runStage_parallel_order_independent RunnerState exampleRun
           (fun i => Returned (mkResult (Nat.eqb i 1) "out" None (Some (NumberCode 0))))
           [0; 1; 2] [2; 0; 1; 0] (StageConfig.mk "ci" false true) "ci"
           [exampleCommand "a" "one" false DepUndefined;
            exampleCommand "b" "two" false DepUndefined;
            exampleCommand "c" "three" true DepUndefined]
           emptyState).
  - reflexivity.
  - intros i. simpl. intuition.
Defined.

Lemma parLaunch_nothing (commands : list CommandConfig.t) (i : nat) (s : ParState) :
  par_executed s = [] ->
  Forall checkedAgainstNothing (par_events s) ->
  Forall checkedAgainstNothing (par_events (parLaunch commands i s)).
Proof.
  intros E F. unfold parLaunch. destruct (nth_error commands i) as [c|]; [|exact F].
  rewrite E. destruct (areDependenciesSatisfied c []) eqn:D; cbn [negb].
  - cbn [par_events]. apply Forall_app. split; [exact F|].
    repeat constructor; simpl; auto.
  - destruct (CommandConfig.allow_failure c); cbn [negb settle par_events];
      (apply Forall_app; split; [exact F|]); repeat constructor; simpl; auto.
Qed.

Lemma parComplete_nothing (outcomeOf : nat -> RunOutcome)
      (commands : list CommandConfig.t) (i : nat) (s : ParState) :
  Forall checkedAgainstNothing (par_events s) ->
  Forall checkedAgainstNothing (par_events (parComplete outcomeOf commands i s)).
Proof.
  intros F. unfold parComplete. destruct (nth_error commands i) as [c|]; [|exact F].
  destruct (existsb (Nat.eqb i) (par_running s)); [|exact F].
  destruct (outcomeOf i); [| |exact F]; cbn [par_events];
    (apply Forall_app; split; [exact F|]); repeat constructor.
Qed.

Lemma runParallel_nothing (outcomeOf : nat -> RunOutcome) (completionOrder : list nat)
      (commands : list CommandConfig.t) :
  Forall checkedAgainstNothing (par_events (runParallel outcomeOf completionOrder commands)).
Proof.
  unfold runParallel.
  apply fold_left_inv; [intros; now apply parComplete_nothing|].
  apply (fold_left_inv
           (fun s => par_executed s = [] /\ Forall checkedAgainstNothing (par_events s))).
  - intros s i [E F]. split; [now rewrite parLaunch_executed | now apply parLaunch_nothing].
  - split; [reflexivity | constructor].
Qed.

Lemma dependsOn_nothing (command : CommandConfig.t) (name : string) :
  areDependenciesSatisfied command [] = true -> dependsOn command name = false.
Proof.
  intros A. destruct (dependsOn command name) eqn:D; [|reflexivity].
  apply areDependenciesSatisfied_iff with (name := name) in A; [contradiction | exact D].
Qed.

(** X8. In a parallel stage every dependency check is made against the
    empty list of executed commands, whatever the order in which the
    commands complete: all callbacks run up to their first [await] before
    any command settles.  So a command is started only if it names no
    dependency at all; a command that depends on a command of the same
    stage is never run. *)
Theorem runStage_parallel_dependencies
        (W : Type) (run : CommandConfig.t -> W -> RunOutcome * W)
        (outcomeOf : nat -> RunOutcome) (completionOrder : list nat)
        (stage : StageConfig.t) (stageName : string)
        (commands : list CommandConfig.t) (w : W)
        (Hparallel : StageConfig.parallel stage = true) :
  let R := runStage run outcomeOf completionOrder (Some stage) stageName commands w in
  (forall command snapshot satisfied,
      In (EvCheckDeps command snapshot satisfied) (stage_events R) ->
      snapshot = [] /\ satisfied = areDependenciesSatisfied command [])
  /\ (forall command name,
         In (EvStart command) (stage_events R) -> dependsOn command name = false)
  /\ (forall command name,
         dependsOn command name = true ->
         In command commands ->
         In (EvCheckDeps command [] false) (stage_events R)).
Proof.
  intros R.
  assert (E : stage_events R = []  /\ commands = []
              \/ stage_events R
                 = par_events (runParallel outcomeOf completionOrder commands)).
  { subst R. unfold runStage. rewrite Hparallel.
    destruct commands as [|c rest]; [now left | right].
    cbn [length Nat.eqb].
    destruct (promiseAll _ _) as [results|]; [|reflexivity].
    now destruct (processResults (c :: rest) results true EmptyString). }
  pose proof (runParallel_nothing outcomeOf completionOrder commands) as F.
  rewrite Forall_forall in F.
  split; [|split].
  - intros c snap ok I. destruct E as [[E _]|E]; rewrite E in I; [contradiction|].
    exact (F _ I).
  - intros c name I. destruct E as [[E _]|E]; rewrite E in I; [contradiction|].
    apply dependsOn_nothing. exact (F _ I).
  - intros c name D I. destruct E as [[_ E]|E]; [subst commands; contradiction|].
    rewrite E. clear E F R.
    apply In_nth_error in I as [i C].
    assert (A : areDependenciesSatisfied c [] = false).
    { destruct (areDependenciesSatisfied c []) eqn:A; [|reflexivity].
      rewrite (dependsOn_nothing c name A) in D. discriminate D. }
    unfold runParallel.
    apply (fold_left_inv (fun s => In (EvCheckDeps c [] false) (par_events s))).
    { intros s j H. unfold parComplete.
      destruct (nth_error commands j); [|exact H].
      destruct (existsb (Nat.eqb j) (par_running s)); [|exact H].
      destruct (outcomeOf j); [| |exact H]; cbn [par_events]; apply in_or_app; now left. }
    assert (I : In i (seq 0 (length commands))).
    { apply in_seq. split; [lia|]. simpl. apply nth_error_Some. congruence. }
    apply in_split in I as [l1 [l2 I]]. rewrite I, fold_left_app. cbn [fold_left].
    apply (fold_left_inv (fun s => In (EvCheckDeps c [] false) (par_events s))).
    { intros s j H. unfold parLaunch.
      destruct (nth_error commands j) as [c'|]; [|exact H].
      destruct (negb (areDependenciesSatisfied c' (par_executed s))).
      - destruct (negb (CommandConfig.allow_failure c')); cbn [settle par_events];
          apply in_or_app; now left.
      - cbn [par_events]. apply in_or_app; now left. }
    set (s1 := fold_left (fun s i => parLaunch commands i s) l1 initialPar).
    assert (X : par_executed s1 = []) by (subst s1; now rewrite launches_executed).
    clearbody s1. unfold parLaunch. rewrite C, X, A. cbn [negb].
    destruct (negb (CommandConfig.allow_failure c)); cbn [settle par_events];
      apply in_or_app; right; now left.
Qed.

Lemma runStage_parallel_dependencies_witness :
  In (EvCheckDeps (exampleCommand "test" "check" true (DepString "build")) [] false)
     (stage_events
        (runStage exampleRun
           (fun i => Returned (mkResult true "ok" None (Some (NumberCode 0)))) [0; 1]
           (Some (StageConfig.mk "ci" false true)) "ci"
           [exampleCommand "build" "make" false DepUndefined;
            exampleCommand "test" "check" true (DepString "build")]
           emptyState)).
Proof.
  destruct (runStage_parallel_dependencies RunnerState exampleRun
              (fun i => Returned (mkResult true "ok" None (Some (NumberCode 0)))) [0; 1]
              (StageConfig.mk "ci" false true) "ci"
              [exampleCommand "build" "make" false DepUndefined;
               exampleCommand "test" "check" true (DepString "build")]
              emptyState eq_refl) as [_ [_ H]].
  apply (H (exampleCommand "test" "check" true (DepString "build")) "build").
  - reflexivity.
  - right. now left.
Defined.

Lemma parComplete_executed_incl (outcomeOf : nat -> RunOutcome)
      (commands : list CommandConfig.t) (j : nat) (s : ParState) :
  incl (par_executed s) (par_executed (parComplete outcomeOf commands j s)).
Proof.
  unfold parComplete. destruct (nth_error commands j); [|apply incl_refl].
  destruct (existsb (Nat.eqb j) (par_running s)); [|apply incl_refl].
  destruct (outcomeOf j); try apply incl_refl.
  cbn [par_executed]. apply incl_appl, incl_refl.
Qed.

Lemma completes_executed_incl (outcomeOf : nat -> RunOutcome)
      (commands : list CommandConfig.t) (order : list nat) :
  forall s,
    incl (par_executed s)
         (par_executed (fold_left (fun s i => parComplete outcomeOf commands i s) order s)).
Proof.
  induction order as [|j order IH]; intros s; [apply incl_refl|].
  simpl. eapply incl_tran; [apply parComplete_executed_incl | apply IH].
Qed.

Lemma completes_pushed (outcomeOf : nat -> RunOutcome)
      (commands : list CommandConfig.t) (i : nat) (c : CommandConfig.t)
      (result : ExecutionResult) (order : list nat) :
  nth_error commands i = Some c ->
  outcomeOf i = Returned result ->
  In i order ->
  forall s x,
    callbackState s i = (true, x) ->
    In (CommandConfig.name c)
       (par_executed (fold_left (fun s i => parComplete outcomeOf commands i s) order s)).
Proof.
  intros C O. induction order as [|j order IH]; intros I s x X; [contradiction|].
  simpl. destruct (Nat.eq_dec i j) as [<-|N].
  - apply completes_executed_incl. unfold parComplete. rewrite C.
    unfold callbackState in X. injection X as X _. rewrite X, O.
    cbn [par_executed]. apply in_or_app. right. now left.
  - destruct I as [I|I]; [now elim N|].
    apply (IH I _ x). now rewrite parComplete_other.
Qed.

Lemma processResults_success (commands : list CommandConfig.t)
      (results : list NamedResult) :
  forallb (fun x => success (named_result x)) results = true ->
  forall stageSuccess combinedOutput,
    fst (processResults commands results stageSuccess combinedOutput) = stageSuccess.
Proof.
  induction results as [|x results IH]; intros F ok out; [reflexivity|].
  simpl in F. apply andb_prop in F as [F1 F2].
  cbn [processResults]. rewrite F1. cbn [negb andb]. now apply IH.
Qed.

Lemma settledResults_independent (outcomeOf : nat -> RunOutcome)
      (completionOrder : list nat) (all : list CommandConfig.t) :
  (forall i c, nth_error all i = Some c ->
               areDependenciesSatisfied c [] = true
               /\ In i completionOrder
               /\ exists result, outcomeOf i = Returned result /\ success result = true) ->
  forall commands before,
    all = (before ++ commands)%list ->
    exists results,
      settledResults outcomeOf completionOrder (length before) commands = Some results
      /\ map commandName results = map CommandConfig.name commands
      /\ forallb (fun x => success (named_result x)) results = true.
Proof.
  intros H. induction commands as [|c rest IH]; intros before E.
  - exists []. now repeat split.
  - destruct (H (length before) c) as [A [I [r [O S]]]].
    { rewrite E, nth_error_app2 by lia. now rewrite Nat.sub_diag. }
    destruct (IH (before ++ [c])%list) as [results [R [M F]]];
      [now rewrite <- app_assoc|].
    rewrite length_app in R. simpl in R. rewrite Nat.add_1_r in R.
    exists (mkNamed r (CommandConfig.name c) :: results).
    cbn [settledResults]. unfold settledResult. rewrite A, R, O.
    replace (existsb (Nat.eqb (length before)) completionOrder) with true.
    + simpl. rewrite M, S, F. now repeat split.
    + symmetry. apply existsb_exists. exists (length before).
      split; [exact I | apply Nat.eqb_refl].
Qed.

(** X9. A parallel stage whose commands name no dependency and all complete
    with success returns success, whatever the order of the completions: its
    output holds one section per command, in declaration order, and the name
    of every command ends up in [executedCommands]. *)
Theorem runStage_parallel_independent
        (W : Type) (run : CommandConfig.t -> W -> RunOutcome * W)
        (outcomeOf : nat -> RunOutcome) (completionOrder : list nat)
        (stage : StageConfig.t) (stageName : string)
        (commands : list CommandConfig.t) (w : W)
        (Hparallel : StageConfig.parallel stage = true)
        (Hcommands : commands <> [])
        (Hindependent : forall i c,
            nth_error commands i = Some c ->
            areDependenciesSatisfied c [] = true
            /\ In i completionOrder
            /\ exists result, outcomeOf i = Returned result /\ success result = true) :
  let R := runStage run outcomeOf completionOrder (Some stage) stageName commands w in
  (exists results,
      map commandName results = map CommandConfig.name commands
      /\ forallb (fun x => success (named_result x)) results = true
      /\ stage_outcome R
         = Returned (mkResult true
                              (snd (processResults commands results true EmptyString))
                              None None))
  /\ (forall c, In c commands -> In (CommandConfig.name c) (stage_executed R)).
Proof.
  intros R. split.
  - subst R. rewrite runStage_parallel_outcome by assumption.
    destruct (settledResults_independent outcomeOf completionOrder commands
                Hindependent commands [] eq_refl) as [results [X [M F]]].
    change (length (@nil CommandConfig.t)) with 0 in X. rewrite X.
    exists results. split; [exact M|]. split; [exact F|].
    rewrite (processResults_success _ _ F). reflexivity.
  - intros c I.
    assert (E : stage_executed R
                = par_executed (runParallel outcomeOf completionOrder commands)).
    { subst R. unfold runStage. rewrite Hparallel.
      destruct commands as [|c0 rest]; [now elim Hcommands|].
      cbn [length Nat.eqb].
      destruct (promiseAll _ _) as [results|]; [|reflexivity].
      now destruct (processResults (c0 :: rest) results true EmptyString). }
    rewrite E. apply In_nth_error in I as [i C].
    destruct (Hindependent i c C) as [A [O [r [Q _]]]].
    assert (I : In i (seq 0 (length commands))).
    { apply in_seq. split; [lia|]. simpl. apply nth_error_Some. congruence. }
    pose proof (launches_same commands i c (seq 0 (length commands)) C
                              (seq_NoDup _ _) I initialPar eq_refl eq_refl) as L.
    rewrite A in L. unfold runParallel.
    exact (completes_pushed outcomeOf commands i c r completionOrder C Q O _ _ L).
Qed.

Lemma runStage_parallel_independent_witness :
  In "b"
     (stage_executed
        (runStage exampleRun
           (fun i => Returned (mkResult true "out" None (Some (NumberCode 0))))
           [2; 0; 1]
           (Some (StageConfig.mk "ci" false true)) "ci"
           [exampleCommand "a" "one" false DepUndefined;
            exampleCommand "b" "two" false DepUndefined;
            exampleCommand "c" "three" false (DepArray [])]
           emptyState)).
Proof.
  destruct (runStage_parallel_independent RunnerState exampleRun
              (fun i => Returned (mkResult true "out" None (Some (NumberCode 0))))
              [2; 0; 1] (StageConfig.mk "ci" false true) "ci"
              [exampleCommand "a" "one" false DepUndefined;
               exampleCommand "b" "two" false DepUndefined;
               exampleCommand "c" "three" false (DepArray [])]
              emptyState) as [_ H].
  - reflexivity.
  - discriminate.
  - intros i c C.
    destruct i as [|[|[|i]]]; simpl in C; try (destruct i; discriminate C);
      injection C as <-; (split; [reflexivity|]); (split; [simpl; tauto|]);
      eexists; split; reflexivity.
  - apply (H (exampleCommand "b" "two" false DepUndefined)). right. now left.
Defined.

(** The order of the completions is seen in [executedCommands] only. *)
Example runStage_parallel_executed_order :
  stage_executed
    (runStage exampleRun
       (fun i => Returned (mkResult true "out" None (Some (NumberCode 0))))
       [2; 0; 1]
       (Some (StageConfig.mk "ci" false true)) "ci"
       [exampleCommand "a" "one" false DepUndefined;
        exampleCommand "b" "two" false DepUndefined;
        exampleCommand "c" "three" false (DepArray [])]
       emptyState)
  = ["c"; "a"; "b"].
Proof. vm_compute. reflexivity. Qed.

(* ===================================================================== *)
(** ** runStage: a stage that tolerates failure                            *)
(* ===================================================================== *)

Lemma processResults_output (commands : list CommandConfig.t)
      (results : list NamedResult) :
  forall stageSuccess combinedOutput,
    snd (processResults commands results stageSuccess combinedOutput)
    = combinedOutput ++ joinSections results.
Proof.
  induction results as [|x results IH]; intros ok out.
  - simpl. now rewrite str_app_nil_r.
  - cbn [processResults joinSections]. rewrite IH.
    now rewrite !str_app_assoc.
Qed.

(** Every promise of a parallel stage is settled once every command that
    was started has completed with a result or an error. *)
Lemma settledResults_settled (outcomeOf : nat -> RunOutcome) (completionOrder : list nat)
      (commands : list CommandConfig.t) :
  forall i,
    (forall j c,
        nth_error commands j = Some c ->
        areDependenciesSatisfied c [] = true ->
        In (i + j) completionOrder /\ outcomeOf (i + j) <> Pending) ->
    exists results, settledResults outcomeOf completionOrder i commands = Some results.
Proof.
  induction commands as [|c rest IH]; intros i H; [now exists []|].
  cbn [settledResults].
  destruct (IH (S i)) as [rs ->].
  { intros j c' C A. replace (S i + j) with (i + S j) by lia.
    exact (H (S j) c' C A). }
  unfold settledResult.
  destruct (areDependenciesSatisfied c []) eqn:A; [|eauto].
  destruct (H 0 c eq_refl A) as [I N]. rewrite Nat.add_0_r in I, N.
  assert (X : existsb (Nat.eqb i) completionOrder = true).
  { apply existsb_exists. exists i. split; [exact I | apply Nat.eqb_refl]. }
  rewrite X. unfold startedResult.
  destruct (outcomeOf i); [eauto | eauto | now elim N].
Qed.

(** How the sequential loop is left, read from the last event. *)
Lemma runSequential_exit {W} (run : CommandConfig.t -> W -> RunOutcome * W)
      (commands : list CommandConfig.t) :
  forall combined executed w,
    match seq_exit (runSequential run commands combined executed w) with
    | LoopDone _ _ => True
    | LoopReturn r =>
        exists pre command snapshot,
          seq_events (runSequential run commands combined executed w)
          = (pre ++ [EvCheckDeps command snapshot false])%list
          /\ CommandConfig.allow_failure command = false
          /\ r = dependencyFailure (output r) command
    | LoopThrown e =>
        exists pre command,
          seq_events (runSequential run commands combined executed w)
          = (pre ++ [EvSettled command (Thrown e)])%list
    | LoopPending =>
        exists pre command,
          seq_events (runSequential run commands combined executed w)
          = (pre ++ [EvStart command])%list
    end.
Proof.
  induction commands as [|c rest IH]; intros combined executed w; [exact I|].
  seq_step run.
  - exact I.
  - specialize (IH (combined ++ output result ++ lf)
                   (executed ++ [CommandConfig.name c])%list w1).
    destruct (seq_exit _) as [ok out | r | e |]; [exact I | | |].
    + destruct IH as [pre [c' [snap [E [A Q]]]]].
      exists ([EvCheckDeps c executed true; EvStart c; EvSettled c (Returned result);
               EvPush (CommandConfig.name c); EvPause 500] ++ pre)%list, c', snap.
      rewrite E. now repeat split.
    + destruct IH as [pre [c' E]].
      exists ([EvCheckDeps c executed true; EvStart c; EvSettled c (Returned result);
               EvPush (CommandConfig.name c); EvPause 500] ++ pre)%list, c'.
      now rewrite E.
    + destruct IH as [pre [c' E]].
      exists ([EvCheckDeps c executed true; EvStart c; EvSettled c (Returned result);
               EvPush (CommandConfig.name c); EvPause 500] ++ pre)%list, c'.
      now rewrite E.
  - now exists [EvCheckDeps c executed true; EvStart c], c.
  - now exists [EvCheckDeps c executed true], c.
  - specialize (IH combined executed w).
    destruct (seq_exit _) as [ok out | r | e |]; [exact I | | |].
    + destruct IH as [pre [c' [snap [E [A Q]]]]].
      exists (EvCheckDeps c executed false :: pre), c', snap.
      rewrite E. now repeat split.
    + destruct IH as [pre [c' E]].
      exists (EvCheckDeps c executed false :: pre), c'. now rewrite E.
    + destruct IH as [pre [c' E]].
      exists (EvCheckDeps c executed false :: pre), c'. now rewrite E.
  - exists [], c, executed. now repeat split.
Qed.



(** The same stage in parallel mode, where [test] and [deploy] fail their
    dependency check and [build] returns. *)
Example runStage_allow_failure_parallel :
  stage_outcome
    (runStage exampleRun
       (fun _ => Returned (mkResult true "made" None (Some (NumberCode 0)))) [0]
       (Some (StageConfig.mk "ci" true true)) "ci"
       [exampleCommand "build" "make" false DepUndefined;
        exampleCommand "test" "exit 2" false (DepString "build");
        exampleCommand "deploy" "ship" false (DepArray ["build"; "test"])]
       emptyState)
  = Returned (mkResult true
                (lf ++ "--- Command: build ---" ++ lf ++ "made" ++ lf
                 ++ lf ++ "--- Command: test ---" ++ lf ++ lf
                 ++ lf ++ "--- Command: deploy ---" ++ lf ++ lf)
                None None).
Proof. vm_compute. reflexivity. Qed.

(* ===================================================================== *)
(** ** processVariables: texts and values without a dollar sign            *)
(* ===================================================================== *)

Lemma option_map_None {A B} (f : A -> B) (o : option A) :
  option_map f o = None <-> o = None.
Proof. destruct o; simpl; split; intros H; try discriminate H; reflexivity. Qed.

Lemma indexOf_app_None (c : ascii) (a b : string) :
  indexOf c (a ++ b) = None <-> indexOf c a = None /\ indexOf c b = None.
Proof.
  induction a as [|x a IH]; simpl.
  - tauto.
  - destruct (Ascii.eqb x c).
    + split; [discriminate | intros [H _]; discriminate H].
    + now rewrite !option_map_None.
Qed.

Lemma matchAt_head (f : Form) (name : string) (c : ascii) (s rest : string) :
  matchAt f name (String c s) = Some rest -> c = "$"%char.
Proof.
  intros H. apply matchAt_prefix in H.
  destruct (patternText_head f name) as [tail T]. rewrite T in H.
  simpl in H. now injection H as -> _.
Qed.

Lemma matchAt_noDollar (f : Form) (name : string) (c : ascii) (s : string) :
  Ascii.eqb c "$" = false -> matchAt f name (String c s) = None.
Proof.
  intros N. destruct (matchAt f name (String c s)) as [rest|] eqn:M; [|reflexivity].
  apply matchAt_head in M. subst c. discriminate N.
Qed.

Lemma replaceFrom_prefix (f : Form) (name value : string) (pre s : string) :
  indexOf "$" pre = None ->
  forall before,
    replaceFrom f name value 0 before (pre ++ s)
    = pre ++ replaceFrom f name value 0 (before ++ pre) s.
Proof.
  induction pre as [|c pre IH]; intros H before.
  - simpl. now rewrite str_app_nil_r.
  - simpl in H. destruct (Ascii.eqb c "$") eqn:E; [discriminate|].
    assert (H' : indexOf "$" pre = None) by (destruct (indexOf "$" pre); [discriminate | reflexivity]).
    change (String c pre ++ s) with (String c (pre ++ s)).
    rewrite replaceFrom_miss by (now apply matchAt_noDollar).
    rewrite (IH H'). simpl. rewrite str_app_assoc. reflexivity.
Qed.

Lemma replaceFrom_noDollar (f : Form) (name value s : string) :
  indexOf "$" s = None ->
  forall before, replaceFrom f name value 0 before s = s.
Proof.
  intros H before.
  rewrite <- (str_app_nil_r s) at 1. rewrite (replaceFrom_prefix _ _ _ _ _ H).
  simpl. apply str_app_nil_r.
Qed.

Lemma replacePass_noDollar (f : Form) (vars : Variables) (s : string) :
  indexOf "$" s = None -> replacePass f vars s = s.
Proof.
  intros H. induction vars as [|[k v] vars IH]; [reflexivity|].
  unfold replacePass in *. simpl. unfold replaceAll.
  now rewrite (replaceFrom_noDollar _ _ _ _ H).
Qed.

(** X10. A text without a dollar sign is left as it is by the substitution,
    whatever the variables are. *)
Theorem processVariables_without_dollar
        (variables : Variables) (commandStr : string)
        (Hplain : plainVariables variables)
        (Hnone : indexOf "$" commandStr = None) :
  processVariables variables commandStr = commandStr.
Proof.
  unfold processVariables. rewrite (replacePass_noDollar Braced _ _ Hnone).
  exact (replacePass_noDollar Bare _ _ Hnone).
Qed.

Lemma processVariables_without_dollar_witness :
  processVariables [("HOME", "/root"); ("USER", "me")] "npm run build -- --out=dist"
  = "npm run build -- --out=dist".
Proof.
  apply (processVariables_without_dollar [("HOME", "/root"); ("USER", "me")]
           "npm run build -- --out=dist").
  - repeat constructor.
  - reflexivity.
Defined.

Lemma plainName_no_brace (k name rest1 rest2 : string) :
  plainName k = true -> plainName name = true ->
  k ++ "}" ++ rest1 = name ++ "}" ++ rest2 -> k = name.
Proof.
  revert name. induction k as [|a k IH]; intros name Pk Pn E.
  - destruct name as [|b name]; [reflexivity|].
    simpl in E. injection E as <- _. simpl in Pn. discriminate Pn.
  - destruct name as [|b name].
    + simpl in E. injection E as -> _. simpl in Pk. discriminate Pk.
    + simpl in E. injection E as -> E. simpl in Pk, Pn.
      apply andb_prop in Pk as [_ Pk]. apply andb_prop in Pn as [_ Pn].
      f_equal. now apply IH.
Qed.

Lemma matchAt_braced_other (k name post : string) :
  plainName k = true -> plainName name = true -> k <> name ->
  matchAt Braced k ("${" ++ name ++ "}" ++ post) = None.
Proof.
  intros Pk Pn N.
  destruct (matchAt Braced k ("${" ++ name ++ "}" ++ post)) as [rest|] eqn:M;
    [|reflexivity].
  apply matchAt_prefix in M. simpl in M. injection M as M.
  rewrite str_app_assoc in M. symmetry in M.
  now apply plainName_no_brace in M.
Qed.

Lemma plainName_noDollar (name : string) :
  plainName name = true -> indexOf "$" name = None.
Proof.
  induction name as [|c name IH]; [reflexivity|].
  simpl. intros P. apply andb_prop in P as [C P].
  destruct (Ascii.eqb c "$") eqn:E.
  - apply Ascii.eqb_eq in E. subst c. discriminate C.
  - now rewrite (IH P).
Qed.

(** One braced reference in a text that has no other dollar sign. *)
Lemma replaceAll_braced_here (name value pre post : string) :
  indexOf "$" pre = None -> indexOf "$" post = None -> indexOf "$" value = None ->
  replaceAll Braced name value (pre ++ "${" ++ name ++ "}" ++ post)
  = pre ++ value ++ post.
Proof.
  intros Hpre Hpost Hvalue. unfold replaceAll.
  rewrite (replaceFrom_prefix _ _ _ _ _ Hpre). f_equal.
  rewrite (replaceFrom_hit Braced name value _ _ post).
  - rewrite (getSubstitution_plain _ _ _ _ Hvalue).
    now rewrite (replaceFrom_noDollar _ _ _ _ Hpost).
  - unfold matchAt. change (patternText Braced name) with ("${" ++ name ++ "}").
    replace ("${" ++ name ++ "}" ++ post) with (("${" ++ name ++ "}") ++ post)
      by (simpl; now rewrite str_app_assoc).
    now rewrite stripPrefix_app.
Qed.

Lemma replaceAll_braced_other (k v name pre post : string) :
  plainName k = true -> plainName name = true -> k <> name ->
  indexOf "$" pre = None -> indexOf "$" post = None ->
  replaceAll Braced k v (pre ++ "${" ++ name ++ "}" ++ post)
  = pre ++ "${" ++ name ++ "}" ++ post.
Proof.
  intros Pk Pn N Hpre Hpost. unfold replaceAll.
  rewrite (replaceFrom_prefix _ _ _ _ _ Hpre). f_equal.
  change ("${" ++ name ++ "}" ++ post) with (String "$" ("{" ++ name ++ "}" ++ post)).
  rewrite replaceFrom_miss by (now apply matchAt_braced_other).
  f_equal. apply replaceFrom_noDollar.
  change ("{" ++ name ++ "}" ++ post) with (String "{" (name ++ String "}" post)).
  simpl. rewrite (proj2 (indexOf_app_None "$" name (String "}" post))); [reflexivity|].
  split; [now apply plainName_noDollar|]. simpl. now rewrite Hpost.
Qed.

Lemma replacePass_braced_lookup (vars : Variables) (name value pre post : string) :
  plainVariables vars -> plainName name = true ->
  getVariable name vars = Some value ->
  indexOf "$" pre = None -> indexOf "$" post = None -> indexOf "$" value = None ->
  replacePass Braced vars (pre ++ "${" ++ name ++ "}" ++ post) = pre ++ value ++ post.
Proof.
  intros Pv Pn G Hpre Hpost Hvalue.
  induction vars as [|[k v] vars IH]; [discriminate G|].
  inversion Pv as [|? ? Pk Pv']; subst. simpl in Pk.
  unfold replacePass in *. cbn [fold_left fst snd].
  simpl in G. destruct (String.eqb k name) eqn:E.
  - apply String.eqb_eq in E. subst k. injection G as ->.
    rewrite (replaceAll_braced_here _ _ _ _ Hpre Hpost Hvalue).
    apply (replacePass_noDollar Braced vars).
    apply indexOf_app_None. split; [exact Hpre|].
    apply indexOf_app_None. now split.
  - apply String.eqb_neq in E.
    rewrite (replaceAll_braced_other _ _ _ _ _ Pk Pn E Hpre Hpost).
    now apply IH.
Qed.

Lemma getVariable_In (name value : string) (vars : Variables) :
  getVariable name vars = Some value -> In (name, value) vars.
Proof.
  induction vars as [|[k v] vars IH]; [discriminate|].
  simpl. destruct (String.eqb k name) eqn:E.
  - apply String.eqb_eq in E. subst k. intros H. injection H as ->. now left.
  - intros H. right. now apply IH.
Qed.

Lemma processVariables_lookup_aux (variables : Variables) (name value pre post : string) :
  plainVariables variables ->
  getVariable name variables = Some value ->
  indexOf "$" pre = None -> indexOf "$" post = None -> indexOf "$" value = None ->
  processVariables variables (pre ++ "${" ++ name ++ "}" ++ post)
  = pre ++ value ++ post.
Proof.
  intros Hplain Hknown Hpre Hpost Hvalue.
  assert (Pn : plainName name = true).
  { apply getVariable_In in Hknown. unfold plainVariables in Hplain.
    rewrite Forall_forall in Hplain. exact (Hplain _ Hknown). }
  unfold processVariables.
  rewrite (replacePass_braced_lookup _ _ _ _ _ Hplain Pn Hknown Hpre Hpost Hvalue).
  apply replacePass_noDollar.
  apply indexOf_app_None. split; [exact Hpre|].
  apply indexOf_app_None. now split.
Qed.

(** X11. A braced reference to a known variable is replaced by the value
    stored for it: in a text that has no other dollar sign, and for a value
    without a dollar sign, the result is the text with the value in the
    place of the reference, whatever other variables are known. *)
Theorem processVariables_lookup
        (variables : Variables) (name value pre post : string)
        (Hplain : plainVariables variables)
        (Hknown : getVariable name variables = Some value)
        (Hpre : indexOf "$" pre = None)
        (Hpost : indexOf "$" post = None)
        (Hvalue : indexOf "$" value = None) :
  processVariables variables (pre ++ "${" ++ name ++ "}" ++ post)
  = pre ++ value ++ post.
Proof.
  assert (Pn : plainName name = true).
  { apply getVariable_In in Hknown. unfold plainVariables in Hplain.
    rewrite Forall_forall in Hplain. exact (Hplain _ Hknown). }
  unfold processVariables.
  rewrite (replacePass_braced_lookup _ _ _ _ _ Hplain Pn Hknown Hpre Hpost Hvalue).
  apply replacePass_noDollar.
  apply indexOf_app_None. split; [exact Hpre|].
  apply indexOf_app_None. now split.
Qed.

Lemma processVariables_lookup_witness :
  processVariables [("PROJECT", "niobium"); ("BUILD_ID", "42"); ("B", "x")]
                   ("echo build-" ++ "${" ++ "BUILD_ID" ++ "}" ++ ".tar")
  = "echo build-" ++ "42" ++ ".tar".
Proof.
  apply (processVariables_lookup [("PROJECT", "niobium"); ("BUILD_ID", "42"); ("B", "x")]
           "BUILD_ID" "42" "echo build-" ".tar").
  - repeat constructor.
  - reflexivity.
  - reflexivity.
  - reflexivity.
  - reflexivity.
Defined.

Lemma setVariable_plain (name value : string) (vars : Variables) :
  plainName name = true -> plainVariables vars ->
  plainVariables (setVariable name value vars).
Proof.
  intros Pn. induction vars as [|[k v] vars IH]; intros Pv; simpl.
  - now repeat constructor.
  - inversion Pv as [|? ? Pk Pv']; subst.
    destruct (String.eqb k name); constructor;
      [exact Pk | exact Pv' | exact Pk | exact (IH Pv')].
Qed.

Lemma fold_setVariable_plain (calls : list (string * string)) :
  Forall (fun call => plainName (fst call) = true) calls ->
  forall vars, plainVariables vars ->
    plainVariables (fold_left (fun vs call => setVariable (fst call) (snd call) vs)
                              calls vars).
Proof.
  induction 1 as [|c calls Pc _ IH]; intros vars Pv; [exact Pv|].
  simpl. apply IH. now apply setVariable_plain.
Qed.

(** X12. A value published by a command reaches the commands run after it:
    when the standard output of a command carries a marker for one of its
    declared output names with a non-empty value, a braced reference to
    that name is afterwards replaced by the value, trimmed (for a value
    without a dollar sign, in a text with no other dollar sign). *)
Theorem output_variable_propagates
        (command : CommandConfig.t) (stdout : string) (vars : Variables)
        (names : list string) (name m1 pre post : string)
        (Houtputs : CommandConfig.outputs command = Some names)
        (Hnames : Forall (fun n => plainName n = true) names)
        (Hdistinct : NoDup names)
        (Hplain : plainVariables vars)
        (Hdeclared : In name names)
        (Hmarker : matchSetOutput name stdout = Some m1)
        (Hvalue : m1 <> EmptyString)
        (Hclean : indexOf "$" (trim m1) = None)
        (Hpre : indexOf "$" pre = None)
        (Hpost : indexOf "$" post = None) :
  processVariables (extractOutputVariables command stdout vars)
                   (pre ++ "${" ++ name ++ "}" ++ post)
  = pre ++ trim m1 ++ post.
Proof.
  apply processVariables_lookup_aux; try assumption.
  - unfold extractOutputVariables. apply fold_setVariable_plain; [|exact Hplain].
    apply Forall_forall. intros call I.
    apply (in_setVariableCalls _ _ _ _ Houtputs) in I as [n [I E]].
    rewrite (extractOne_name _ _ _ E).
    rewrite Forall_forall in Hnames. now apply Hnames.
  - unfold extractOutputVariables. apply fold_setVariable_called.
    + now apply (setVariableCalls_NoDup command stdout names).
    + apply (in_setVariableCalls _ _ _ _ Houtputs). exists name.
      split; [exact Hdeclared|]. apply extractOne_Some. exists m1. now repeat split.
Qed.

Lemma output_variable_propagates_witness :
  processVariables
    (extractOutputVariables
       (CommandConfig.mk "generate-build-id" "date" None None [] false DepUndefined
                         (Some ["BUILD_ID"; "OTHER"]) None)
       ("start" ++ lf ++ "::set-output name=BUILD_ID::  42  " ++ lf ++ "end")
       [("BUILD_ID", "old"); ("TARGET", "all")])
    ("tar czf build-" ++ "${" ++ "BUILD_ID" ++ "}" ++ ".tgz .")
  = "tar czf build-" ++ trim "  42  " ++ ".tgz .".
Proof.
  apply (output_variable_propagates
           (CommandConfig.mk "generate-build-id" "date" None None [] false DepUndefined
                             (Some ["BUILD_ID"; "OTHER"]) None)
           ("start" ++ lf ++ "::set-output name=BUILD_ID::  42  " ++ lf ++ "end")
           [("BUILD_ID", "old"); ("TARGET", "all")]
           ["BUILD_ID"; "OTHER"] "BUILD_ID" "  42  " "tar czf build-" ".tgz .").
  - reflexivity.
  - repeat constructor.
  - repeat constructor; simpl; intuition discriminate.
  - repeat constructor.
  - now left.
  - vm_compute. reflexivity.
  - discriminate.
  - reflexivity.
  - reflexivity.
  - reflexivity.
Defined.

(* ===================================================================== *)
(** ** runCommand and saveOutputToFile: what is stored                     *)
(* ===================================================================== *)

Lemma commandFailed_variables (J : Type) (E : Env J) (X : RegExpEngine)
      (command : CommandConfig.t) (workspaceRoot : string) (e : CommandError)
      (st : RunnerState) :
  variables (snd (commandFailed E X command workspaceRoot e st)) = variables st
  /\ exists r, fst (commandFailed E X command workspaceRoot e st) = Returned r
               /\ success r = false
               /\ output r = orElse (err_stdout e) EmptyString
               /\ (output r = EmptyString ->
                   snd (commandFailed E X command workspaceRoot e st) = st).
Proof.
  unfold commandFailed. cbn [fst snd].
  destruct (nonEmpty (orElse (err_stdout e) EmptyString)) eqn:N.
  - split; [reflexivity|]. eexists. split; [reflexivity|]. split; [reflexivity|].
    split; [reflexivity|]. cbn [output]. intros Q. rewrite Q in N. discriminate N.
  - split; [reflexivity|]. eexists. split; [reflexivity|]. split; [reflexivity|].
    split; reflexivity.
Qed.

(** X13. A process task changes the variables on two paths only.  After a
    success they are the variables extracted from the standard output that
    the result carries, and no regular expression was rejected.  When the
    process has exited with code 0 and the regular expression built from a
    declared output name is rejected, the result is a failure and the
    variables are those stored for the names declared before it.  After any
    other failure the variables are what they were; when the task throws or
    never settles the whole state is what it was.  With declared output
    names made of word characters a failure never changes the variables,
    and a failure without any output never writes a file. *)
Theorem runCommand_variables
        (J : Type) (E : Env J) (X : RegExpEngine) (command : CommandConfig.t)
        (workspaceRoot : string) (st : RunnerState)
        (Hprocess : truthy (CommandConfig.image command) = false) :
  let after := snd (runCommand E X command workspaceRoot st) in
  match fst (runCommand E X command workspaceRoot st) with
  | Returned r =>
      if success r then
        General.extractOutputVariables X command (output r) (variables st)
        = (variables after, None)
      else
        variables after = variables st
        \/ exists request stdout stderr killRequested e,
            spawnRequestOf E X command workspaceRoot st = Ok request
            /\ spawn E request = ProcClose (Some 0%Z) stdout stderr killRequested
            /\ General.extractOutputVariables X command stdout (variables st)
               = (variables after, Some e)
            /\ r = resultOfRejectedOutput e
  | _ => after = st
  end
  /\ ((forall names, CommandConfig.outputs command = Some names ->
                     Forall (fun n => plainName n = true) names) ->
      forall r,
        fst (runCommand E X command workspaceRoot st) = Returned r ->
        success r = false ->
        variables after = variables st)
  /\ (forall r,
         fst (runCommand E X command workspaceRoot st) = Returned r ->
         success r = false -> output r = EmptyString ->
         fileSystem after = fileSystem st).
Proof.
  intros after. subst after. unfold runCommand. rewrite Hprocess.
  destruct (spawnRequestOf E X command workspaceRoot st) as [request|e0] eqn:Rq.
  2: { cbn [fst snd]. split; [reflexivity|]. split; intros; discriminate. }
  destruct (shouldIgnorePath E (cwdOf E command workspaceRoot) workspaceRoot).
  { cbn [fst snd success]. split; [now left|]. split; intros; reflexivity. }
  assert (F : forall e,
             let run := commandFailed E X command workspaceRoot e st in
             exists r,
               fst run = Returned r /\ success r = false
               /\ variables (snd run) = variables st
               /\ (output r = EmptyString -> fileSystem (snd run) = fileSystem st)).
  { intros e run. subst run.
    destruct (commandFailed_variables J E X command workspaceRoot e st)
      as [V [r [R [S [_ Q]]]]].
    exists r. repeat split; [exact R | exact S | exact V |].
    intros O. now rewrite (Q O). }
  destruct (spawn E request) as [code stdout stderr k | message ecode] eqn:Sp.
  2: { destruct (F (mkError ("Error: " ++ message) ecode None None))
         as [r [R [S [V Q]]]].
       rewrite R, S. split; [now left|]. split.
       - intros _ r' _ _. exact V.
       - intros r' H _ O. injection H as <-. exact (Q O). }
  destruct (k && jobOutputService E).
  { cbn [fst snd]. split; [reflexivity|]. split; intros; discriminate. }
  destruct code as [[|n|n]|];
    try (match goal with
         | |- context [commandFailed E X command workspaceRoot ?e st] =>
             destruct (F e) as [r [R [S [V Q]]]]
         end;
         rewrite R, S; split; [now left|]; split;
         [ intros _ r' _ _; exact V
         | intros r' H _ O; injection H as <-; exact (Q O) ]).
  destruct (General.extractOutputVariables X command stdout (variables st))
    as [vars1 [e|]] eqn:Q.
  - unfold commandFailed. cbn [err_stdout err_stderr err_text err_code].
    change (orElse None EmptyString) with EmptyString.
    cbn [nonEmpty fst snd success output variables fileSystem].
    split; [|split].
    + right. exists request, stdout, stderr, k, e. now repeat split.
    + intros P r' _ _. rewrite (extractOutputVariables_plain X command stdout _ P) in Q.
      discriminate Q.
    + intros; reflexivity.
  - cbn [fst snd success output saveOutput variables].
    split; [exact Q|]. split.
    + intros _ r' H D. injection H as <-. discriminate D.
    + intros r' H D _. injection H as <-. discriminate D.
Qed.

Lemma runCommand_variables_witness :
  variables
    (snd (runCommand
            (referenceEnv (fun _ => ProcClose (Some 1%Z) "::set-output name=ID::7" "boom" false)
                          false)
            referenceEngine
            (CommandConfig.mk "id" "make id" None None [] false DepUndefined
                              (Some ["ID"]) None)
            "/ws" (mkState [("ID", "old")] (mkFs [] []))))
  = [("ID", "old")].
Proof.
  destruct (runCommand_variables Json
              (referenceEnv (fun _ => ProcClose (Some 1%Z) "::set-output name=ID::7" "boom" false)
                            false)
              referenceEngine
              (CommandConfig.mk "id" "make id" None None [] false DepUndefined
                                (Some ["ID"]) None)
              "/ws" (mkState [("ID", "old")] (mkFs [] [])) eq_refl) as [_ [Plain _]].
  apply (Plain
           ltac:(intros names Q; injection Q as <-; repeat constructor)
           (mkResult false "::set-output name=ID::7" (Some "boom") (Some (NumberCode 1))));
    reflexivity.
Defined.

(** The output declared before a rejected name is stored, although the task
    is reported as failed; the same task with the names in the other order
    stores nothing. *)
Example runCommand_rejected_output :
  variables
    (snd (runCommand
            (referenceEnv (fun _ => ProcClose (Some 0%Z)
                                      ("::set-output name=A::7" ++ lf
                                       ++ "::set-output name=b(::8")
                                      EmptyString false) false)
            referenceEngine
            (CommandConfig.mk "ids" "make ids" None None [] false DepUndefined
                              (Some ["A"; "b("]) None)
            "/ws" emptyState))
  = [("A", "7")]
  /\ variables
       (snd (runCommand
               (referenceEnv (fun _ => ProcClose (Some 0%Z)
                                         ("::set-output name=A::7" ++ lf
                                          ++ "::set-output name=b(::8")
                                         EmptyString false) false)
               referenceEngine
               (CommandConfig.mk "ids" "make ids" None None [] false DepUndefined
                                 (Some ["b("; "A"]) None)
               "/ws" emptyState))
     = [].
Proof. split; vm_compute; reflexivity. Qed.





(* ===================================================================== *)
(** ** saveOutputToFile: the span handed to JSON.parse                     *)
(* ===================================================================== *)

Lemma takeStr_dropStr (n : nat) (s : string) : takeStr n s ++ dropStr n s = s.
Proof.
  revert s. induction n as [|n IH]; intros s; [reflexivity|].
  destruct s as [|c s]; [reflexivity|]. simpl. now rewrite IH.
Qed.

Lemma get_dropStr (n : nat) (s : string) (c : ascii) :
  String.get n s = Some c -> dropStr n s = String c (dropStr (S n) s).
Proof.
  revert s. induction n as [|n IH]; intros s; destruct s as [|a s]; simpl;
    try discriminate.
  - intros H. now injection H as ->.
  - intros H. now rewrite (IH _ H).
Qed.

Lemma takeStr_takeStr (m n : nat) (s : string) :
  m <= n -> takeStr m (takeStr n s) = takeStr m s.
Proof.
  revert n s. induction m as [|m IH]; intros n s L; [reflexivity|].
  destruct n as [|n]; [lia|]. destruct s as [|c s]; [reflexivity|].
  simpl. rewrite IH by lia. reflexivity.
Qed.

Lemma get_takeStr_length (n : nat) (s : string) (c : ascii) :
  String.get n s = Some c -> String.length (takeStr (S n) s) = S n.
Proof.
  revert s. induction n as [|n IH]; intros s; destruct s as [|a s]; simpl;
    try discriminate.
  - reflexivity.
  - intros H. f_equal. exact (IH _ H).
Qed.

Lemma lastChar_takeStr (n : nat) (s : string) (c : ascii) :
  String.get n s = Some c -> lastChar (takeStr (S n) s) = Some c.
Proof.
  revert s. induction n as [|n IH]; intros s; destruct s as [|a s]; simpl;
    try discriminate.
  - intros H. now injection H as ->.
  - intros H. specialize (IH _ H). destruct s as [|b s]; [destruct n; discriminate H|].
    exact IH.
Qed.

Lemma indexOf_takeStr (c : ascii) (n : nat) (s : string) :
  (forall i, indexOf c s = Some i -> n <= i) -> indexOf c (takeStr n s) = None.
Proof.
  revert s. induction n as [|n IH]; intros s H; [reflexivity|].
  destruct s as [|a s]; [reflexivity|]. simpl in *.
  destruct (Ascii.eqb a c).
  - specialize (H 0 eq_refl). lia.
  - rewrite IH; [reflexivity|]. intros i E. rewrite E in H.
    specialize (H (S i) eq_refl). lia.
Qed.

(** The scan starts at or before the first brace and the first bracket. *)
Lemma jsonStartPos_first (output : string) :
  exists p,
    jsonStartPos output = Z.of_nat p
    /\ indexOf "{" (takeStr p output) = None
    /\ indexOf "[" (takeStr p output) = None.
Proof.
  unfold jsonStartPos, indexOfZ.
  destruct (indexOf "{" output) as [i|] eqn:B;
    destruct (indexOf "[" output) as [j|] eqn:K.
  - rewrite Z.max_r by lia.
    replace (Z.of_nat j =? -1)%Z with false by (symmetry; apply Z.eqb_neq; lia).
    replace (Z.of_nat i =? -1)%Z with false by (symmetry; apply Z.eqb_neq; lia).
    cbn [negb andb]. rewrite orb_false_r.
    destruct (Z.ltb_spec (Z.of_nat j) (Z.of_nat i)) as [L|L].
    + exists j. split; [reflexivity|].
      split; apply indexOf_takeStr; intros x E; rewrite ?B, ?K in E;
        injection E as <-; lia.
    + exists i. split; [reflexivity|].
      split; apply indexOf_takeStr; intros x E; rewrite ?B, ?K in E;
        injection E as <-; lia.
  - rewrite Z.max_r by lia. cbn [Z.eqb negb andb].
    exists i. split; [reflexivity|].
    split; apply indexOf_takeStr; intros x E; rewrite ?B, ?K in E;
      [injection E as <-; lia | discriminate E].
  - change (Z.max 0 (-1)) with 0%Z.
    replace (Z.of_nat j <? 0)%Z with false by (symmetry; apply Z.ltb_ge; lia).
    cbn [Z.eqb orb]. rewrite andb_false_r.
    exists 0. now repeat split.
  - exists 0. now repeat split.
Qed.

(** The loop that counts the brackets, entered inside a span: it ends on the
    closer that brings the depth back to zero, and the depth is positive
    before. *)
Lemma findEndPos_span (startChar : option ascii) (opening closing : ascii) :
  opening <> closing ->
  (forall char,
      (Ascii.eqb char "{" && isChar startChar "{")
      || (Ascii.eqb char "[" && isChar startChar "[")
      = Ascii.eqb char opening) ->
  (forall char,
      (Ascii.eqb char "}" && isChar startChar "{")
      || (Ascii.eqb char "]" && isChar startChar "[")
      = Ascii.eqb char closing) ->
  forall s i depth,
    (1 <= depth)%Z ->
    findEndPos startChar s i depth <> (-1)%Z ->
    exists n,
      findEndPos startChar s i depth = (i + Z.of_nat n + 1)%Z
      /\ String.get n s = Some closing
      /\ (depth + depthOf opening closing (takeStr (S n) s) = 0)%Z
      /\ forall m, m <= n -> (0 < depth + depthOf opening closing (takeStr m s))%Z.
Proof.
  intros Hdiff Hopen Hclose.
  induction s as [|c s IH]; intros i depth D H; [now elim H|].
  cbn [findEndPos] in H |- *. rewrite Hopen, Hclose in H |- *.
  destruct (Ascii.eqb c opening) eqn:O.
  - destruct (IH (i + 1)%Z (depth + 1)%Z ltac:(lia) H) as [n [E [G [Z0 P]]]].
    exists (S n). split; [rewrite E; lia|]. split; [exact G|]. split.
    + cbn [takeStr depthOf] in Z0 |- *. rewrite O. lia.
    + intros [|m] L; [simpl; lia|]. cbn [takeStr depthOf]. rewrite O.
      specialize (P m ltac:(lia)). lia.
  - destruct (Ascii.eqb c closing) eqn:C.
    + destruct (Z.eqb_spec (depth - 1) 0) as [Q|Q].
      * exists 0. split; [lia|]. apply Ascii.eqb_eq in C. subst c.
        split; [reflexivity|]. split.
        -- cbn [takeStr depthOf]. rewrite O, Ascii.eqb_refl. lia.
        -- intros m L. replace m with 0 by lia. simpl. lia.
      * destruct (IH (i + 1)%Z (depth - 1)%Z ltac:(lia) H) as [n [E [G [Z0 P]]]].
        exists (S n). split; [rewrite E; lia|]. split; [exact G|]. split.
        -- cbn [takeStr depthOf] in Z0 |- *. rewrite O, C. lia.
        -- intros [|m] L; [simpl; lia|]. cbn [takeStr depthOf]. rewrite O, C.
           specialize (P m ltac:(lia)). lia.
    + destruct (IH _ _ D H) as [n [E [G [Z0 P]]]].
      exists (S n). split; [rewrite E; lia|]. split; [exact G|]. split.
      * cbn [takeStr depthOf] in Z0 |- *. rewrite O, C. lia.
      * intros [|m] L; [simpl; lia|]. cbn [takeStr depthOf]. rewrite O, C.
        specialize (P m ltac:(lia)). lia.
Qed.

(** The span found from an opening bracket at the start of the text. *)
Lemma findEndPos_from_opener (opening closing : ascii) (rest : string) (p : nat) :
  opening <> closing ->
  (forall char,
      (Ascii.eqb char "{" && isChar (Some opening) "{")
      || (Ascii.eqb char "[" && isChar (Some opening) "[")
      = Ascii.eqb char opening) ->
  (forall char,
      (Ascii.eqb char "}" && isChar (Some opening) "{")
      || (Ascii.eqb char "]" && isChar (Some opening) "[")
      = Ascii.eqb char closing) ->
  findEndPos (Some opening) (String opening rest) (Z.of_nat p) 0 <> (-1)%Z ->
  exists content after,
    String opening rest = content ++ after
    /\ Z.to_nat (findEndPos (Some opening) (String opening rest) (Z.of_nat p) 0)
       = p + String.length content
    /\ headChar content = Some opening
    /\ lastChar content = Some closing
    /\ depthOf opening closing content = 0%Z
    /\ forall m, 0 < m < String.length content ->
                 (0 < depthOf opening closing (takeStr m content))%Z.
Proof.
  intros Hdiff Hopen Hclose H.
  cbn [findEndPos] in H |- *. rewrite Hopen, Ascii.eqb_refl in H |- *.
  destruct (findEndPos_span (Some opening) opening closing Hdiff Hopen Hclose
              rest (Z.of_nat p + 1)%Z (0 + 1)%Z ltac:(lia) H) as [n [E [G [Z0 P]]]].
  exists (String opening (takeStr (S n) rest)), (dropStr (S n) rest).
  assert (L : String.length (String opening (takeStr (S n) rest)) = S (S n)).
  { cbn [String.length]. f_equal. exact (get_takeStr_length _ _ _ G). }
  split.
  { change (String opening (takeStr (S n) rest) ++ dropStr (S n) rest)
      with (String opening (takeStr (S n) rest ++ dropStr (S n) rest)).
    now rewrite takeStr_dropStr. }
  split; [rewrite E, L; lia|]. split; [reflexivity|]. split.
  - pose proof (lastChar_takeStr _ _ _ G) as Q.
    cbn [lastChar]. destruct (takeStr (S n) rest) eqn:T; [discriminate Q | exact Q].
  - split.
    + cbn [depthOf]. rewrite Ascii.eqb_refl. lia.
    + intros [|m] [M1 M2]; [lia|]. rewrite L in M2.
      change (takeStr (S m) (String opening (takeStr (S n) rest)))
        with (String opening (takeStr m (takeStr (S n) rest))).
      rewrite takeStr_takeStr by lia. cbn [depthOf]. rewrite Ascii.eqb_refl.
      specialize (P m ltac:(lia)). lia.
Qed.

Lemma takeStr_app_length (a b : string) : takeStr (String.length a) (a ++ b) = a.
Proof. induction a as [|c a IH]; simpl; [now destruct b | now rewrite IH]. Qed.

Lemma dropStr_takeStr_get (p : nat) (s : string) :
  String.get p s = None -> dropStr p s = EmptyString.
Proof.
  revert s. induction p as [|p IH]; intros s; destruct s as [|a s]; simpl;
    try reflexivity; try discriminate. apply IH.
Qed.

(** X16. The text handed to [JSON.parse] for a [.json] output file: when a
    span is extracted, it starts at the first brace or bracket of the
    output, whichever comes first, and it is the shortest text from there
    in which the brackets of that one kind are balanced: it starts with the
    opener, ends with the matching closer, its depth is zero, and the depth
    is positive after every shorter non-empty prefix.  Brackets of the other
    kind and quotation marks are not looked at. *)
Theorem jsonContent_balanced
        (output content : string)
        (Hfound : jsonContent output = Some content) :
  exists before after opening closing,
    output = before ++ content ++ after
    /\ ((opening = "{"%char /\ closing = "}"%char)
        \/ (opening = "["%char /\ closing = "]"%char))
    /\ indexOf "{" before = None
    /\ indexOf "[" before = None
    /\ headChar content = Some opening
    /\ lastChar content = Some closing
    /\ depthOf opening closing content = 0%Z
    /\ forall m, 0 < m < String.length content ->
                 (0 < depthOf opening closing (takeStr m content))%Z.
Proof.
  destruct (jsonStartPos_first output) as [p [Start [NB NK]]].
  unfold jsonContent in Hfound. rewrite Start in Hfound.
  replace (Z.of_nat p =? -1)%Z with false in Hfound
    by (symmetry; apply Z.eqb_neq; lia).
  cbn [negb] in Hfound. unfold charAt in Hfound.
  replace (Z.of_nat p <? 0)%Z with false in Hfound by (symmetry; apply Z.ltb_ge; lia).
  rewrite Nat2Z.id in Hfound.
  destruct (String.get p output) as [c|] eqn:G.
  - rewrite (get_dropStr _ _ _ G) in Hfound.
    pose proof (takeStr_dropStr p output) as Split.
    rewrite (get_dropStr _ _ _ G) in Split.
    set (rest := dropStr (S p) output) in *.
    assert (Span : forall opening closing,
               c = opening -> opening <> closing ->
               (forall char,
                   (Ascii.eqb char "{" && isChar (Some opening) "{")
                   || (Ascii.eqb char "[" && isChar (Some opening) "[")
                   = Ascii.eqb char opening) ->
               (forall char,
                   (Ascii.eqb char "}" && isChar (Some opening) "{")
                   || (Ascii.eqb char "]" && isChar (Some opening) "[")
                   = Ascii.eqb char closing) ->
               exists after,
                 output = takeStr p output ++ content ++ after
                 /\ headChar content = Some opening
                 /\ lastChar content = Some closing
                 /\ depthOf opening closing content = 0%Z
                 /\ forall m, 0 < m < String.length content ->
                              (0 < depthOf opening closing (takeStr m content))%Z).
    { intros opening closing -> Hdiff Hopen Hclose.
      remember (findEndPos (Some opening) (String opening rest) (Z.of_nat p) 0)
        as e eqn:He.
      destruct (Z.eqb_spec e (-1)) as [Q|Q]; cbn [negb] in Hfound;
        [discriminate Hfound|].
      injection Hfound as Hfound. rewrite He in Q.
      destruct (findEndPos_from_opener opening closing rest p Hdiff Hopen Hclose Q)
        as [content' [after [E [X [Hh [Hl [Hd Hp]]]]]]].
      rewrite <- He in X. unfold jsSubstring in Hfound.
      rewrite X in Hfound. rewrite <- Split in Hfound at 1.
      assert (D : dropStr p (takeStr p output ++ String opening rest)
                  = String opening rest).
      { rewrite Split. exact (get_dropStr _ _ _ G). }
      rewrite D, E in Hfound.
      replace (p + String.length content' - p) with (String.length content') in Hfound
        by lia.
      rewrite takeStr_app_length in Hfound. subst content'.
      exists after. rewrite <- E. split; [now rewrite Split|]. now repeat split. }
    destruct (Ascii.eqb c "{") eqn:B.
    + apply Ascii.eqb_eq in B.
      destruct (Span "{"%char "}"%char B ltac:(discriminate)) as [after X].
      * intros char. simpl. now rewrite andb_true_r, andb_false_r, orb_false_r.
      * intros char. simpl. now rewrite andb_true_r, andb_false_r, orb_false_r.
      * exists (takeStr p output), after, "{"%char, "}"%char.
        destruct X as [X1 X2]. split; [exact X1|]. split; [now left|].
        split; [exact NB|]. split; [exact NK | exact X2].
    + destruct (Ascii.eqb c "[") eqn:K.
      * apply Ascii.eqb_eq in K.
        destruct (Span "["%char "]"%char K ltac:(discriminate)) as [after X].
        -- intros char. simpl. now rewrite andb_true_r, andb_false_r.
        -- intros char. simpl. now rewrite andb_true_r, andb_false_r.
        -- exists (takeStr p output), after, "["%char, "]"%char.
           destruct X as [X1 X2]. split; [exact X1|]. split; [now right|].
           split; [exact NB|]. split; [exact NK | exact X2].
      * rewrite findEndPos_other in Hfound; [discriminate Hfound | exact B | exact K].
  - rewrite findEndPos_other in Hfound; [discriminate Hfound | reflexivity | reflexivity].
Qed.

Lemma jsonContent_balanced_witness :
  exists before after opening closing,
    "done {a:[1,{}]} } tail" = before ++ "{a:[1,{}]}" ++ after
    /\ ((opening = "{"%char /\ closing = "}"%char)
        \/ (opening = "["%char /\ closing = "]"%char))
    /\ indexOf "{" before = None
    /\ indexOf "[" before = None
    /\ headChar "{a:[1,{}]}" = Some opening
    /\ lastChar "{a:[1,{}]}" = Some closing
    /\ depthOf opening closing "{a:[1,{}]}" = 0%Z
    /\ forall m, 0 < m < String.length "{a:[1,{}]}" ->
                 (0 < depthOf opening closing (takeStr m "{a:[1,{}]}"))%Z.
Proof.
  apply (jsonContent_balanced "done {a:[1,{}]} } tail" "{a:[1,{}]}").
  vm_compute. reflexivity.
Defined.

(* ===================================================================== *)
(** ** The ports of a command                                              *)
(* ===================================================================== *)

Lemma pushPort_spec (ports : list Z) (port : option Z) :
  exists added,
    pushPort ports port = (ports ++ added)%list
    /\ (NoDup ports -> NoDup (pushPort ports port))
    /\ forall p, In p added -> (0 < p < 65536)%Z /\ port = Some p.
Proof.
  unfold pushPort. destruct port as [port|].
  - destruct ((0 <? port)%Z && (port <? 65536)%Z
              && negb (existsb (Z.eqb port) ports)) eqn:G.
    + apply andb_prop in G as [G N]. apply andb_prop in G as [L U].
      apply Z.ltb_lt in L. apply Z.ltb_lt in U. apply negb_true_iff in N.
      exists [port]. split; [reflexivity|]. split.
      * intros ND. apply NoDup_app; [exact ND | repeat constructor; intros [] |].
        intros y I [<-|[]]. apply existsb_Zeqb in I. congruence.
      * intros p [<-|[]]. split; [lia | reflexivity].
    + exists []. rewrite app_nil_r. split; [reflexivity|]. split; [auto|intros p []].
  - exists []. rewrite app_nil_r. split; [reflexivity|]. split; [auto|intros p []].
Qed.

Lemma pushPorts_spec {A} (read : A -> option Z) (matches : list A) :
  forall ports,
    exists added,
      fold_left (fun ports matched => pushPort ports (read matched)) matches ports
      = (ports ++ added)%list
      /\ (NoDup ports ->
          NoDup (fold_left (fun ports matched => pushPort ports (read matched))
                           matches ports))
      /\ forall p, In p added ->
                   (0 < p < 65536)%Z
                   /\ exists matched, In matched matches /\ read matched = Some p.
Proof.
  induction matches as [|m matches IH]; intros ports.
  - exists []. rewrite app_nil_r. split; [reflexivity|]. split; [auto|intros p []].
  - cbn [fold_left].
    destruct (pushPort_spec ports (read m)) as [a1 [E1 [N1 R1]]].
    destruct (IH (pushPort ports (read m))) as [a2 [E2 [N2 R2]]].
    exists (a1 ++ a2)%list. split; [rewrite E2, E1; now rewrite app_assoc|].
    split; [intros ND; apply N2, N1, ND|].
    intros p I. apply in_app_or in I as [I|I].
    + destruct (R1 p I) as [X Y]. split; [exact X|]. exists m. split; [now left | exact Y].
    + destruct (R2 p I) as [X [m' [I' Y]]]. split; [exact X|].
      exists m'. split; [now right | exact Y].
Qed.

Lemma takeDigitsUpTo_prefix (n : nat) (s : string) :
  exists rest, s = takeDigitsUpTo n s ++ rest.
Proof.
  revert s. induction n as [|n IH]; intros s; [now exists s|].
  destruct s as [|c s]; [now exists EmptyString|]. cbn [takeDigitsUpTo].
  destruct (isDigit c); [|now exists (String c s)].
  destruct (IH s) as [rest E]. exists rest. simpl. now rewrite <- E.
Qed.

Lemma takeDigitsUpTo_digits (n : nat) (s : string) :
  indexOf "=" (takeDigitsUpTo n s) = None.
Proof.
  revert s. induction n as [|n IH]; intros s; [reflexivity|].
  destruct s as [|c s]; [reflexivity|]. cbn [takeDigitsUpTo].
  destruct (isDigit c) eqn:D; [|reflexivity].
  cbn [indexOf]. destruct (Ascii.eqb c "=") eqn:E.
  - apply Ascii.eqb_eq in E. subst c. discriminate D.
  - now rewrite IH.
Qed.

(** What the pattern matches at a place: the keyword and the digits. *)
Lemma portAssignmentAt_Some (s matched : string) :
  portAssignmentAt s = Some matched ->
  exists key digits rest,
    (key = "PORT=" \/ key = "port=")
    /\ matched = key ++ digits
    /\ s = matched ++ rest
    /\ secondField matched = Some digits.
Proof.
  assert (K : forall key,
             (key = "PORT=" \/ key = "port=") ->
             match stripPrefix key s with
             | Some rest => option_map (fun digits => key ++ digits) (digits2to5 rest)
             | None => None
             end = Some matched ->
             exists key digits rest,
               (key = "PORT=" \/ key = "port=")
               /\ matched = key ++ digits
               /\ s = matched ++ rest
               /\ secondField matched = Some digits).
  { intros key Hk H.
    destruct (stripPrefix key s) as [rest|] eqn:P; [|discriminate H].
    apply stripPrefix_Some in P. unfold digits2to5 in H.
    destruct (takeDigitsUpTo_prefix 5 rest) as [rest' E].
    pose proof (takeDigitsUpTo_digits 5 rest) as N.
    remember (takeDigitsUpTo 5 rest) as digits eqn:Hd. clear Hd.
    destruct (Nat.leb 2 (String.length digits)); [|discriminate H].
    cbn [option_map] in H. injection H as <-.
    exists key, digits, rest'.
    split; [exact Hk|]. split; [reflexivity|]. split.
    - rewrite str_app_assoc, <- E. exact P.
    - unfold secondField. destruct Hk as [->| ->]; simpl; now rewrite N. }
  unfold portAssignmentAt.
  destruct (match stripPrefix "PORT=" s with
            | Some rest => option_map (fun digits => "PORT=" ++ digits) (digits2to5 rest)
            | None => None
            end) as [m|] eqn:U.
  - intros H. injection H as <-. apply (K "PORT="); [now left | exact U].
  - intros H. apply (K "port="); [now right | exact H].
Qed.

Lemma portAssignments_In (s : string) :
  forall skip matched,
    In matched (portAssignments skip s) ->
    exists pre post, s = pre ++ matched ++ post /\ portAssignmentAt (matched ++ post) = Some matched.
Proof.
  induction s as [|c s IH]; intros skip matched I; [contradiction|].
  cbn [portAssignments] in I. destruct skip as [|k].
  - destruct (portAssignmentAt (String c s)) as [m|] eqn:M.
    + destruct I as [<-|I].
      * destruct (portAssignmentAt_Some _ _ M) as [key [digits [rest [_ [_ [E _]]]]]].
        exists EmptyString, rest. split; [exact E | now rewrite <- E].
      * destruct (IH _ _ I) as [pre [post [E X]]].
        exists (String c pre), post. split; [simpl; now rewrite <- E | exact X].
    + destruct (IH _ _ I) as [pre [post [E X]]].
      exists (String c pre), post. split; [simpl; now rewrite <- E | exact X].
  - destruct (IH _ _ I) as [pre [post [E X]]].
    exists (String c pre), post. split; [simpl; now rewrite <- E | exact X].
Qed.

(** X17. The ports guessed from a command line are distinct and lie between
    1 and 65535; each of them is a default port of a known kind of command
    (5173 for [npm run dev] and [vite]; 5000, 3000, 8000 and 8080 for
    [npm run start] and [node server]) or is written in the command line
    after [PORT=] or [port=]. *)
Theorem detectPossiblePorts_ports (command : string) :
  NoDup (detectPossiblePorts command)
  /\ (forall port, In port (detectPossiblePorts command) -> (0 < port < 65536)%Z)
  /\ (forall port,
         In port (detectPossiblePorts command) ->
         In port [5173; 5000; 3000; 8000; 8080]%Z
         \/ exists key digits pre post,
             (key = "PORT=" \/ key = "port=")
             /\ command = pre ++ key ++ digits ++ post
             /\ parseInt10 digits = Some port).
Proof.
  unfold detectPossiblePorts.
  set (read := fun matched : string =>
                 match secondField matched with
                 | Some text => parseInt10 text
                 | None => None
                 end).
  set (defaults := (if includes command "npm run start" || includes command "node server"
                    then ((if includes command "npm run dev" || includes command "vite"
                           then [] ++ [5173%Z] else []) ++ [5000; 3000; 8000; 8080]%Z)
                    else (if includes command "npm run dev" || includes command "vite"
                          then [] ++ [5173%Z] else []))%list).
  assert (D : NoDup defaults
              /\ forall port, In port defaults -> In port [5173; 5000; 3000; 8000; 8080]%Z).
  { subst defaults.
    destruct (includes command "npm run start" || includes command "node server");
      destruct (includes command "npm run dev" || includes command "vite");
      simpl; (split; [repeat constructor; simpl; intuition discriminate | tauto]). }
  destruct D as [ND Known].
  destruct (pushPorts_spec read (portAssignments 0 command) defaults)
    as [added [E [N R]]].
  fold read. change (fold_left _ (portAssignments 0 command) _)
    with (fold_left (fun ports matched => pushPort ports (read matched))
                    (portAssignments 0 command) defaults).
  split; [exact (N ND)|]. rewrite E. split.
  - intros port I. apply in_app_or in I as [I|I].
    + apply Known in I. simpl in I.
      repeat (destruct I as [<-|I]; [lia|]). contradiction.
    + exact (proj1 (R port I)).
  - intros port I. apply in_app_or in I as [I|I]; [left; now apply Known | right].
    destruct (R port I) as [_ [matched [M P]]].
    destruct (portAssignments_In _ _ _ M) as [pre [post [C A]]].
    destruct (portAssignmentAt_Some _ _ A) as [key [digits [rest [K [Q [_ F]]]]]].
    exists key, digits, pre, post. split; [exact K|]. split.
    + rewrite C, Q. now rewrite str_app_assoc.
    + subst read. simpl in P. now rewrite F in P.
Qed.

(** A command line with a script name and explicit ports: the number after
    [PORT=] is read up to five digits, and a number out of range is not
    kept. *)
Example detectPossiblePorts_run :
  detectPossiblePorts "PORT=8080 npm run dev -- --port=3000 port=7 PORT=123456 PORT=99999"
  = [5173; 8080; 3000; 12345]%Z.
Proof. vm_compute. reflexivity. Qed.

(** X18. Scanning a chunk of standard output only adds ports to those
    detected so far: none is removed or reordered, the list stays free of
    repetitions, and every port added lies between 1 and 65535. *)
Theorem scanOutputPorts_ports
        (detectedPorts : list Z) (text : string)
        (Hdistinct : NoDup detectedPorts) :
  exists added,
    scanOutputPorts detectedPorts text = (detectedPorts ++ added)%list
    /\ NoDup (scanOutputPorts detectedPorts text)
    /\ forall port, In port added -> (0 < port < 65536)%Z.
Proof.
  unfold scanOutputPorts.
  set (read := fun matched : string =>
                 match firstDigits matched with
                 | Some digits => parseInt10 digits
                 | None => None
                 end).
  assert (X : forall matches ports,
             fold_left (fun ports matched =>
                          match firstDigits matched with
                          | Some digits => pushPort ports (parseInt10 digits)
                          | None => ports
                          end) matches ports
             = fold_left (fun ports matched => pushPort ports (read matched))
                         matches ports).
  { induction matches as [|m matches IH]; intros ports; [reflexivity|].
    cbn [fold_left]. rewrite IH. subst read. cbv beta.
    now destruct (firstDigits m). }
  rewrite X.
  destruct (pushPorts_spec read (outputPortMatches 0 text) detectedPorts)
    as [added [E [N R]]].
  exists added. split; [exact E|]. split; [exact (N Hdistinct)|].
  intros port I. exact (proj1 (R port I)).
Qed.

Lemma scanOutputPorts_ports_witness :
  exists added,
    scanOutputPorts [5173%Z]
      ("Server Listening on http://localhost:3000/ and Port : 8080" ++ lf
       ++ "vite running on 5173, bound to " ++ lf ++ "4000")
    = ([5173%Z] ++ added)%list
    /\ NoDup (scanOutputPorts [5173%Z]
                ("Server Listening on http://localhost:3000/ and Port : 8080" ++ lf
                 ++ "vite running on 5173, bound to " ++ lf ++ "4000"))
    /\ forall port, In port added -> (0 < port < 65536)%Z.
Proof.
  apply (scanOutputPorts_ports [5173%Z]
           ("Server Listening on http://localhost:3000/ and Port : 8080" ++ lf
            ++ "vite running on 5173, bound to " ++ lf ++ "4000")).
  repeat constructor. intros [].
Defined.

(** The ports read from that output: the keyword is found in any letter
    case, the digits are looked for on the line of the keyword only, and a
    port already known is not added again. *)
Example scanOutputPorts_run :
  scanOutputPorts [5173%Z]
    ("Server Listening on http://localhost:3000/ and Port : 8080" ++ lf
     ++ "vite running on 5173, bound to " ++ lf ++ "4000")
  = [5173; 3000; 8080]%Z.
Proof. vm_compute. reflexivity. Qed.

(* ===================================================================== *)
(** ** sanitizeDockerOutput                                                *)
(* ===================================================================== *)

Lemma isControlChar_kept (c : ascii) : isControlChar c = false -> isKeptChar c = true.
Proof.
  destruct c as [b0 b1 b2 b3 b4 b5 b6 b7].
  destruct b0, b1, b2, b3, b4, b5, b6, b7; vm_compute; intros H;
    try reflexivity; discriminate H.
Qed.

Lemma isCleanChar_plain (c : ascii) :
  isCleanChar c = true ->
  Ascii.eqb c (ascii_of_nat 27) = false
  /\ isControlChar c = false
  /\ Ascii.eqb c (ascii_of_nat 13) = false.
Proof.
  destruct c as [b0 b1 b2 b3 b4 b5 b6 b7].
  destruct b0, b1, b2, b3, b4, b5, b6, b7; vm_compute; intros H;
    try discriminate H; now repeat split.
Qed.

Lemma removeChars_allChars (p : ascii -> bool) (s : string) :
  allChars (fun c => negb (p c)) (removeChars p s) = true.
Proof.
  induction s as [|c s IH]; [reflexivity|].
  simpl. destruct (p c) eqn:E; [exact IH|]. simpl. now rewrite E.
Qed.

Lemma allChars_impl (p q : ascii -> bool) (s : string) :
  (forall c, p c = true -> q c = true) ->
  allChars p s = true -> allChars q s = true.
Proof.
  intros H. induction s as [|c s IH]; [reflexivity|].
  simpl. intros A. apply andb_prop in A as [A1 A2].
  now rewrite (H c A1), (IH A2).
Qed.

Lemma normalizeLineEndings_allChars (p : ascii -> bool) (s : string) :
  (allChars p s = true -> allChars p (normalizeLineEndings s) = true)
  /\ (forall c, allChars p (String c s) = true ->
                allChars p (normalizeLineEndings (String c s)) = true).
Proof.
  induction s as [|d rest [IH1 IH2]].
  - split; [reflexivity|]. intros c A. exact A.
  - split; [exact (IH2 d)|]. intros c A.
    cbn [normalizeLineEndings].
    cbn [allChars] in A. apply andb_prop in A as [A1 A2].
    destruct (Ascii.eqb c (ascii_of_nat 13) && Ascii.eqb d (ascii_of_nat 10)).
    + apply andb_prop in A2 as [A2 A3]. cbn [allChars]. now rewrite A2, (IH1 A3).
    + cbn [allChars]. rewrite A1. apply (IH2 d). exact A2.
Qed.

Lemma removeChars_keeps (p q : ascii -> bool) (s : string) :
  allChars p s = true -> allChars p (removeChars q s) = true.
Proof.
  induction s as [|c s IH]; [reflexivity|].
  cbn [allChars removeChars]. intros A. apply andb_prop in A as [A1 A2].
  destruct (q c); [exact (IH A2)|]. cbn [allChars]. now rewrite A1, (IH A2).
Qed.

Lemma isReplacementChar_never (c : ascii) : isReplacementChar c = false.
Proof.
  destruct c as [b0 b1 b2 b3 b4 b5 b6 b7].
  destruct b0, b1, b2, b3, b4, b5, b6, b7; reflexivity.
Qed.

Lemma removeReplacementChar_nothing (s : string) : removeChars isReplacementChar s = s.
Proof.
  induction s as [|c s IH]; [reflexivity|].
  cbn [removeChars]. now rewrite isReplacementChar_never, IH.
Qed.

(** X19. Sanitized container output holds no control character other than
    the line feed and the carriage return: no escape character, no tab, no
    code unit from DEL to the no-break space.  What is left is line feeds,
    carriage returns, printable ASCII and code units above the no-break
    space. *)
Theorem sanitizeDockerOutput_kept (output : string) :
  allChars isKeptChar (sanitizeDockerOutput output) = true
  /\ allChars (fun c => negb (isControlChar c)) (sanitizeDockerOutput output) = true.
Proof.
  unfold sanitizeDockerOutput.
  destruct (negb (nonEmpty output)); [split; reflexivity|].
  assert (A : allChars (fun c => negb (isControlChar c))
                       (normalizeLineEndings
                          (removeChars isReplacementChar
                             (removeChars isControlChar (removeEscapeSequences 0 output))))
              = true).
  { apply normalizeLineEndings_allChars, removeChars_keeps, removeChars_allChars. }
  split; [|exact A].
  apply (allChars_impl _ _ _ (fun c H => isControlChar_kept c (proj1 (negb_true_iff _) H)) A).
Qed.

Lemma removeEscapeSequences_clean (s : string) :
  allChars isCleanChar s = true -> removeEscapeSequences 0 s = s.
Proof.
  induction s as [|c s IH]; [reflexivity|].
  cbn [allChars]. intros A. apply andb_prop in A as [A1 A2].
  destruct (isCleanChar_plain c A1) as [E _].
  cbn [removeEscapeSequences].
  assert (N : escapeSequenceAt (String c s) = None).
  { unfold escapeSequenceAt. destruct s; [reflexivity|]. now rewrite E. }
  rewrite N. now rewrite (IH A2).
Qed.

Lemma removeChars_clean (s : string) :
  allChars isCleanChar s = true -> removeChars isControlChar s = s.
Proof.
  induction s as [|c s IH]; [reflexivity|].
  cbn [allChars]. intros A. apply andb_prop in A as [A1 A2].
  destruct (isCleanChar_plain c A1) as [_ [E _]].
  cbn [removeChars]. now rewrite E, (IH A2).
Qed.

Lemma normalizeLineEndings_clean (s : string) :
  (allChars isCleanChar s = true -> normalizeLineEndings s = s)
  /\ (forall c, allChars isCleanChar (String c s) = true ->
                normalizeLineEndings (String c s) = String c s).
Proof.
  induction s as [|d rest [IH1 IH2]].
  - split; reflexivity.
  - split; [exact (IH2 d)|]. intros c A.
    cbn [allChars] in A. apply andb_prop in A as [A1 A2].
    destruct (isCleanChar_plain c A1) as [_ [_ E]].
    cbn [normalizeLineEndings]. rewrite E. cbn [andb].
    f_equal. apply (IH2 d). exact A2.
Qed.

(** X20. A text of code units below 256 made of line feeds, printable ASCII
    and code units above the no-break space only is returned as it is (the
    replacement character U+FFFD, which the third [replace] removes, is not
    such a code unit). *)
Theorem sanitizeDockerOutput_clean
        (output : string)
        (Hclean : allChars isCleanChar output = true) :
  sanitizeDockerOutput output = output.
Proof.
  unfold sanitizeDockerOutput. destruct output as [|c s]; [reflexivity|].
  cbn [nonEmpty negb].
  rewrite (removeEscapeSequences_clean _ Hclean), (removeChars_clean _ Hclean).
  rewrite removeReplacementChar_nothing.
  now apply normalizeLineEndings_clean.
Qed.

Lemma sanitizeDockerOutput_clean_witness :
  sanitizeDockerOutput ("Step 1/3 : FROM node [ok]" ++ lf ++ "done {}")
  = "Step 1/3 : FROM node [ok]" ++ lf ++ "done {}".
Proof.
  apply (sanitizeDockerOutput_clean ("Step 1/3 : FROM node [ok]" ++ lf ++ "done {}")).
  vm_compute. reflexivity.
Defined.

(** Colour sequences and the tab are removed, a carriage return before a
    line feed is dropped; a second carriage return before it stays, and so
    does a bracket sequence whose escape character is missing its final
    byte. *)
Example sanitizeDockerOutput_run :
  sanitizeDockerOutput
    (String (ascii_of_nat 27) "[31mred" ++ String (ascii_of_nat 27) "[0m"
     ++ String (ascii_of_nat 9) "x" ++ String (ascii_of_nat 13) lf
     ++ "y" ++ String (ascii_of_nat 13) (String (ascii_of_nat 13) lf)
     ++ String (ascii_of_nat 27) "[12")
  = "redx" ++ lf ++ "y" ++ String (ascii_of_nat 13) lf ++ "[12".
Proof. vm_compute. reflexivity. Qed.

(* ===================================================================== *)
(** ** killProcessAndChildren: the requests and the port owners            *)
(* ===================================================================== *)

Lemma forEach_requests {S} (os : Os S) (requests : list KillAction) :
  forall k : KillState S,
    exists k',
      forEach (attempt os) requests k = (k', Ok tt)
      /\ kill_actions k' = (kill_actions k ++ requests)%list.
Proof.
  intros k. destruct (forEach_attempt os (fun a => a) requests k) as [k' [E A]].
  exists k'. split; [exact E | now rewrite A, map_id].
Qed.

Lemma killProcessAndChildren_sends {S} (os : Os S) (platform : Platform) (pid : Z)
      (command : CommandConfig.t) (detectedPorts childPids : list Z)
      (k0 k1 : KillState S) (allPids : list Z) :
  pid <> 0%Z ->
  targetPids os pid command detectedPorts childPids k0 = (k1, Ok allPids) ->
  exists k,
    killProcessAndChildren os platform (Some pid) command detectedPorts childPids k0
    = (k, Ok tt)
    /\ kill_actions k
       = (kill_actions k1 ++ killRequests platform command detectedPorts allPids)%list.
Proof.
  intros Hpid T. unfold killProcessAndChildren.
  replace (pid =? 0)%Z with false by (symmetry; now apply Z.eqb_neq).
  unfold bind at 1. rewrite T.
  assert (Posix :
            exists k,
              (forEach (fun p => attempt os (ActProcessKill p SIGTERM)) allPids ;;;
               sleepFor os 500 ;;;
               forEach (fun p => attempt os (ActProcessKill p SIGKILL)) allPids ;;;
               forEach (fun port => attempt os (ActLsofKill port)) detectedPorts ;;;
               forEach (attempt os) (nodeCleanup command ActPkillNode) ;;;
               forEach (fun port => attempt os (ActLsofForceKill port))
                       (criticalPortsOf command detectedPorts))%eff k1
              = (k, Ok tt)
              /\ kill_actions k
                 = (kill_actions k1
                    ++ map (fun p => ActProcessKill p SIGTERM) allPids
                    ++ [ActSleep 500]
                    ++ map (fun p => ActProcessKill p SIGKILL) allPids
                    ++ map ActLsofKill detectedPorts
                    ++ nodeCleanup command ActPkillNode
                    ++ map ActLsofForceKill (criticalPortsOf command detectedPorts))%list).
  { destruct (forEach_attempt os (fun p => ActProcessKill p SIGTERM) allPids k1)
      as [k2 [E2 A2]].
    unfold bind at 1. rewrite E2. unfold bind at 1, sleepFor at 1.
    destruct (forEach_attempt os (fun p => ActProcessKill p SIGKILL) allPids
                (mkKill (sleep os (kill_os k2) 500)
                        (kill_actions k2 ++ [ActSleep 500])%list)) as [k4 [E4 A4]].
    unfold bind at 1. rewrite E4.
    destruct (forEach_attempt os ActLsofKill detectedPorts k4) as [k5 [E5 A5]].
    unfold bind at 1. rewrite E5.
    destruct (forEach_requests os (nodeCleanup command ActPkillNode) k5) as [k6 [E6 A6]].
    unfold bind at 1. rewrite E6.
    destruct (forEach_attempt os ActLsofForceKill
                              (criticalPortsOf command detectedPorts) k6) as [k7 [E7 A7]].
    exists k7. split; [exact E7|].
    rewrite A7, A6, A5, A4. cbn [kill_actions]. rewrite A2, <- !app_assoc. reflexivity. }
  destruct platform; try exact Posix.
  destruct (forEach_attempt os ActTaskkill allPids k1) as [k2 [E2 A2]].
  unfold bind at 1. rewrite E2.
  destruct (forEach_requests os (nodeCleanup command ActTaskkillNode) k2) as [k3 [E3 A3]].
  unfold bind at 1. rewrite E3.
  destruct (forEach_attempt os (fun port => ActNetstatKill port false) detectedPorts k3)
    as [k4 [E4 A4]].
  unfold bind at 1. rewrite E4.
  destruct (forEach_attempt os (fun port => ActNetstatKill port true)
                            (criticalPortsOf command detectedPorts) k4) as [k5 [E5 A5]].
  exists k5. split; [exact E5|].
  rewrite A5, A4, A3, A2. cbn [killRequests]. rewrite <- !app_assoc. reflexivity.
Qed.



(** The requests of that run on Windows. *)
Example killProcessAndChildren_win32_requests :
  kill_actions
    (fst (killProcessAndChildren exampleOs Win32 (Some 100%Z)
            (CommandConfig.mk "serve" "npm run dev" None None [] false DepUndefined
                              None None)
            [8080%Z] [101%Z] (mkKill tt [])))
  = [ActTaskkill 100; ActTaskkill 101; ActTaskkill 102; ActTaskkill 200;
     ActTaskkillNode "dev";
     ActNetstatKill 8080 false;
     ActNetstatKill 8080 true; ActNetstatKill 5173 true].
Proof. vm_compute. reflexivity. Qed.

Lemma addChildren_incl {S} (os : Os S) (pid : Z) (allPids : list Z) (k : KillState S) :
  exists k' pids,
    addChildren os pid allPids k = (k', Ok pids) /\ incl allPids pids.
Proof.
  unfold addChildren, bind, tryCatch, findChildren, ret.
  destruct (findChildProcesses os (kill_os k) pid) as [s1 [more|e]]; simpl.
  - eexists _, _. split; [reflexivity | apply setAddAll_incl].
  - eexists _, _. split; [reflexivity | apply incl_refl].
Qed.

Lemma addPortOwners_owners {S} (os : Os S) (portInfo : list (Z * Z)) :
  forall (allPids : list Z) (k : KillState S),
    exists k' pids,
      addPortOwners os portInfo allPids k = (k', Ok pids)
      /\ incl allPids pids
      /\ forall info, In info portInfo -> snd info <> 0%Z -> In (snd info) pids.
Proof.
  induction portInfo as [|info rest IH]; intros allPids k.
  - exists k, allPids. split; [reflexivity|]. split; [apply incl_refl | intros i []].
  - cbn [addPortOwners].
    destruct (negb (snd info =? 0)%Z && negb (existsb (Z.eqb (snd info)) allPids)) eqn:C.
    + destruct (addChildren_incl os (snd info) (setAdd (snd info) allPids) k)
        as [k1 [pids1 [E1 I1]]].
      destruct (IH pids1 k1) as [k2 [pids2 [E2 [I2 O2]]]].
      exists k2, pids2. unfold bind. rewrite E1. split; [exact E2|]. split.
      * eapply incl_tran; [apply setAdd_incl|]. eapply incl_tran; eassumption.
      * intros i [<-|M] N; [|now apply O2].
        apply I2, I1, setAdd_In.
    + destruct (IH allPids k) as [k2 [pids2 [E2 [I2 O2]]]].
      exists k2, pids2. split; [exact E2|]. split; [exact I2|].
      intros i [<-|M] N; [|now apply O2].
      apply I2. apply existsb_Zeqb.
      apply andb_false_iff in C as [C|C]; apply negb_false_iff in C.
      * apply Z.eqb_eq in C. now elim N.
      * exact C.
Qed.

Lemma targetPids_owners {S} (os : Os S) (pid : Z) (command : CommandConfig.t)
      (detectedPorts childPids : list Z) (k : KillState S) (portInfo : list (Z * Z)) :
  criticalPortsOf command detectedPorts <> [] ->
  (forall s, snd (checkPortsInUse os s (criticalPortsOf command detectedPorts))
             = Ok portInfo) ->
  exists k' pids,
    targetPids os pid command detectedPorts childPids k = (k', Ok pids)
    /\ forall info, In info portInfo -> snd info <> 0%Z -> In (snd info) pids.
Proof.
  intros Hcritical Hports. unfold targetPids.
  destruct (addChildren_incl os pid (setAddAll (pid :: childPids) []) k)
    as [k1 [pids1 [E1 _]]].
  unfold bind at 1. rewrite E1.
  destruct (criticalPortsOf command detectedPorts) as [|port ports] eqn:C;
    [now elim Hcritical|].
  cbn [length Nat.ltb Nat.leb]. unfold tryCatch, bind, portsInUse.
  specialize (Hports (kill_os k1)).
  destruct (checkPortsInUse os (kill_os k1) (port :: ports)) as [s2 answer].
  simpl in Hports. subst answer.
  destruct (addPortOwners_owners os portInfo pids1 (mkKill s2 (kill_actions k1)))
    as [k3 [pids3 [E3 [_ O3]]]].
  rewrite E3. exists k3, pids3. split; [reflexivity | exact O3].
Qed.



(* ===================================================================== *)
(** ** checkPortsInUse                                                     *)
(* ===================================================================== *)

Lemma lsofOwner_entry (exec : PortLookup.Exec) (filterPids : list Z) (port : Z)
      (entry : Z * Z) :
  PortLookup.lsofOwner exec filterPids port = Some entry ->
  fst entry = port /\ PortLookup.passesFilter filterPids (snd entry) = true.
Proof.
  unfold PortLookup.lsofOwner. destruct (exec _) as [error stdout].
  destruct (negb error && nonEmpty stdout); [|discriminate].
  destruct (parseInt10 (trim stdout)) as [pid|]; [|discriminate].
  destruct (PortLookup.passesFilter filterPids pid) eqn:F; [|discriminate].
  intros H. injection H as <-. now split.
Qed.

Lemma netstatLines_entry (filterPids : list Z) (port : Z) (lines : list string)
      (entry : Z * Z) :
  PortLookup.netstatLines filterPids port lines = Some entry ->
  fst entry = port /\ PortLookup.passesFilter filterPids (snd entry) = true.
Proof.
  induction lines as [|line rest IH]; [discriminate|].
  cbn [PortLookup.netstatLines].
  destruct (PortLookup.trailingDigits (trim line)) as [digits|]; [|exact IH].
  destruct (parseInt10 digits) as [pid|]; [|exact IH].
  destruct (PortLookup.passesFilter filterPids pid) eqn:F; [|exact IH].
  intros H. injection H as <-. now split.
Qed.

Lemma netstatOwner_entry (exec : PortLookup.Exec) (filterPids : list Z) (port : Z)
      (entry : Z * Z) :
  PortLookup.netstatOwner exec filterPids port = Some entry ->
  fst entry = port /\ PortLookup.passesFilter filterPids (snd entry) = true.
Proof.
  unfold PortLookup.netstatOwner. destruct (exec _) as [error stdout].
  destruct (negb error && nonEmpty stdout); [|discriminate].
  apply netstatLines_entry.
Qed.

Lemma passesFilter_spec (filterPids : list Z) (pid : Z) :
  PortLookup.passesFilter filterPids pid = true <-> filterPids = [] \/ In pid filterPids.
Proof.
  unfold PortLookup.passesFilter. rewrite orb_true_iff, existsb_Zeqb.
  destruct filterPids as [|x l]; simpl; split; intros [H|H]; auto; discriminate H.
Qed.

Lemma flat_map_length_le {A B} (f : A -> list B) (valid : A -> bool) (l : list A) :
  (forall a, length (f a) <= 1) ->
  (forall a, valid a = false -> f a = []) ->
  length (flat_map f l) <= length (filter valid l).
Proof.
  intros One Nil. induction l as [|a l IH]; [apply le_n|].
  cbn [flat_map filter]. rewrite length_app.
  destruct (valid a) eqn:V.
  - specialize (One a). simpl. lia.
  - rewrite (Nil a V). simpl. exact IH.
Qed.

(** X23. The port lookup reports only ports it was asked about, and, when
    a filter is given, only processes of the filter; each lookup adds at
    most one entry, so there are never more entries than ports.  This holds
    on every platform, for any answers of the commands it runs and any
    order in which they complete. *)
Theorem checkPortsInUse_entries
        (platform : Platform) (exec : PortLookup.Exec)
        (ports filterPids : list Z) (completionOrder : list nat) :
  (forall port pid,
      In (port, pid)
         (PortLookup.checkPortsInUse platform exec ports filterPids completionOrder) ->
      In port ports /\ (filterPids = [] \/ In pid filterPids))
  /\ (NoDup completionOrder ->
      length (PortLookup.checkPortsInUse platform exec ports filterPids completionOrder)
      <= length ports).
Proof.
  unfold PortLookup.checkPortsInUse. split.
  - intros port pid I. apply in_flat_map in I as [i [_ I]].
    destruct (nth_error ports i) as [p|] eqn:N; [|contradiction].
    apply nth_error_In in N.
    assert (X : forall o : option (Z * Z),
               (forall entry, o = Some entry ->
                              fst entry = p
                              /\ PortLookup.passesFilter filterPids (snd entry) = true) ->
               In (port, pid) match o with Some entry => [entry] | None => [] end ->
               In port ports /\ (filterPids = [] \/ In pid filterPids)).
    { intros [entry|] H M; [|contradiction]. destruct M as [->|[]].
      destruct (H _ eq_refl) as [H1 H2]. simpl in H1, H2. subst p.
      split; [exact N | now apply passesFilter_spec]. }
    destruct platform.
    + exact (X _ (netstatOwner_entry exec filterPids p) I).
    + exact (X _ (lsofOwner_entry exec filterPids p) I).
    + exact (X _ (lsofOwner_entry exec filterPids p) I).
  - intros ND.
    eapply Nat.le_trans.
    + apply (flat_map_length_le _ (fun i => Nat.ltb i (length ports))).
      * intros i. destruct (nth_error ports i); [|apply Nat.le_0_l].
        destruct platform;
          [destruct (PortLookup.netstatOwner exec filterPids z)
          |destruct (PortLookup.lsofOwner exec filterPids z)
          |destruct (PortLookup.lsofOwner exec filterPids z)];
          simpl; lia.
      * intros i V. apply Nat.ltb_ge in V. apply nth_error_None in V. now rewrite V.
    + apply Nat.le_trans with (length (seq 0 (length ports)));
        [|rewrite length_seq; apply le_n].
      apply NoDup_incl_length; [now apply NoDup_filter|].
      intros i I. apply filter_In in I as [_ I]. apply Nat.ltb_lt in I.
      apply in_seq. lia.
Qed.

(** Two lookups that complete in reverse order on a POSIX system: the pid is
    the first number of the answer. *)
Example checkPortsInUse_run :
  PortLookup.checkPortsInUse Linux
    (fun command => if String.eqb command "lsof -i:3000 -P -n -t"
                    then (false, " 4242" ++ lf ++ "17" ++ lf)
                    else (true, EmptyString))
    [3000; 5173]%Z [] [1; 0]
  = [(3000, 4242)]%Z.
Proof. vm_compute. reflexivity. Qed.

(* ===================================================================== *)
(** ** The job panel                                                       *)
(* ===================================================================== *)

Lemma allChars_app (p : ascii -> bool) (a b : string) :
  allChars p (a ++ b) = allChars p a && allChars p b.
Proof.
  induction a as [|c a IH]; [reflexivity|]. simpl. now rewrite IH, andb_assoc.
Qed.

Lemma escapeHtml_once (text : string) : _escapeHtml text = escapedOnce text.
Proof.
  induction text as [|c text IH]; [reflexivity|].
  unfold _escapeHtml in *. cbn [escapedOnce]. rewrite <- IH. clear IH.
  destruct c as [b0 b1 b2 b3 b4 b5 b6 b7].
  destruct b0, b1, b2, b3, b4, b5, b6, b7; reflexivity.
Qed.

Lemma escapedOnce_markup (text : string) :
  allChars (fun c => negb (isMarkupChar c)) (escapedOnce text) = true.
Proof.
  induction text as [|c text IH]; [reflexivity|].
  cbn [escapedOnce]. rewrite allChars_app, IH, andb_true_r.
  destruct c as [b0 b1 b2 b3 b4 b5 b6 b7].
  destruct b0, b1, b2, b3, b4, b5, b6, b7; reflexivity.
Qed.

Lemma escapedOnce_ampersands (text : string) :
  ampersandsAreEntities (escapedOnce text) = true.
Proof.
  induction text as [|c text IH]; [reflexivity|].
  cbn [escapedOnce].
  destruct c as [b0 b1 b2 b3 b4 b5 b6 b7].
  destruct b0, b1, b2, b3, b4, b5, b6, b7; exact IH.
Qed.

(** X24. The escaping of job output and errors for the panel equals one
    pass that writes the entity of each of the five characters ampersand,
    less-than, greater-than, double and single quote, and copies every other
    character: no ampersand of an entity is escaped again.  The escaped
    text holds none of the four characters that open or close markup or an
    attribute value, and each of its ampersands starts one of the five
    entities. *)
Theorem escapeHtml_safe (text : string) :
  _escapeHtml text = escapedOnce text
  /\ allChars (fun c => negb (isMarkupChar c)) (_escapeHtml text) = true
  /\ ampersandsAreEntities (_escapeHtml text) = true.
Proof.
  rewrite escapeHtml_once. split; [reflexivity|].
  split; [apply escapedOnce_markup | apply escapedOnce_ampersands].
Qed.

Example escapeHtml_run :
  _escapeHtml "a<b> & 'c' &amp;" = "a&lt;b&gt; &amp; &#039;c&#039; &amp;amp;".
Proof. vm_compute. reflexivity. Qed.

(* ===================================================================== *)
(** ** listFilesRecursively                                                *)
(* ===================================================================== *)

Lemma listEntry_added {J} (E : Env J) (base : string) :
  nonEmpty base = true ->
  forall entry dir fileList,
    exists added,
      listEntry E base dir entry fileList = (fileList ++ added)%list
      /\ Forall (fun path => shouldIgnorePath E path base = false) added.
Proof.
  intros Hbase entry.
  induction entry as [name | name entries IH] using DirEntry_induction;
    intros dir fileList; cbn [listEntry entryName].
  - destruct (shouldIgnorePath E (path_relative E base (path_join E dir name)) base) eqn:G.
    + exists []. now rewrite app_nil_r.
    + exists [path_relative E base (path_join E dir name)]. split; [reflexivity|].
      now repeat constructor.
  - destruct (shouldIgnorePath E (path_relative E base (path_join E dir name)) base).
    + exists []. now rewrite app_nil_r.
    + replace (orElse (Some base) (path_join E dir name)) with base
        by (destruct base; [discriminate Hbase | reflexivity]).
      revert fileList. induction IH as [|e es He _ IHes]; intros fileList.
      * exists []. now rewrite app_nil_r.
      * cbn [fold_left].
        destruct (He (path_join E dir name) fileList) as [a1 [E1 F1]].
        destruct (IHes (listEntry E base (path_join E dir name) e fileList))
          as [a2 [E2 F2]].
        exists (a1 ++ a2)%list. split.
        -- rewrite E2, E1. now rewrite app_assoc.
        -- apply Forall_app. now split.
Qed.

(** X25. Listing the files below a directory only appends to the list it is
    given, and no path it adds is matched by the ignore predicate (for a
    base directory with a non-empty name); a directory that is matched is
    not entered, whatever it holds. *)
Theorem listFilesRecursively_not_ignored
        (J : Type) (E : Env J) (dir : string) (entries : list DirEntry)
        (fileList : list string) (baseDir : option string)
        (Hbase : nonEmpty (orElse baseDir dir) = true) :
  (exists added,
      listFilesRecursively E dir entries fileList baseDir = (fileList ++ added)%list
      /\ Forall (fun path => shouldIgnorePath E path (orElse baseDir dir) = false) added)
  /\ (forall name below,
         shouldIgnorePath E (path_relative E (orElse baseDir dir) (path_join E dir name))
                          (orElse baseDir dir)
         = true ->
         listFilesRecursively E dir [SubDirectory name below] fileList baseDir = fileList).
Proof.
  split.
  - unfold listFilesRecursively. revert fileList.
    induction entries as [|e es IH]; intros fileList.
    + exists []. now rewrite app_nil_r.
    + cbn [fold_left].
      destruct (listEntry_added E (orElse baseDir dir) Hbase e dir fileList)
        as [a1 [E1 F1]].
      destruct (IH (listEntry E (orElse baseDir dir) dir e fileList)) as [a2 [E2 F2]].
      exists (a1 ++ a2)%list. split.
      * rewrite E2, E1. now rewrite app_assoc.
      * apply Forall_app. now split.
  - intros name below G. unfold listFilesRecursively.
    cbn [fold_left listEntry entryName]. now rewrite G.
Qed.

Lemma listFilesRecursively_not_ignored_witness :
  exists added,
    listFilesRecursively (ignoringEnv (fun p => endsWith p "tmp" || endsWith p ".log"))
      "/ws/.niobium_results"
      [FileEntry "scan.json";
       SubDirectory "tmp" [FileEntry "partial.json"];
       SubDirectory "reports" [FileEntry "run.log"; FileEntry "summary.txt"]]
      ["earlier.txt"] None
    = (["earlier.txt"] ++ added)%list
    /\ Forall (fun path =>
                 shouldIgnorePath (ignoringEnv (fun p => endsWith p "tmp" || endsWith p ".log"))
                                  path (orElse None "/ws/.niobium_results")
                 = false)
              added.
Proof.
  apply (listFilesRecursively_not_ignored Json
           (ignoringEnv (fun p => endsWith p "tmp" || endsWith p ".log"))
           "/ws/.niobium_results"
           [FileEntry "scan.json";
            SubDirectory "tmp" [FileEntry "partial.json"];
            SubDirectory "reports" [FileEntry "run.log"; FileEntry "summary.txt"]]
           ["earlier.txt"] None).
  reflexivity.
Defined.

(** The listing of that directory: the ignored directory is not entered. *)
Example listFilesRecursively_run :
  listFilesRecursively (ignoringEnv (fun p => endsWith p "tmp" || endsWith p ".log"))
    "/ws/.niobium_results"
    [FileEntry "scan.json";
     SubDirectory "tmp" [FileEntry "partial.json"];
     SubDirectory "reports" [FileEntry "run.log"; FileEntry "summary.txt"]]
    ["earlier.txt"] None
  = ["earlier.txt"; "scan.json"; "reports/summary.txt"].
Proof. vm_compute. reflexivity. Qed.

